(** * Attendance reconciliation engine (backend/app/reports.py)

    A shallow embedding of the report engine of the attendance dashboard:
    day attendance, segment accumulation, the polarity heuristic, the mapping
    state and the report entry points, followed by the properties proved
    about them.

    Conventions of the embedding.
    - A naive [datetime] is the number of microseconds elapsed since the
      midnight that starts proleptic Gregorian ordinal 0, so that
      [t / us_per_day] is Python's [date.toordinal()] of its calendar day.
      A [timedelta] is a number of microseconds.  Python bounds years to
      1..9999; the embedding does not, and [mk_date] performs the
      constructor's range checks where the source builds a date from numbers.
    - [int(delta.total_seconds() // 60)] is the floor quotient by
      [us_per_minute]; the float in between is exact on the spans at hand.
    - A [date] stands for the ["%Y-%m-%d"] string the source uses as a dict
      key: the formatting is injective on dates.
    - Python's [None] is [option]'s [None]; exceptions are values of [Error]
      threaded through the monad [M], whose state is the [World]: the
      external store, the settings, the clock, the two module-level caches
      and the log of the queries executed.
    - The store answers a query by a function of its tables.  ORDER BY on
      the event time keeps rows of equal time in table order, ascending, and
      reverses that order, descending: two queries never disagree on the
      order of two rows.  A query whose text names a column that [TEmployee]
      lacks is refused with the driver's [ProgrammingError] (invalid column
      name); the event queries and the introspection name resolved columns
      and system columns only.
    - Text is ASCII: [str.strip], [str.lower], [int] and [strptime] are
      followed on the ASCII range. *)

From Stdlib Require Import ZArith Lia String Ascii.
From stdpp Require Import base list gmap strings sorting.

Local Open Scope Z_scope.

(** ** Time and calendar *)

Definition datetime := Z.
Definition timedelta := Z.
Definition date := Z.

Definition us_per_second : Z := 1000000.
Definition us_per_minute : Z := 60 * us_per_second.
Definition us_per_hour : Z := 60 * us_per_minute.
Definition us_per_day : Z := 24 * us_per_hour.

Definition timedelta_days (n : Z) : timedelta := n * us_per_day.
Definition timedelta_hours (n : Z) : timedelta := n * us_per_hour.

(** [value.date()], as an ordinal. *)
Definition date_of (t : datetime) : date := t / us_per_day.

(** [datetime.combine(d, datetime.min.time())]. *)
Definition datetime_combine_min (d : date) : datetime := d * us_per_day.

(** [datetime(t.year, t.month, t.day)]: the midnight starting [t]'s day. *)
Definition midnight_of (t : datetime) : datetime := datetime_combine_min (date_of t).

(** [t.hour]. *)
Definition hour_of (t : datetime) : Z := (t mod us_per_day) / us_per_hour.

(** [int((b - a).total_seconds() // 60)]. *)
Definition whole_minutes (a b : datetime) : Z := (b - a) / us_per_minute.

(** The calendar arithmetic of Python's [datetime] module. *)
Definition is_leap (year : Z) : bool :=
  (year mod 4 =? 0) && (negb (year mod 100 =? 0) || (year mod 400 =? 0)).

Definition days_before_year (year : Z) : Z :=
  let y := year - 1 in y * 365 + y / 4 - y / 100 + y / 400.

Definition days_in_month (year month : Z) : Z :=
  if (month =? 2) && is_leap year then 29
  else if month =? 2 then 28
  else if (month =? 4) || (month =? 6) || (month =? 9) || (month =? 11) then 30
  else 31.

Definition days_before_month_table (month : Z) : Z :=
  nth (Z.to_nat month) [0; 0; 31; 59; 90; 120; 151; 181; 212; 243; 273; 304; 334] 0.

Definition days_before_month (year month : Z) : Z :=
  days_before_month_table month + (if (2 <? month) && is_leap year then 1 else 0).

Definition ymd2ord (year month day : Z) : date :=
  days_before_year year + days_before_month year month + day.

(** [date(year, month, day)]; [None] is the constructor's [ValueError]. *)
Definition mk_date (year month day : Z) : option date :=
  if (1 <=? year) && (year <=? 9999) && (1 <=? month) && (month <=? 12)
     && (1 <=? day) && (day <=? days_in_month year month)
  then Some (ymd2ord year month day)
  else None.

(** [datetime(year, month, day)], at midnight. *)
Definition mk_datetime (year month day : Z) : option datetime :=
  datetime_combine_min <$> mk_date year month day.

(** [datetime(year, month, day, hour, minute)] for literal timestamps. *)
Definition at_time (year month day hour minute : Z) : datetime :=
  datetime_combine_min (ymd2ord year month day) + hour * us_per_hour + minute * us_per_minute.

(** The inverse of [ymd2ord], as the module computes it. *)
Definition ord2ymd (n0 : date) : Z * Z * Z :=
  let n := n0 - 1 in
  let n400 := n / 146097 in
  let n := n mod 146097 in
  let year := n400 * 400 + 1 in
  let n100 := n / 36524 in
  let n := n mod 36524 in
  let n4 := n / 1461 in
  let n := n mod 1461 in
  let n1 := n / 365 in
  let n := n mod 365 in
  let year := year + n100 * 100 + n4 * 4 + n1 in
  if (n1 =? 4) || (n100 =? 4) then (year - 1, 12, 31)
  else
    let leapyear := (n1 =? 3) && (negb (n4 =? 24) || (n100 =? 3)) in
    let month := Z.shiftr (n + 50) 5 in
    let preceding :=
      days_before_month_table month + (if (2 <? month) && leapyear then 1 else 0) in
    if n <? preceding then
      let month' := month - 1 in
      let dim :=
        (if month' =? 2 then 28
         else if (month' =? 4) || (month' =? 6) || (month' =? 9) || (month' =? 11) then 30
         else 31)
        + (if (month' =? 2) && leapyear then 1 else 0) in
      (year, month', n - (preceding - dim) + 1)
    else (year, month, n - preceding + 1).

(** [record["date"][:7]]: the year and month of a day key. *)
Definition month_key (d : date) : Z * Z :=
  let '(y, m, _) := ord2ymd d in (y, m).

(** ** Formatting helpers *)

(** [_minutes_to_hhmm]: the hours and minutes that the source prints as
    ["HH:MM"]. *)
Definition _minutes_to_hhmm (value : option Z) : option (Z * Z) :=
  match value with
  | None => None
  | Some v => if v <? 0 then None else Some (v / 60, v mod 60)
  end.

(** [_duration_minutes]. *)
Definition _duration_minutes (first_in last_out : option datetime) : option Z :=
  match first_in, last_out with
  | Some f, Some l => if l <? f then None else Some (whole_minutes f l)
  | _, _ => None
  end.

(** [_normalize_inout_flag], on the integer (or NULL) the query's CASE
    expression yields. *)
Definition _normalize_inout_flag (value : option Z) : option Z :=
  match value with
  | Some 1 => Some 1
  | Some 0 => Some 0
  | _ => None
  end.

(** ** Events *)

Record Event := mkEvent {
  event_time : datetime;
  inout_flag : option Z
}.

(** [flag in {0, 1}]. *)
Definition flag_is_binary (flag : option Z) : bool :=
  match flag with
  | Some f => (f =? 0) || (f =? 1)
  | None => false
  end.

(** [_event_state]. *)
Definition _event_state (event : Event) (swap_applied : bool) : option Z :=
  match inout_flag event with
  | Some flag =>
      if negb ((flag =? 0) || (flag =? 1)) then None
      else if negb swap_applied then Some flag
      else Some (if flag =? 1 then 0 else 1)
  | None => None
  end.

(** The [effective] flag shared by [_is_in_event] and [_is_out_event]. *)
Definition effective_flag (flag : Z) (swap_applied : bool) : Z :=
  if swap_applied && (flag =? 1) then 0
  else if swap_applied && (flag =? 0) then 1
  else flag.

(** [_is_in_event]. *)
Definition _is_in_event (event : Event) (swap_applied : bool) : bool :=
  match inout_flag event with
  | Some flag =>
      if negb ((flag =? 0) || (flag =? 1)) then false
      else effective_flag flag swap_applied =? 1
  | None => false
  end.

(** [_is_out_event]. *)
Definition _is_out_event (event : Event) (swap_applied : bool) : bool :=
  match inout_flag event with
  | Some flag =>
      if negb ((flag =? 0) || (flag =? 1)) then false
      else effective_flag flag swap_applied =? 0
  | None => false
  end.

(** ** Settings (backend/app/config.py) *)

Record Settings := mkSettings {
  shift_out_cutoff_hours : Z;
  inout_swap : bool
}.

(** [max(0, min(_to_int(...), 23))]: how [get_settings] bounds the cutoff. *)
Definition clamp_cutoff (hours : Z) : Z := Z.max 0 (Z.min hours 23).

(** ** Day attendance calculator *)

Record DayAttendance := mkDayAttendance {
  da_date : date;
  first_in_dt : option datetime;
  last_out_dt : option datetime;
  duration_minutes : option Z;
  duration_hhmm : option (Z * Z);
  missing_punch : bool;
  has_relevant_events : bool
}.

(** [min(xs)] and [max(xs)], [None] on the empty list (where the source
    tests emptiness before calling them). *)
Definition list_min (xs : list datetime) : option datetime :=
  match xs with
  | [] => None
  | x :: rest => Some (foldl Z.min x rest)
  end.

Definition list_max (xs : list datetime) : option datetime :=
  match xs with
  | [] => None
  | x :: rest => Some (foldl Z.max x rest)
  end.

(** The first loop of [_compute_day_attendance]: the in-day IN and OUT
    timestamps, in iteration order. *)
Fixpoint primary_buckets (day_start day_end : datetime) (swap_applied : bool)
    (day_events : list Event) : list datetime * list datetime :=
  match day_events with
  | [] => ([], [])
  | event :: rest =>
      let '(in_primary, out_primary) := primary_buckets day_start day_end swap_applied rest in
      let t := event_time event in
      if (t <? day_start) || (day_end <=? t) then (in_primary, out_primary)
      else if _is_in_event event swap_applied then (t :: in_primary, out_primary)
      else if _is_out_event event swap_applied then (in_primary, t :: out_primary)
      else (in_primary, out_primary)
  end.

(** The list comprehension [outs_after_in]. *)
Definition outs_after_in (first_in overnight_end : datetime) (swap_applied : bool)
    (day_events : list Event) : list datetime :=
  event_time <$>
    filter (λ event, Is_true ((first_in <=? event_time event)
                              && (event_time event <? overnight_end)
                              && _is_out_event event swap_applied)) day_events.

(** The loop of the sanity branch: [(next_out, last_out_after_in)]. *)
Fixpoint rescan_outs (first_in overnight_end : datetime) (swap_applied : bool)
    (day_events : list Event) (next_out last_out_after_in : option datetime)
    : option datetime * option datetime :=
  match day_events with
  | [] => (next_out, last_out_after_in)
  | event :: rest =>
      let t := event_time event in
      if (t <? first_in) || (overnight_end <=? t) then
        rescan_outs first_in overnight_end swap_applied rest next_out last_out_after_in
      else if negb (_is_out_event event swap_applied) then
        rescan_outs first_in overnight_end swap_applied rest next_out last_out_after_in
      else
        rescan_outs first_in overnight_end swap_applied rest
          (match next_out with None => Some t | Some _ => next_out end) (Some t)
  end.

(** [last_out] as first chosen when a first IN exists: [max(outs_after_in)]. *)
Definition initial_last_out (first_in overnight_end : datetime) (swap_applied : bool)
    (day_events : list Event) : option datetime :=
  list_max (outs_after_in first_in overnight_end swap_applied day_events).

(** [last_out] as the sanity branch recomputes it:
    [last_out_after_in or next_out] after the loop. *)
Definition recomputed_last_out (first_in overnight_end : datetime) (swap_applied : bool)
    (day_events : list Event) : option datetime :=
  let '(next_out, last_out_after_in) :=
    rescan_outs first_in overnight_end swap_applied day_events None None in
  match last_out_after_in with
  | Some x => Some x
  | None => next_out
  end.

(** [last_out] before the duration is computed. *)
Definition paired_last_out (first_in : option datetime) (overnight_end : datetime)
    (swap_applied : bool) (day_events : list Event) (out_primary : list datetime)
    : option datetime :=
  match first_in with
  | Some f =>
      match initial_last_out f overnight_end swap_applied day_events with
      | Some l =>
          if l <? f then recomputed_last_out f overnight_end swap_applied day_events
          else Some l
      | None => None
      end
  | None => list_max out_primary
  end.

(** [if first_in is not None and last_out is not None and duration_minutes
    is None: last_out = None]. *)
Definition discard_unpaired (first_in last_out : option datetime) (duration : option Z)
    : option datetime :=
  match first_in, last_out, duration with
  | Some _, Some _, None => None
  | _, _, _ => last_out
  end.

(** [_compute_day_attendance]. *)
Definition _compute_day_attendance (settings : Settings) (day_start : datetime)
    (day_events : list Event) (swap_applied : bool) : DayAttendance :=
  let cutoff_hours := shift_out_cutoff_hours settings in
  let day_end := day_start + timedelta_days 1 in
  let overnight_end := day_end + timedelta_hours cutoff_hours in
  let '(in_primary, out_primary) :=
    primary_buckets day_start day_end swap_applied day_events in
  let first_in := list_min in_primary in
  let last_out := paired_last_out first_in overnight_end swap_applied day_events out_primary in
  let duration := _duration_minutes first_in last_out in
  let last_out := discard_unpaired first_in last_out duration in
  {| da_date := date_of day_start;
     first_in_dt := first_in;
     last_out_dt := last_out;
     duration_minutes := duration;
     duration_hhmm := _minutes_to_hhmm duration;
     missing_punch := xorb (bool_decide (first_in = None)) (bool_decide (last_out = None));
     has_relevant_events :=
       negb (bool_decide (in_primary = [])) || negb (bool_decide (out_primary = [])) |}.

(** ** Text helpers *)

Definition ascii_code (c : ascii) : Z := Z.of_N (N_of_ascii c).

(** [str.isspace] on the ASCII range. *)
Definition is_space (c : ascii) : bool :=
  let n := ascii_code c in
  ((9 <=? n) && (n <=? 13)) || ((28 <=? n) && (n <=? 32)).

Definition digit_of (c : ascii) : option Z :=
  let n := ascii_code c in
  if (48 <=? n) && (n <=? 57) then Some (n - 48) else None.

Definition is_digit (c : ascii) : bool := bool_decide (is_Some (digit_of c)).

(** [c.lower()] on the ASCII range. *)
Definition ascii_lower (c : ascii) : ascii :=
  let n := ascii_code c in
  if (65 <=? n) && (n <=? 90) then ascii_of_N (Z.to_N (n + 32)) else c.

Fixpoint string_lower (s : string) : string :=
  match s with
  | EmptyString => EmptyString
  | String c rest => String (ascii_lower c) (string_lower rest)
  end.

Fixpoint lstrip (cs : list ascii) : list ascii :=
  match cs with
  | c :: rest => if is_space c then lstrip rest else cs
  | [] => []
  end.

(** [text.strip()], on the character list. *)
Definition strip_chars (cs : list ascii) : list ascii :=
  reverse (lstrip (reverse (lstrip cs))).

Definition strip (s : string) : string :=
  string_of_list_ascii (strip_chars (list_ascii_of_string s)).

(** [_clean_text], on a text column that may be NULL. *)
Definition _clean_text (value : option string) : string :=
  match value with
  | None => EmptyString
  | Some v => strip v
  end.

(** [a or b] on strings: the empty string is falsy. *)
Definition str_or (a b : string) : string :=
  if bool_decide (a = EmptyString) then b else a.

(** [_employee_name_or_card]. *)
Definition _employee_name_or_card (row_name : option string) (fallback_card_no : string)
    : string :=
  let name := _clean_text row_name in
  str_or name fallback_card_no.

(** The digits of an [int] literal: decimal digits, single underscores
    allowed between two digits.  [acc] is the value read so far and
    [after_digit] tells whether the previous character was a digit. *)
Fixpoint int_digits (cs : list ascii) (acc : Z) (after_digit : bool) : option Z :=
  match cs with
  | [] => if after_digit then Some acc else None
  | c :: rest =>
      match digit_of c with
      | Some d => int_digits rest (10 * acc + d) true
      | None =>
          if bool_decide (c = "_"%char) && after_digit then int_digits rest acc false
          else None
      end
  end.

(** The whitespace that [int] skips around a literal: the characters 9..13
    and the space, not the separators 28..31 that [str.strip] removes. *)
Definition is_int_space (c : ascii) : bool :=
  let n := ascii_code c in
  ((9 <=? n) && (n <=? 13)) || (n =? 32).

Fixpoint lstrip_int_space (cs : list ascii) : list ascii :=
  match cs with
  | c :: rest => if is_int_space c then lstrip_int_space rest else cs
  | [] => []
  end.

(** [int(text)] for a [str] argument; [None] is its [ValueError]. *)
Definition py_int (text : string) : option Z :=
  match reverse (lstrip_int_space (reverse (lstrip_int_space (list_ascii_of_string text)))) with
  | c :: rest =>
      if bool_decide (c = "-"%char) then Z.opp <$> int_digits rest 0 false
      else if bool_decide (c = "+"%char) then int_digits rest 0 false
      else int_digits (c :: rest) 0 false
  | [] => None
  end.

(** The alternatives of [strptime]'s regex for [%m],
    [1[0-2]|0[1-9]|[1-9]], that match a prefix of [cs], in the regex's
    order, each with the rest of the input. *)
Definition month_alternatives (cs : list ascii) : list (Z * list ascii) :=
  (match cs with
   | c1 :: c2 :: rest =>
       match digit_of c1, digit_of c2 with
       | Some 1, Some d => if d <=? 2 then [(10 + d, rest)] else []
       | _, _ => []
       end
   | _ => []
   end) ++
  (match cs with
   | c1 :: c2 :: rest =>
       match digit_of c1, digit_of c2 with
       | Some 0, Some d => if 1 <=? d then [(d, rest)] else []
       | _, _ => []
       end
   | _ => []
   end) ++
  (match cs with
   | c1 :: rest =>
       match digit_of c1 with
       | Some d => if 1 <=? d then [(d, rest)] else []
       | None => []
       end
   | _ => []
   end).

(** The same for [%d]: [3[0-1]|[1-2]\d|0[1-9]|[1-9]| [1-9]]. *)
Definition day_alternatives (cs : list ascii) : list (Z * list ascii) :=
  (match cs with
   | c1 :: c2 :: rest =>
       match digit_of c1, digit_of c2 with
       | Some 3, Some d => if d <=? 1 then [(30 + d, rest)] else []
       | _, _ => []
       end
   | _ => []
   end) ++
  (match cs with
   | c1 :: c2 :: rest =>
       match digit_of c1, digit_of c2 with
       | Some t, Some d => if (1 <=? t) && (t <=? 2) then [(10 * t + d, rest)] else []
       | _, _ => []
       end
   | _ => []
   end) ++
  (match cs with
   | c1 :: c2 :: rest =>
       match digit_of c1, digit_of c2 with
       | Some 0, Some d => if 1 <=? d then [(d, rest)] else []
       | _, _ => []
       end
   | _ => []
   end) ++
  (match cs with
   | c1 :: rest =>
       match digit_of c1 with
       | Some d => if 1 <=? d then [(d, rest)] else []
       | None => []
       end
   | _ => []
   end) ++
  (match cs with
   | c1 :: c2 :: rest =>
       match digit_of c2 with
       | Some d => if bool_decide (c1 = " "%char) && (1 <=? d) then [(d, rest)] else []
       | None => []
       end
   | _ => []
   end).

(** [%Y]: exactly four digits. *)
Definition year_field (cs : list ascii) : option (Z * list ascii) :=
  match cs with
  | c1 :: c2 :: c3 :: c4 :: rest =>
      match digit_of c1, digit_of c2, digit_of c3, digit_of c4 with
      | Some d1, Some d2, Some d3, Some d4 =>
          Some (1000 * d1 + 100 * d2 + 10 * d3 + d4, rest)
      | _, _, _, _ => None
      end
  | _ => None
  end.

Definition expect_dash (cs : list ascii) : option (list ascii) :=
  match cs with
  | c :: rest => if bool_decide (c = "-"%char) then Some rest else None
  | [] => None
  end.

(** The first way, in backtracking order, in which the regex of ["%Y-%m"]
    matches a prefix of the input: year, month and unconsumed rest. *)
Definition match_year_month (cs : list ascii) : option (Z * Z * list ascii) :=
  '(year, rest) ← year_field cs;
  rest ← expect_dash rest;
  head ((λ '(month, rest'), (year, month, rest')) <$> month_alternatives rest).

(** The same for ["%Y-%m-%d"]. *)
Definition match_year_month_day (cs : list ascii) : option (Z * Z * Z * list ascii) :=
  '(year, rest) ← year_field cs;
  rest ← expect_dash rest;
  head (month_alternatives rest ≫= λ '(month, rest1),
        match expect_dash rest1 with
        | Some rest2 => (λ '(day, rest3), (year, month, day, rest3)) <$> day_alternatives rest2
        | None => []
        end).

(** [datetime.strptime(text, "%Y-%m-%d").date()]; [None] is [ValueError]
    (no match, unconverted data, or no such calendar day). *)
Definition strptime_date (text : string) : option date :=
  match match_year_month_day (list_ascii_of_string text) with
  | Some (year, month, day, []) => mk_date year month day
  | _ => None
  end.

(** [datetime.strptime(text, "%Y-%m")]: year and month of the first of the
    month it denotes. *)
Definition strptime_month (text : string) : option (Z * Z) :=
  match match_year_month (list_ascii_of_string text) with
  | Some (year, month, []) =>
      match mk_date year month 1 with
      | Some _ => Some (year, month)
      | None => None
      end
  | _ => None
  end.

(** ** Errors, the process state and the monad of the engine *)

Inductive Error :=
| HTTP400 (detail : string)
| DBOperationalError
| DBProgrammingError
| ValueError.

Inductive Result (A : Type) :=
| Ok (value : A)
| Raise (error : Error).
Arguments Ok {A} value.
Arguments Raise {A} error.

(** A value of the [EmpID] column. *)
Inductive SqlValue :=
| SqlNull
| SqlInt (n : Z)
| SqlText (s : string).

Record EmployeeRow := mkEmployeeRow {
  row_EmpID : SqlValue;
  row_CardNo : option string;
  row_EmployeeName : option string;
  row_Department : option string
}.

(** A row of [TEvent] as the engine's queries see it: the card converted to
    text, the event time (NULL allowed) and the value of the detector's
    IN/OUT CASE expression (1, 0 or NULL). *)
Record EventRow := mkEventRow {
  row_card : string;
  row_EventTime : option datetime;
  row_InOutFlag : option Z
}.

(** The external store.  [db_columns] answers the column introspection;
    [db_employee_list] and [db_employee_by_card] are the rows that satisfy the
    WHERE clause of the employee queries, in their ORDER BY order and before
    TOP is applied; [db_events] is the event table. *)
Record Database := mkDatabase {
  db_reachable : bool;
  db_columns : string → list string;
  db_employee_list : string → list EmployeeRow;
  db_employee_by_card : string → list EmployeeRow;
  db_events : list EventRow
}.

(** The queries of the engine.  An employee query carries the columns of
    [TEmployee] that its text names. *)
Inductive Query :=
| QColumns (table_name : string)
| QEmployeeList (columns : list string) (search : string)
| QEmployeeIdentity (columns : list string) (card_no : string)
| QEventsForCard (card_no : string) (start end_ : datetime)
| QLastEventBefore (card_no : string) (boundary : datetime)
| QRecentSample (limit : Z).

Inductive Variant :=
| EVENTTYPE_to_EventID
| EVENTID_to_EventID
| TEVENT_InOut_only
| TEVENT_Event_text_only
| UNSUPPORTED.

Global Instance Variant_eq_dec : EqDecision Variant.
Proof. solve_decision. Defined.

(** The detector dict; its SQL fragments are represented by their effect on
    [row_InOutFlag]. *)
Record Detector := mkDetector { variant : Variant }.

Record Schema := mkSchema {
  employee_columns : list string;
  event_columns : list string;
  event_type_columns : list string;
  employee_name_col : option string;
  employee_department_col : option string;
  employee_emp_id_col : string;
  employee_card_col : string;
  employee_emp_enable_col : string;
  employee_deleted_col : string;
  employee_leave_col : string;
  employee_is_visitor_col : string;
  event_emp_id_col : option string;
  event_card_col : option string;
  event_time_col : option string
}.

Inductive MappingVariant := normal | swapped | unsupported.

Record MappingState := mkMappingState {
  mappingVariant : MappingVariant;
  swapApplied : bool;
  detectorVariant : Variant;
  autoDetected : bool;
  manualOverride : bool
}.

Record MappingCacheEntry := mkMappingCacheEntry {
  cache_ts : Z;
  cache_mappingVariant : MappingVariant;
  cache_swapApplied : bool;
  cache_detectorVariant : Variant;
  cache_autoDetected : bool
}.

(** Everything a call can read or change: the store, the frozen settings,
    the reading of [time.time()], the two module-level caches, and the
    queries executed so far (most recent last). *)
Record World := mkWorld {
  database : Database;
  settings : Settings;
  clock : Z;
  _SCHEMA_CACHE : option Schema;
  _MAPPING_CACHE : option MappingCacheEntry;
  query_log : list Query
}.

Definition M (A : Type) : Type := World → Result A * World.

Definition ret {A} (a : A) : M A := λ w, (Ok a, w).

Definition raise {A} (e : Error) : M A := λ w, (Raise e, w).

Definition bind {A B} (m : M A) (k : A → M B) : M B :=
  λ w, match m w with
       | (Ok a, w') => k a w'
       | (Raise e, w') => (Raise e, w')
       end.

Declare Scope engine_scope.
Delimit Scope engine_scope with engine.
Notation "'do' x <~ m ; k" := (bind m (λ x, k))
  (at level 10, x name, m at level 100, k at level 200,
   format "'[v' 'do'  x  <~  m ; '/' k ']'") : engine_scope.
Notation "'do_' m ; k" := (bind m (λ _, k))
  (at level 10, m at level 100, k at level 200,
   format "'[v' 'do_'  m ; '/' k ']'") : engine_scope.
Local Open Scope engine_scope.

Definition get_world : M World := λ w, (Ok w, w).

(** [with get_cursor() as cursor]: the connection attempt. *)
Definition get_cursor : M unit :=
  λ w, if db_reachable (database w) then (Ok tt, w) else (Raise DBOperationalError, w).

(** The columns of [TEmployee] that the text of a query names. *)
Definition employee_columns_named (q : Query) : list string :=
  match q with
  | QEmployeeList columns _ => columns
  | QEmployeeIdentity columns _ => columns
  | _ => []
  end.

(** The store has every column that the query names. *)
Definition accepts (db : Database) (q : Query) : bool :=
  forallb (λ column, bool_decide (column ∈ db_columns db "TEmployee"%string))
    (employee_columns_named q).

(** [cursor.execute(sql, params)] on an open cursor: the query is sent, and
    refused when it names a column that the store lacks. *)
Definition execute (q : Query) : M unit :=
  λ w, (if accepts (database w) q then Ok tt else Raise DBProgrammingError,
        mkWorld (database w) (settings w) (clock w) (_SCHEMA_CACHE w)
          (_MAPPING_CACHE w) (query_log w ++ [q])).

Definition set_schema_cache (s : Schema) : M unit :=
  λ w, (Ok tt, mkWorld (database w) (settings w) (clock w) (Some s)
                 (_MAPPING_CACHE w) (query_log w)).

Definition set_mapping_cache (c : MappingCacheEntry) : M unit :=
  λ w, (Ok tt, mkWorld (database w) (settings w) (clock w) (_SCHEMA_CACHE w)
                 (Some c) (query_log w)).

(** ** Schema resolver *)

(** [_pick_first]: [lowered] maps each lower-cased column to the column
    (a later column of the same lower-cased name replaces an earlier one),
    and the first candidate found there with a non-empty value wins. *)
Definition lowered_columns (existing : list string) : gmap string string :=
  foldl (λ lowered column, <[string_lower column := column]> lowered) ∅ existing.

Fixpoint pick_candidate (lowered : gmap string string) (candidates : list string)
    : option string :=
  match candidates with
  | [] => None
  | candidate :: rest =>
      match lowered !! string_lower candidate with
      | Some found =>
          if bool_decide (found = EmptyString) then pick_candidate lowered rest
          else Some found
      | None => pick_candidate lowered rest
      end
  end.

Definition _pick_first (existing : list string) (candidates : list string) : option string :=
  pick_candidate (lowered_columns existing) candidates.

Definition _NAME_COLUMN_CANDIDATES : list string :=
  ["EmployeeName"; "EnglishName"; "Name"; "EmpName"; "EName"; "UserName"; "User"]%string.

Definition _DEPARTMENT_COLUMN_CANDIDATES : list string :=
  ["Department"; "DepartmentName"; "DeptName"; "Dept"; "DepName"]%string.

(** [_columns_of_with_cursor]: the non-empty column names of a table. *)
Definition _columns_of_with_cursor (table_name : string) : M (list string) :=
  do_ execute (QColumns table_name);
  do w <~ get_world;
  ret (filter (λ column, column ≠ EmptyString) (db_columns (database w) table_name)).

(** The dict that [_resolve_schema] returns for the three column sets. *)
Definition schema_from_columns (employee_columns event_columns event_type_columns : list string)
    : Schema :=
  {| employee_columns := employee_columns;
     event_columns := event_columns;
     event_type_columns := event_type_columns;
     employee_name_col := _pick_first employee_columns _NAME_COLUMN_CANDIDATES;
     employee_department_col := _pick_first employee_columns _DEPARTMENT_COLUMN_CANDIDATES;
     employee_emp_id_col :=
       default "EmpID"%string (_pick_first employee_columns ["EmpID"%string]);
     employee_card_col :=
       default "CardNo"%string (_pick_first employee_columns ["CardNo"%string]);
     employee_emp_enable_col :=
       default "EmpEnable"%string (_pick_first employee_columns ["EmpEnable"%string]);
     employee_deleted_col :=
       default "Deleted"%string (_pick_first employee_columns ["Deleted"%string]);
     employee_leave_col :=
       default "Leave"%string (_pick_first employee_columns ["Leave"%string]);
     employee_is_visitor_col :=
       default "isVisitor"%string
         (_pick_first employee_columns ["isVisitor"%string; "IsVisitor"%string]);
     event_emp_id_col := _pick_first event_columns ["EmpID"%string];
     event_card_col := _pick_first event_columns ["CardNo"%string];
     event_time_col := _pick_first event_columns ["EventTime"%string] |}.

(** [_resolve_schema]. *)
Definition _resolve_schema : M Schema :=
  do employee_columns <~ _columns_of_with_cursor "TEmployee";
  do event_columns <~ _columns_of_with_cursor "TEvent";
  do event_type_columns <~ _columns_of_with_cursor "TEventType";
  ret (schema_from_columns employee_columns event_columns event_type_columns).

(** [_get_schema]: the cached schema, resolved on the first call. *)
Definition _get_schema : M Schema :=
  do w <~ get_world;
  match _SCHEMA_CACHE w with
  | Some cached => ret cached
  | None =>
      do_ get_cursor;
      do resolved <~ _resolve_schema;
      do w' <~ get_world;
      match _SCHEMA_CACHE w' with
      | None => do_ set_schema_cache resolved; ret resolved
      | Some cached => ret cached
      end
  end.

(** ** Event variant detector *)

Definition is_some {A} (o : option A) : bool :=
  match o with Some _ => true | None => false end.

(** [_detect_event_variant]: the strategy, by priority. *)
Definition _detect_event_variant : M Detector :=
  do schema <~ _get_schema;
  let event_columns := event_columns schema in
  let event_type_columns := event_type_columns schema in
  let tevent_event_type_col := _pick_first event_columns ["EventType"%string] in
  let tevent_event_id_col := _pick_first event_columns ["EventID"%string] in
  let tevent_inout_col := _pick_first event_columns ["InOut"%string] in
  let tevent_event_text_col := _pick_first event_columns ["Event"%string] in
  let tetype_event_id_col := _pick_first event_type_columns ["EventID"%string] in
  if is_some tevent_event_type_col && is_some tetype_event_id_col then
    ret (mkDetector EVENTTYPE_to_EventID)
  else if is_some tevent_event_id_col && is_some tetype_event_id_col then
    ret (mkDetector EVENTID_to_EventID)
  else if is_some tevent_inout_col then ret (mkDetector TEVENT_InOut_only)
  else if is_some tevent_event_text_col then ret (mkDetector TEVENT_Event_text_only)
  else ret (mkDetector UNSUPPORTED).

(** [detector or _detect_event_variant(...)]. *)
Definition resolve_detector (detector : option Detector) : M Detector :=
  match detector with
  | Some d => ret d
  | None => _detect_event_variant
  end.

(** ** What the event queries return *)

(** ORDER BY on the event time, ascending: rows of equal time keep their
    table order.  The same function is Python's stable [list.sort]. *)
Fixpoint insert_sorted {A} (key : A → Z) (x : A) (l : list A) : list A :=
  match l with
  | [] => [x]
  | y :: rest => if key x <=? key y then x :: l else y :: insert_sorted key x rest
  end.

Definition stable_sort {A} (key : A → Z) (l : list A) : list A :=
  foldr (insert_sorted key) [] l.

(** The rows of a card that have an event time, with that time. *)
Definition timed_rows (card_no : option string) (rows : list EventRow)
    : list (datetime * option Z) :=
  rows ≫= λ row,
    match row_EventTime row with
    | Some t =>
        match card_no with
        | Some c => if bool_decide (row_card row = c) then [(t, row_InOutFlag row)] else []
        | None => [(t, row_InOutFlag row)]
        end
    | None => []
    end.

(** WHERE time >= start AND time < end ORDER BY time ASC. *)
Definition window_rows (start end_ : datetime) (rows : list (datetime * option Z))
    : list (datetime * option Z) :=
  stable_sort fst (filter (λ r, start ≤ r.1 ∧ r.1 < end_) rows).

(** TOP 1 ... WHERE time < boundary ORDER BY time DESC: the row that the
    ascending order lists last. *)
Definition last_row_before (boundary : datetime) (rows : list (datetime * option Z))
    : option (datetime * option Z) :=
  last (stable_sort fst (filter (λ r, r.1 < boundary) rows)).

(** The SELECT of [_fetch_events_for_card]. *)
Definition select_events_for_card (db : Database) (card_no : string) (start end_ : datetime)
    : list (datetime * option Z) :=
  window_rows start end_ (timed_rows (Some card_no) (db_events db)).

(** The SELECT of [_fetch_last_event_before]. *)
Definition select_last_event_before (db : Database) (card_no : string) (boundary : datetime)
    : option (datetime * option Z) :=
  last_row_before boundary (timed_rows (Some card_no) (db_events db)).

(** The SELECT TOP limit ... ORDER BY time DESC of
    [_fetch_recent_mapping_sample]. *)
Definition select_recent_sample (db : Database) (limit : Z) : list (datetime * option Z) :=
  take (Z.to_nat limit) (reverse (stable_sort fst (timed_rows None (db_events db)))).

(** The event dict built from a row. *)
Definition row_to_event (r : datetime * option Z) : Event :=
  mkEvent r.1 (_normalize_inout_flag r.2).

(** [_fetch_events_for_card]. *)
Definition _fetch_events_for_card (card_no : string) (start end_ : datetime)
    (detector : option Detector) : M (list Event) :=
  do schema <~ _get_schema;
  if negb (is_some (event_card_col schema)) || negb (is_some (event_time_col schema)) then ret []
  else
    do resolved_detector <~ resolve_detector detector;
    if bool_decide (variant resolved_detector = UNSUPPORTED) then ret []
    else
      do_ get_cursor;
      do_ execute (QEventsForCard card_no start end_);
      do w <~ get_world;
      ret (row_to_event <$> select_events_for_card (database w) card_no start end_).

(** [_fetch_last_event_before]. *)
Definition _fetch_last_event_before (card_no : string) (boundary : datetime)
    (detector : option Detector) : M (option Event) :=
  do schema <~ _get_schema;
  if negb (is_some (event_card_col schema)) || negb (is_some (event_time_col schema)) then ret None
  else
    do resolved_detector <~ resolve_detector detector;
    if bool_decide (variant resolved_detector = UNSUPPORTED) then ret None
    else
      do_ get_cursor;
      do_ execute (QLastEventBefore card_no boundary);
      do w <~ get_world;
      ret (row_to_event <$> select_last_event_before (database w) card_no boundary).

(** [_fetch_recent_mapping_sample]. *)
Definition _fetch_recent_mapping_sample (limit : Z) (detector : option Detector)
    : M (list Event) :=
  do schema <~ _get_schema;
  if negb (is_some (event_time_col schema)) then ret []
  else
    do resolved_detector <~ resolve_detector detector;
    if bool_decide (variant resolved_detector = UNSUPPORTED) then ret []
    else
      do_ get_cursor;
      do_ execute (QRecentSample limit);
      do w <~ get_world;
      ret (row_to_event <$> select_recent_sample (database w) limit).

(** ** Polarity heuristic *)

Record SwapCounters := mkSwapCounters {
  in_total : Z;
  in_early : Z;
  out_total : Z;
  out_afternoon_evening : Z
}.

(** One iteration of the counting loop of [_should_auto_swap]. *)
Definition count_row (c : SwapCounters) (row : Event) : SwapCounters :=
  let hour := hour_of (event_time row) in
  match inout_flag row with
  | Some flag =>
      if flag =? 1 then
        mkSwapCounters (in_total c + 1)
          (if (0 <=? hour) && (hour <=? 6) then in_early c + 1 else in_early c)
          (out_total c) (out_afternoon_evening c)
      else if flag =? 0 then
        mkSwapCounters (in_total c) (in_early c) (out_total c + 1)
          (if (12 <=? hour) && (hour <=? 23) then out_afternoon_evening c + 1
           else out_afternoon_evening c)
      else c
  | None => c
  end.

(** [ratio > 0.60] for [ratio = num / den] with [den > 0]: on counts the
    float comparison holds exactly when [5 * num > 3 * den]. *)
Definition ratio_exceeds_060 (num den : Z) : bool := 3 * den <? 5 * num.

(** [_should_auto_swap]. *)
Definition _should_auto_swap (sample : list Event) : bool :=
  let valid := filter (λ row, Is_true (flag_is_binary (inout_flag row))) sample in
  if Z.of_nat (length valid) <? 50 then false
  else
    let c := foldl count_row (mkSwapCounters 0 0 0 0) valid in
    if (in_total c =? 0) || (out_total c =? 0) then false
    else ratio_exceeds_060 (in_early c) (in_total c)
         && ratio_exceeds_060 (out_afternoon_evening c) (out_total c).

Definition _MAPPING_CACHE_TTL_SECONDS : Z := 300.

(** The part of [_get_mapping_state] that follows a cache miss: sample,
    decide, store, return. *)
Definition sample_mapping_state (now : Z) (resolved_detector : Detector) : M MappingState :=
  let detector_variant := variant resolved_detector in
  do sample <~ _fetch_recent_mapping_sample 200 (Some resolved_detector);
  let auto_swapped := _should_auto_swap sample in
  let state := mkMappingState (if auto_swapped then swapped else normal)
                 auto_swapped detector_variant auto_swapped false in
  do_ set_mapping_cache
        (mkMappingCacheEntry now (mappingVariant state) (swapApplied state)
           detector_variant (autoDetected state));
  ret state.

(** [_get_mapping_state]. *)
Definition _get_mapping_state (detector : option Detector) : M MappingState :=
  do resolved_detector <~ resolve_detector detector;
  let detector_variant := variant resolved_detector in
  if bool_decide (detector_variant = UNSUPPORTED) then
    ret (mkMappingState unsupported false detector_variant false false)
  else
    do w <~ get_world;
    if inout_swap (settings w) then
      ret (mkMappingState swapped true detector_variant false true)
    else
      let now := clock w in
      match _MAPPING_CACHE w with
      | Some cached =>
          if now - cache_ts cached <? _MAPPING_CACHE_TTL_SECONDS then
            if bool_decide (cache_detectorVariant cached = detector_variant) then
              ret (mkMappingState (cache_mappingVariant cached) (cache_swapApplied cached)
                     detector_variant (cache_autoDetected cached) false)
            else sample_mapping_state now resolved_detector
          else sample_mapping_state now resolved_detector
      | None => sample_mapping_state now resolved_detector
      end.

(** ** Segment duration accumulator *)

Record Bucket := mkBucket {
  in_minutes : Z;
  out_minutes : Z
}.

(** The [while cursor < clipped_end] loop of [_accumulate_segment_minutes];
    every iteration moves [cursor] to the next midnight or to [clipped_end],
    and [fuel] bounds the iterations. *)
Fixpoint accumulate_chunks (fuel : nat) (day_totals : gmap date Bucket) (state : Z)
    (cursor clipped_end : datetime) : gmap date Bucket :=
  match fuel with
  | O => day_totals
  | S fuel' =>
      if cursor <? clipped_end then
        let next_day := midnight_of cursor + timedelta_days 1 in
        let chunk_end := Z.min clipped_end next_day in
        let minutes := whole_minutes cursor chunk_end in
        let day_totals' :=
          if 0 <? minutes then
            let day_key := date_of cursor in
            let bucket := default (mkBucket 0 0) (day_totals !! day_key) in
            let bucket' :=
              if state =? 1 then mkBucket (in_minutes bucket + minutes) (out_minutes bucket)
              else if state =? 0 then mkBucket (in_minutes bucket) (out_minutes bucket + minutes)
              else bucket in
            <[day_key := bucket']> day_totals
          else day_totals in
        accumulate_chunks fuel' day_totals' state chunk_end clipped_end
      else day_totals
  end.

(** The calendar days met by [[clipped_start, clipped_end)], which bounds the
    iterations of the loop. *)
Definition chunk_fuel (clipped_start clipped_end : datetime) : nat :=
  Z.to_nat (date_of clipped_end - date_of clipped_start + 1).

(** [_accumulate_segment_minutes]; the updated dict is returned. *)
Definition _accumulate_segment_minutes (day_totals : gmap date Bucket) (state : Z)
    (segment_start segment_end window_start window_end : datetime) : gmap date Bucket :=
  let clipped_start := Z.max segment_start window_start in
  let clipped_end := Z.min segment_end window_end in
  if clipped_end <=? clipped_start then day_totals
  else accumulate_chunks (chunk_fuel clipped_start clipped_end) day_totals state
         clipped_start clipped_end.

(** The [for event in timeline] loop of [_compute_period_segment_totals],
    threading [state], [segment_start] and [day_totals]. *)
Fixpoint timeline_walk (swap_applied : bool) (window_start window_end : datetime)
    (timeline : list Event) (state : option Z) (segment_start : option datetime)
    (day_totals : gmap date Bucket) : option Z * option datetime * gmap date Bucket :=
  match timeline with
  | [] => (state, segment_start, day_totals)
  | event :: rest =>
      let event_time := event_time event in
      match _event_state event swap_applied with
      | None =>
          timeline_walk swap_applied window_start window_end rest state segment_start day_totals
      | Some next_state =>
          match state with
          | None =>
              timeline_walk swap_applied window_start window_end rest
                (Some next_state) (Some event_time) day_totals
          | Some current =>
              if next_state =? current then
                timeline_walk swap_applied window_start window_end rest
                  state segment_start day_totals
              else
                let day_totals' :=
                  match segment_start with
                  | Some seg =>
                      _accumulate_segment_minutes day_totals current seg event_time
                        window_start window_end
                  | None => day_totals
                  end in
                timeline_walk swap_applied window_start window_end rest
                  (Some next_state) (Some event_time) day_totals'
          end
      end
  end.

Record PeriodTotals := mkPeriodTotals {
  totalInMinutes : Z;
  totalOutMinutes : Z;
  totalInHHMM : option (Z * Z);
  totalOutHHMM : option (Z * Z);
  per_day : gmap date Bucket
}.

Definition zero_totals : PeriodTotals :=
  mkPeriodTotals 0 0 (_minutes_to_hhmm (Some 0)) (_minutes_to_hhmm (Some 0)) ∅.

(** [sum(bucket["in_minutes"] for bucket in day_totals.values())]. *)
Definition sum_in_minutes (day_totals : gmap date Bucket) : Z :=
  map_fold (λ _ bucket acc, acc + in_minutes bucket) 0 day_totals.

Definition sum_out_minutes (day_totals : gmap date Bucket) : Z :=
  map_fold (λ _ bucket acc, acc + out_minutes bucket) 0 day_totals.

(** The result dict built from the walked [day_totals]. *)
Definition totals_of_day_totals (day_totals : gmap date Bucket) : PeriodTotals :=
  let total_in_minutes := sum_in_minutes day_totals in
  let total_out_minutes := sum_out_minutes day_totals in
  mkPeriodTotals total_in_minutes total_out_minutes
    (_minutes_to_hhmm (Some total_in_minutes)) (_minutes_to_hhmm (Some total_out_minutes))
    day_totals.

(** [_compute_period_segment_totals]. *)
Definition _compute_period_segment_totals (card_no : string) (start end_ : datetime)
    (swap_applied : bool) (detector : option Detector) : M PeriodTotals :=
  if end_ <=? start then ret zero_totals
  else
    do resolved_detector <~ resolve_detector detector;
    if bool_decide (variant resolved_detector = UNSUPPORTED) then ret zero_totals
    else
      do timeline <~ _fetch_events_for_card card_no start end_ (Some resolved_detector);
      do anchor <~ _fetch_last_event_before card_no start (Some resolved_detector);
      let timeline :=
        match anchor with
        | Some a => a :: timeline
        | None => timeline
        end in
      if bool_decide (timeline = []) then ret zero_totals
      else
        let timeline := stable_sort event_time timeline in
        let '(_, _, day_totals) := timeline_walk swap_applied start end_ timeline None None ∅ in
        ret (totals_of_day_totals day_totals).

(** ** Day records over a period *)

Record DayRecord := mkDayRecord {
  rec_date : date;
  rec_first_in : option datetime;
  rec_last_out : option datetime;
  rec_duration_minutes : option Z;
  rec_duration_hhmm : option (Z * Z);
  rec_missing_punch : bool
}.

(** [_format_dt]: the text ["%Y-%m-%d %H:%M:%S"] keeps the timestamp down
    to the second, and is represented by that truncated timestamp. *)
Definition _format_dt (value : option datetime) : option datetime :=
  (λ t, t / us_per_second * us_per_second) <$> value.

(** [_serialize_day_record]. *)
Definition _serialize_day_record (record : DayAttendance) : DayRecord :=
  {| rec_date := da_date record;
     rec_first_in := _format_dt (first_in_dt record);
     rec_last_out := _format_dt (last_out_dt record);
     rec_duration_minutes := duration_minutes record;
     rec_duration_hhmm := duration_hhmm record;
     rec_missing_punch := missing_punch record |}.

(** [while idx < total_events and events[idx]["event_time"] < bound: idx += 1]. *)
Fixpoint count_before (bound : datetime) (events : list Event) : nat :=
  match events with
  | event :: rest => if event_time event <? bound then S (count_before bound rest) else O
  | [] => O
  end.

Definition advance_index (events : list Event) (idx : nat) (bound : datetime) : nat :=
  (idx + count_before bound (drop idx events))%nat.

(** [events[start_idx:end_idx]]. *)
Definition slice (events : list Event) (start_idx end_idx : nat) : list Event :=
  take (end_idx - start_idx) (drop start_idx events).

(** The [while day_cursor < end] loop of [_build_daily_records_for_period];
    [fuel] bounds the number of days. *)
Fixpoint daily_records_loop (fuel : nat) (cfg : Settings) (events : list Event)
    (end_ : datetime) (swap_applied : bool) (day_cursor : datetime)
    (start_idx end_idx : nat) (records : list DayRecord) : list DayRecord :=
  match fuel with
  | O => records
  | S fuel' =>
      if day_cursor <? end_ then
        let day_end := day_cursor + timedelta_days 1 in
        let overnight_end := day_end + timedelta_hours (shift_out_cutoff_hours cfg) in
        let start_idx := advance_index events start_idx day_cursor in
        let end_idx := if (end_idx <? start_idx)%nat then start_idx else end_idx in
        let end_idx := advance_index events end_idx overnight_end in
        let day_events := slice events start_idx end_idx in
        let day_record := _compute_day_attendance cfg day_cursor day_events swap_applied in
        let records :=
          if has_relevant_events day_record
          then records ++ [_serialize_day_record day_record]
          else records in
        daily_records_loop fuel' cfg events end_ swap_applied day_end start_idx end_idx records
      else records
  end.

(** The days of [[start, end)], which is how often the loop runs. *)
Definition days_fuel (start end_ : datetime) : nat :=
  Z.to_nat ((end_ - start + us_per_day - 1) / us_per_day).

(** [_build_daily_records_for_period]. *)
Definition _build_daily_records_for_period (card_no : string) (start end_ : datetime)
    (swap_applied : bool) (detector : option Detector) : M (list DayRecord) :=
  do w <~ get_world;
  let cfg := settings w in
  let extended_end := end_ + (timedelta_days 1 + timedelta_hours (shift_out_cutoff_hours cfg)) in
  do events <~ _fetch_events_for_card card_no start extended_end detector;
  ret (daily_records_loop (days_fuel start end_) cfg events end_ swap_applied start 0 0 []).

(** [_build_single_day_record]. *)
Definition _build_single_day_record (card_no : string) (selected_date : date)
    (swap_applied : bool) (detector : option Detector) : M DayRecord :=
  do w <~ get_world;
  let cfg := settings w in
  let day_start := datetime_combine_min selected_date in
  let day_end := day_start + timedelta_days 1 in
  let overnight_end := day_end + timedelta_hours (shift_out_cutoff_hours cfg) in
  do events <~ _fetch_events_for_card card_no day_start overnight_end detector;
  ret (_serialize_day_record (_compute_day_attendance cfg day_start events swap_applied)).

(** ** Input parsing *)

(** [_parse_date]. *)
Definition _parse_date (date_value : string) : M date :=
  match strptime_date date_value with
  | Some d => ret d
  | None => raise (HTTP400 "date must be in YYYY-MM-DD format")
  end.

(** [datetime(year, month, 1)] where the source calls the constructor
    outside any [try]: its [ValueError] propagates. *)
Definition first_of_month (year month : Z) : M datetime :=
  match mk_datetime year month 1 with
  | Some t => ret t
  | None => raise ValueError
  end.

(** [_month_bounds]: start, end and the normalized ["%Y-%m"] (year, month). *)
Definition _month_bounds (month_value : string) : M (datetime * datetime * (Z * Z)) :=
  match strptime_month month_value with
  | Some (year, month) =>
      do start <~ first_of_month year month;
      do end_ <~ (if month =? 12 then first_of_month (year + 1) 1
                  else first_of_month year (month + 1));
      ret (start, end_, (year, month))
  | None => raise (HTTP400 "month must be in YYYY-MM format")
  end.

(** [_year_bounds]. *)
Definition _year_bounds (year_value : string) : M (datetime * datetime * Z) :=
  match py_int year_value with
  | Some year_int =>
      if (year_int <? 1900) || (2100 <? year_int) then
        raise (HTTP400 "year is out of accepted range")
      else
        do start <~ first_of_month year_int 1;
        do end_ <~ first_of_month (year_int + 1) 1;
        ret (start, end_, year_int)
  | None => raise (HTTP400 "year must be numeric YYYY")
  end.

(** ** Employees *)

Record Employee := mkEmployee {
  emp_id : Z + string;
  card_no_of : string;
  employee_name : string
}.

Record Identity := mkIdentity {
  id_emp_id : Z + string;
  id_card_no : string;
  id_employee_name : string;
  id_department : option string
}.

(** [_normalize_emp_id]. *)
Definition _normalize_emp_id (value : SqlValue) (fallback_card_no : string) : Z + string :=
  match value with
  | SqlNull => inr fallback_card_no
  | SqlInt n => inl n
  | SqlText text =>
      let raw := strip text in
      if bool_decide (raw = EmptyString) then inr fallback_card_no
      else match py_int raw with
           | Some n => inl n
           | None => inr raw
           end
  end.

(** [_active_employee_where]: the columns that the condition names. *)
Definition _active_employee_where (schema : Schema) : list string :=
  let emp_enable_col := str_or (employee_emp_enable_col schema) "EmpEnable" in
  let deleted_col := str_or (employee_deleted_col schema) "Deleted" in
  let leave_col := str_or (employee_leave_col schema) "Leave" in
  let visitor_col := str_or (employee_is_visitor_col schema) "isVisitor" in
  let card_col := str_or (employee_card_col schema) "CardNo" in
  [emp_enable_col; deleted_col; leave_col; visitor_col; card_col].

(** The column that an optional expression names: none when the role is not
    resolved and the expression is the literal ['']. *)
Definition column_of_expr (col : option string) : list string :=
  match col with
  | Some column => if bool_decide (column = EmptyString) then [] else [column]
  | None => []
  end.

(** [_employee_name_expr_for_alias]. *)
Definition _employee_name_expr_for_alias (schema : Schema) : list string :=
  column_of_expr (employee_name_col schema).

(** [_employee_department_expr_for_alias]. *)
Definition _employee_department_expr_for_alias (schema : Schema) : list string :=
  column_of_expr (employee_department_col schema).

(** The SELECT of [_fetch_employee_identity]. *)
Definition employee_identity_sql (schema : Schema) (card_no : string) : Query :=
  let employee_emp_id_col := str_or (employee_emp_id_col schema) "EmpID" in
  let employee_card_col := str_or (employee_card_col schema) "CardNo" in
  let active_where := _active_employee_where schema in
  let employee_name_expr := _employee_name_expr_for_alias schema in
  let department_expr := _employee_department_expr_for_alias schema in
  QEmployeeIdentity
    ([employee_emp_id_col; employee_card_col] ++ employee_name_expr ++ department_expr
     ++ active_where)
    card_no.

(** The SELECT of [fetch_employees]. *)
Definition employee_list_sql (schema : Schema) (search : string) : Query :=
  let employee_emp_id_col := str_or (employee_emp_id_col schema) "EmpID" in
  let employee_card_col := str_or (employee_card_col schema) "CardNo" in
  let active_where := _active_employee_where schema in
  let employee_name_expr := _employee_name_expr_for_alias schema in
  QEmployeeList ([employee_emp_id_col; employee_card_col] ++ employee_name_expr ++ active_where)
    search.

(** [_fetch_employee_identity]. *)
Definition _fetch_employee_identity (card_no : string) : M Identity :=
  do schema <~ _get_schema;
  do_ get_cursor;
  do_ execute (employee_identity_sql schema card_no);
  do w <~ get_world;
  let row := head (db_employee_by_card (database w) card_no) in
  let normalized_card_no := str_or (_clean_text (row ≫= row_CardNo)) card_no in
  let employee_name := _employee_name_or_card (row ≫= row_EmployeeName) normalized_card_no in
  let emp_id := _normalize_emp_id (default SqlNull (row_EmpID <$> row)) normalized_card_no in
  let department := _clean_text (row ≫= row_Department) in
  ret {| id_emp_id := emp_id;
         id_card_no := normalized_card_no;
         id_employee_name := employee_name;
         id_department :=
           if bool_decide (department = EmptyString) then None else Some department |}.

(** The [for row in rows] loop of [fetch_employees]. *)
Fixpoint employees_of_rows (rows : list EmployeeRow) : list Employee :=
  match rows with
  | [] => []
  | row :: rest =>
      let card_no := _clean_text (row_CardNo row) in
      if bool_decide (card_no = EmptyString) then employees_of_rows rest
      else
        let employee_name := _employee_name_or_card (row_EmployeeName row) card_no in
        let emp_id := _normalize_emp_id (row_EmpID row) card_no in
        mkEmployee emp_id card_no employee_name :: employees_of_rows rest
  end.

(** [fetch_employees]; its query is a SELECT TOP 200. *)
Definition fetch_employees (search : string) : M (list Employee) :=
  do schema <~ _get_schema;
  do_ get_cursor;
  do_ execute (employee_list_sql schema search);
  do w <~ get_world;
  let rows := take 200 (db_employee_list (database w) search) in
  ret (employees_of_rows rows).

(** ** Reports *)

Record DailyReport := mkDailyReport {
  daily_identity : Identity;
  daily_record : DayRecord;
  daily_totals : PeriodTotals;
  daily_total_work_minutes : option Z;
  daily_mappingVariant : MappingVariant;
  daily_swapApplied : bool
}.

Record MonthlyReport := mkMonthlyReport {
  monthly_identity : Identity;
  monthly_month : Z * Z;
  monthly_records : list DayRecord;
  monthly_total_days : Z;
  monthly_missing_punch_days : Z;
  monthly_total_minutes : Z;
  monthly_totals : PeriodTotals;
  monthly_mappingVariant : MappingVariant;
  monthly_swapApplied : bool
}.

Record MonthAggregate := mkMonthAggregate {
  worked_days : Z;
  duration_days : Z;
  agg_missing_punch_days : Z;
  agg_total_minutes : Z
}.

Record MonthSummary := mkMonthSummary {
  summary_month : Z * Z;
  summary_worked_days : Z;
  summary_missing_punch_days : Z;
  summary_total_minutes : Z;
  summary_average_minutes_per_day : option Z
}.

Record YearlyReport := mkYearlyReport {
  yearly_identity : Identity;
  yearly_year : Z;
  yearly_months : list MonthSummary;
  yearly_total_worked_days : Z;
  yearly_missing_punch_days : Z;
  yearly_total_minutes : Z;
  yearly_totals : PeriodTotals;
  yearly_mappingVariant : MappingVariant;
  yearly_swapApplied : bool
}.

(** [fetch_daily_report]. *)
Definition fetch_daily_report (card_no date_value : string) : M DailyReport :=
  do selected_date <~ _parse_date date_value;
  do detector <~ _detect_event_variant;
  do mapping <~ _get_mapping_state (Some detector);
  do identity <~ _fetch_employee_identity card_no;
  do day_record <~ _build_single_day_record card_no selected_date
                     (swapApplied mapping) (Some detector);
  let day_start := datetime_combine_min selected_date in
  let day_end := day_start + timedelta_days 1 in
  do period_totals <~ _compute_period_segment_totals card_no day_start day_end
                        (swapApplied mapping) (Some detector);
  ret {| daily_identity := identity;
         daily_record := day_record;
         daily_totals := period_totals;
         daily_total_work_minutes := rec_duration_minutes day_record;
         daily_mappingVariant := mappingVariant mapping;
         daily_swapApplied := swapApplied mapping |}.

Definition count_where {A} (p : A → bool) (l : list A) : Z :=
  foldl (λ acc x, if p x then acc + 1 else acc) 0 l.

Definition sum_of {A} (f : A → Z) (l : list A) : Z :=
  foldl (λ acc x, acc + f x) 0 l.

(** [fetch_monthly_report]. *)
Definition fetch_monthly_report (card_no month_value : string) : M MonthlyReport :=
  do bounds <~ _month_bounds month_value;
  let '(start, end_, normalized_month) := bounds in
  do detector <~ _detect_event_variant;
  do mapping <~ _get_mapping_state (Some detector);
  do identity <~ _fetch_employee_identity card_no;
  do records <~ _build_daily_records_for_period card_no start end_
                  (swapApplied mapping) (Some detector);
  do period_totals <~ _compute_period_segment_totals card_no start end_
                        (swapApplied mapping) (Some detector);
  let total_minutes := sum_of (λ item, default 0 (rec_duration_minutes item)) records in
  let total_days := count_where (λ item, is_some (rec_first_in item)) records in
  let missing_punch_days := count_where rec_missing_punch records in
  ret {| monthly_identity := identity;
         monthly_month := normalized_month;
         monthly_records := records;
         monthly_total_days := total_days;
         monthly_missing_punch_days := missing_punch_days;
         monthly_total_minutes := total_minutes;
         monthly_totals := period_totals;
         monthly_mappingVariant := mappingVariant mapping;
         monthly_swapApplied := swapApplied mapping |}.

(** One iteration of the [for record in daily_records] loop of
    [fetch_yearly_report] on the [month_map] defaultdict. *)
Definition add_to_month_map (month_map : gmap (Z * Z) MonthAggregate) (record : DayRecord)
    : gmap (Z * Z) MonthAggregate :=
  let key := month_key (rec_date record) in
  let fresh := mkMonthAggregate 0 0 0 0 in
  let month_map :=
    if is_some (rec_first_in record) then
      let a := default fresh (month_map !! key) in
      <[key := mkMonthAggregate (worked_days a + 1) (duration_days a)
                 (agg_missing_punch_days a) (agg_total_minutes a)]> month_map
    else month_map in
  let month_map :=
    if rec_missing_punch record then
      let a := default fresh (month_map !! key) in
      <[key := mkMonthAggregate (worked_days a) (duration_days a)
                 (agg_missing_punch_days a + 1) (agg_total_minutes a)]> month_map
    else month_map in
  match rec_duration_minutes record with
  | None => month_map
  | Some duration =>
      let a := default fresh (month_map !! key) in
      <[key := mkMonthAggregate (worked_days a) (duration_days a + 1)
                 (agg_missing_punch_days a) (agg_total_minutes a + duration)]> month_map
  end.

(** The entry of [months] for one key of [month_map]. *)
Definition month_summary (entry : (Z * Z) * MonthAggregate) : MonthSummary :=
  let '(key, a) := entry in
  {| summary_month := key;
     summary_worked_days := worked_days a;
     summary_missing_punch_days := agg_missing_punch_days a;
     summary_total_minutes := agg_total_minutes a;
     summary_average_minutes_per_day :=
       if duration_days a =? 0 then None
       else Some (Z.quot (agg_total_minutes a) (duration_days a)) |}.

(** [fetch_yearly_report]. *)
Definition fetch_yearly_report (card_no year_value : string) : M YearlyReport :=
  do bounds <~ _year_bounds year_value;
  let '(start, end_, normalized_year) := bounds in
  do detector <~ _detect_event_variant;
  do mapping <~ _get_mapping_state (Some detector);
  do identity <~ _fetch_employee_identity card_no;
  do daily_records <~ _build_daily_records_for_period card_no start end_
                        (swapApplied mapping) (Some detector);
  do period_totals <~ _compute_period_segment_totals card_no start end_
                        (swapApplied mapping) (Some detector);
  let month_map := foldl add_to_month_map ∅ daily_records in
  let entries := stable_sort (λ entry, entry.1.1 * 12 + entry.1.2) (map_to_list month_map) in
  let months := month_summary <$> entries in
  ret {| yearly_identity := identity;
         yearly_year := normalized_year;
         yearly_months := months;
         yearly_total_worked_days := sum_of summary_worked_days months;
         yearly_missing_punch_days := sum_of summary_missing_punch_days months;
         yearly_total_minutes := sum_of summary_total_minutes months;
         yearly_totals := period_totals;
         yearly_mappingVariant := mappingVariant mapping;
         yearly_swapApplied := swapApplied mapping |}.

(** Running a computation: its result and the world it leaves. *)
Definition run {A} (m : M A) (w : World) : Result A * World := m w.

(** ** Request rate limiter (backend/app/rate_limit.py)

    [time.time()] is read in whole microseconds, like the timestamps of the
    engine; a deque is the list of its entries, oldest first. *)

Module rate_limit.

Record SlidingWindowLimiter := mkSlidingWindowLimiter {
  window_seconds : Z;
  max_requests : Z
}.

(** [while entries and entries[0] < cutoff: entries.popleft()]. *)
Fixpoint popleft_before (cutoff : Z) (entries : list Z) : list Z :=
  match entries with
  | oldest :: rest => if oldest <? cutoff then popleft_before cutoff rest else entries
  | [] => []
  end.

(** [SlidingWindowLimiter.allow] at the clock reading [now]: the pair
    [(allowed, retry_after)] and the [self._hits] it leaves (a
    [defaultdict(deque)]).  [None] is the [IndexError] of [entries[0]] on an
    empty deque. *)
Definition allow (self : SlidingWindowLimiter) (hits : gmap string (list Z)) (now : Z) (key : string)
    : option (bool * Z) * gmap string (list Z) :=
  let cutoff := now - window_seconds self * us_per_second in
  let entries := popleft_before cutoff (default [] (hits !! key)) in
  if max_requests self <=? Z.of_nat (length entries) then
    match entries with
    | oldest :: _ =>
        let retry_after :=
          Z.quot (window_seconds self * us_per_second - (now - oldest)) us_per_second + 1 in
        (Some (false, Z.max retry_after 1), <[key := entries]> hits)
    | [] => (None, <[key := entries]> hits)
    end
  else (Some (true, 0), <[key := entries ++ [now]]> hits).

End rate_limit.

(** ** Settings from the environment (backend/app/config.py)

    [os.getenv] is a function from variable names to values, [None] for an
    unset variable. *)

Module config.

(** [_to_int]. *)
Definition _to_int (value : option string) (default : Z) : Z :=
  match value with
  | Some text =>
      match py_int text with
      | Some n => n
      | None => default
      end
  | None => default
  end.

(** [_to_bool]. *)
Definition _to_bool (value : option string) (default : bool) : bool :=
  match value with
  | Some text =>
      bool_decide (string_lower (strip text) ∈ ["1"; "true"; "yes"; "on"]%string)
  | None => default
  end.

(** [get_settings], for the fields that the report engine reads. *)
Definition get_settings (getenv : string → option string) : Settings :=
  {| shift_out_cutoff_hours :=
       Z.max 0 (Z.min (_to_int (getenv "SHIFT_OUT_CUTOFF_HOURS"%string) 12) 23);
     inout_swap := _to_bool (getenv "INOUT_SWAP"%string) false |}.

End config.

(** ** Names of the exported files (backend/app/main.py) *)

Module main.

(** The characters that [re.sub(r"[^A-Za-z0-9\-_]", "", text)] keeps. *)
Definition is_filename_char (c : ascii) : bool :=
  let n := ascii_code c in
  ((65 <=? n) && (n <=? 90)) || ((97 <=? n) && (n <=? 122)) || ((48 <=? n) && (n <=? 57))
  || (n =? 45) || (n =? 95).

(** [text.replace(" ", "-")]. *)
Definition replace_spaces (cs : list ascii) : list ascii :=
  (λ c, if bool_decide (c = " "%char) then "-"%char else c) <$> cs.

(** [re.sub(r"-{2,}", "-", text)]: a run of dashes becomes one dash. *)
Fixpoint collapse_dashes (cs : list ascii) : list ascii :=
  match cs with
  | [] => []
  | c :: rest =>
      match rest with
      | d :: _ =>
          if bool_decide (c = "-"%char) && bool_decide (d = "-"%char)
          then collapse_dashes rest
          else c :: collapse_dashes rest
      | [] => [c]
      end
  end.

(** [text.strip("-_")]. *)
Fixpoint lstrip_dashes (cs : list ascii) : list ascii :=
  match cs with
  | c :: rest =>
      if bool_decide (c = "-"%char) || bool_decide (c = "_"%char)
      then lstrip_dashes rest else cs
  | [] => []
  end.

Definition strip_dashes (cs : list ascii) : list ascii :=
  reverse (lstrip_dashes (reverse (lstrip_dashes cs))).

(** [_sanitize_filename_part]. *)
Definition _sanitize_filename_part (value : option string) : string :=
  match value with
  | None => "Unknown"%string
  | Some v =>
      let text := replace_spaces (strip_chars (list_ascii_of_string v)) in
      let text := filter (λ c, Is_true (is_filename_char c)) text in
      let text := collapse_dashes text in
      let text := strip_dashes text in
      let text :=
        if bool_decide (text = []) then list_ascii_of_string "Unknown"%string else text in
      string_of_list_ascii (take 40 text)
  end.

(** [_build_pdf_filename]. *)
Definition _build_pdf_filename (prefix employee_name card_no period : string) : string :=
  let safe_name := _sanitize_filename_part (Some employee_name) in
  let safe_card := _sanitize_filename_part (Some card_no) in
  let safe_period := _sanitize_filename_part (Some period) in
  (prefix ++ "_" ++ safe_name ++ "_" ++ safe_card ++ "_" ++ safe_period ++ ".pdf")%string.

End main.

(** * Notions used to state the properties *)

(** ** Results and worlds *)

Definition value_of {A} (r : Result A) : option A :=
  match r with
  | Ok a => Some a
  | Raise _ => None
  end.

Definition is_http400 {A} (r : Result A) : bool :=
  match r with
  | Raise (HTTP400 _) => true
  | _ => false
  end.

(** The schema that [_resolve_schema] reads off a store, and the schema that
    [_get_schema] hands out in a world: the cached one if there is one. *)
Definition resolved_schema (db : Database) : Schema :=
  let columns table_name :=
    filter (λ column, column ≠ EmptyString) (db_columns db table_name) in
  schema_from_columns (columns "TEmployee"%string) (columns "TEvent"%string)
    (columns "TEventType"%string).

Definition schema_of (w : World) : Schema :=
  default (resolved_schema (database w)) (_SCHEMA_CACHE w).

(** The store has every column that the employee queries name under the
    schema in use: no required role stands for a column that was not found
    and was replaced by its literal name. *)
Definition list_query_accepted (w : World) (search : string) : bool :=
  accepts (database w) (employee_list_sql (schema_of w) search).

Definition identity_query_accepted (w : World) (card_no : string) : bool :=
  accepts (database w) (employee_identity_sql (schema_of w) card_no).



(** The event queries are issued: both event columns resolved and the
    detector supported. *)
Definition events_visible (w : World) (detector : Detector) : bool :=
  is_some (event_card_col (schema_of w)) && is_some (event_time_col (schema_of w))
  && negb (bool_decide (variant detector = UNSUPPORTED)).

(** The rows the event queries of a card range over; none when the queries
    are not issued. *)
Definition visible_rows (w : World) (card_no : string) (detector : Detector)
    : list (datetime * option Z) :=
  if events_visible w detector then timed_rows (Some card_no) (db_events (database w)) else [].

(** The sample that [_get_mapping_state] draws in a world: the 200 most
    recent events, none when the event time column is not resolved. *)
Definition recent_sample (w : World) : list Event :=
  if is_some (event_time_col (schema_of w))
  then row_to_event <$> select_recent_sample (database w) 200
  else [].

(** The cached mapping state is fresh and was computed under the detector. *)
Definition mapping_cache_hit (w : World) (detector : Detector) : bool :=
  match _MAPPING_CACHE w with
  | Some cached =>
      (clock w - cache_ts cached <? _MAPPING_CACHE_TTL_SECONDS)
      && bool_decide (cache_detectorVariant cached = variant detector)
  | None => false
  end.

(** The mapping state decided from a sample. *)
Definition state_of_sample (detector : Detector) (sample : list Event) : MappingState :=
  let auto_swapped := _should_auto_swap sample in
  mkMappingState (if auto_swapped then swapped else normal) auto_swapped (variant detector)
    auto_swapped false.

(** A call leaves the store, the settings, the clock and the schema in use
    as they were. *)
Definition evolves (w w' : World) : Prop :=
  database w' = database w ∧ settings w' = settings w ∧ clock w' = clock w
  ∧ schema_of w' = schema_of w.

(** [_compute_period_segment_totals] as a function of the rows it reads. *)
Definition period_totals_of_rows (rows : list (datetime * option Z)) (start end_ : datetime)
    (swap_applied : bool) : PeriodTotals :=
  if end_ <=? start then zero_totals
  else
    let timeline := row_to_event <$> window_rows start end_ rows in
    let timeline :=
      match row_to_event <$> last_row_before start rows with
      | Some a => a :: timeline
      | None => timeline
      end in
    if bool_decide (timeline = []) then zero_totals
    else totals_of_day_totals
           (timeline_walk swap_applied start end_ (stable_sort event_time timeline)
              None None ∅).2.

(** The rows of the timeline: the anchor, if any, then the window. *)
Definition timeline_rows (rows : list (datetime * option Z)) (start end_ : datetime)
    : list (datetime * option Z) :=
  option_list (last_row_before start rows) ++ window_rows start end_ rows.

(** The outcome of [_compute_period_segment_totals] over a range, in a
    world. *)
Definition period_run (w : World) (card_no : string) (swap_applied : bool) (detector : Detector)
    (range : datetime * datetime) : Result PeriodTotals :=
  (run (_compute_period_segment_totals card_no range.1 range.2 swap_applied (Some detector)) w).1.

(** The outcome of [_build_daily_records_for_period] without polarity swap. *)
Definition records_run (w : World) (card_no : string) (detector : Detector)
    (start end_ : datetime) : Result (list DayRecord) :=
  (run (_build_daily_records_for_period card_no start end_ false (Some detector)) w).1.

(** ** Order *)

Definition ascending {A} (key : A → Z) (l : list A) : Prop :=
  StronglySorted (λ x y, key x ≤ key y) l.

(** ** Minutes per day and side

    A side is [true] for IN minutes and [false] for OUT minutes. *)

Definition side_minutes (side : bool) (bucket : Bucket) : Z :=
  if side then in_minutes bucket else out_minutes bucket.

(** [day_totals.get(d, {0, 0})[side]]. *)
Definition minutes_on (side : bool) (d : date) (day_totals : gmap date Bucket) : Z :=
  side_minutes side (default (mkBucket 0 0) (day_totals !! d)).

(** The side to which a segment of a given state is credited. *)
Definition credited (side : bool) (state : Z) : bool :=
  if side then state =? 1 else state =? 0.

(** The whole minutes of [[c, e)] that fall on day [d]. *)
Definition chunk_minutes (c e : datetime) (d : date) : Z :=
  Z.max 0 (whole_minutes (Z.max c (d * us_per_day)) (Z.min e ((d + 1) * us_per_day))).

Definition sum_minutes (side : bool) (day_totals : gmap date Bucket) : Z :=
  map_fold (λ _ bucket acc, acc + side_minutes side bucket) 0 day_totals.

Definition nonneg_totals (day_totals : gmap date Bucket) : Prop :=
  ∀ side d, 0 ≤ minutes_on side d day_totals.

Definition add_buckets (b1 b2 : Bucket) : Bucket :=
  mkBucket (in_minutes b1 + in_minutes b2) (out_minutes b1 + out_minutes b2).

(** The day-wise sum of two per-day dicts. *)
Definition merge_day_totals (m1 m2 : gmap date Bucket) : gmap date Bucket :=
  union_with (λ b1 b2, Some (add_buckets b1 b2)) m1 m2.

Definition total_minutes (side : bool) (totals : PeriodTotals) : Z :=
  if side then totalInMinutes totals else totalOutMinutes totals.

(** ** The state of the walk *)

(** The walk's state is either unset, or set together with a segment start
    that is not after [bound]. *)
Definition seeded (bound : datetime) (st : option Z) (seg : option datetime) : Prop :=
  (st = None ∧ seg = None) ∨ (∃ cur x, st = Some cur ∧ seg = Some x ∧ x ≤ bound).

(** How the walk over a sub-range that starts at [m] (state [st2], [seg2])
    relates to the walk over a window that starts at [s] once the latter has
    passed [m] (state [st1], [seg1]). *)
Definition follows (s m : datetime) (st1 : option Z) (seg1 : option datetime)
    (st2 : option Z) (seg2 : option datetime) : Prop :=
  (st2 = None ∧ seg2 = None ∧ seeded m st1 seg1)
  ∨ (∃ cur x1 x2, st1 = Some cur ∧ seg1 = Some x1 ∧ st2 = Some cur ∧ seg2 = Some x2
                  ∧ Z.max x1 s ≤ Z.max x2 m).

(** ** Partitions of a window *)

(** The contiguous sub-ranges cut out of [[start, end)] by the points
    [cuts], and the condition that the points are in order. *)
Fixpoint sub_ranges (start : datetime) (cuts : list datetime) (end_ : datetime)
    : list (datetime * datetime) :=
  match cuts with
  | [] => [(start, end_)]
  | m :: rest => (start, m) :: sub_ranges m rest end_
  end.

Fixpoint in_order (start : datetime) (cuts : list datetime) (end_ : datetime) : bool :=
  match cuts with
  | [] => start <=? end_
  | m :: rest => (start <=? m) && in_order m rest end_
  end.

Definition sum_list (xs : list Z) : Z := foldr Z.add 0 xs.

(** ** Anchors *)

(** The anchor as the specification words it: the most recent row strictly
    before the boundary among those whose flag is resolvable. *)
Definition last_resolvable_row_before (boundary : datetime) (rows : list (datetime * option Z))
    : option (datetime * option Z) :=
  last (stable_sort fst
          (filter (λ r, r.1 < boundary ∧ Is_true (flag_is_binary (_normalize_inout_flag r.2)))
                  rows)).

(** The state and the segment start with which an anchor seeds the walk. *)
Definition seed_state (anchor : option Event) (swap_applied : bool) : option Z :=
  anchor ≫= λ a, _event_state a swap_applied.

Definition seed_start (anchor : option Event) (swap_applied : bool) : option datetime :=
  anchor ≫= λ a, if is_some (_event_state a swap_applied) then Some (event_time a) else None.

(** The totals of a walk over [window] started from the seed of [anchor]. *)
Definition totals_seeded_by (anchor : option Event) (window : list Event)
    (start end_ : datetime) (swap_applied : bool) : PeriodTotals :=
  totals_of_day_totals
    (timeline_walk swap_applied start end_ window
       (seed_state anchor swap_applied) (seed_start anchor swap_applied) ∅).2.

(** ** The polarity heuristic as the specification words it *)

Definition count_events (p : Event → bool) (sample : list Event) : Z :=
  Z.of_nat (length (filter (λ e, Is_true (p e)) sample)).

Definition is_resolvable (e : Event) : bool := flag_is_binary (inout_flag e).

Definition flagged (f : Z) (e : Event) : bool := bool_decide (inout_flag e = Some f).

Definition hour_within (lo hi : Z) (e : Event) : bool :=
  (lo <=? hour_of (event_time e)) && (hour_of (event_time e) <=? hi).

(** At least 50 resolvable events, more than 60% of the IN events in hours
    0..6 and more than 60% of the OUT events in hours 12..23. *)
Definition heuristic_spec (sample : list Event) : bool :=
  (50 <=? count_events is_resolvable sample)
  && ratio_exceeds_060 (count_events (λ e, flagged 1 e && hour_within 0 6 e) sample)
                        (count_events (flagged 1) sample)
  && ratio_exceeds_060 (count_events (λ e, flagged 0 e && hour_within 12 23 e) sample)
                        (count_events (flagged 0) sample).

(** An event with its IN/OUT flag reversed. *)
Definition reverse_flag (e : Event) : Event :=
  mkEvent (event_time e)
    (match inout_flag e with
     | Some f => if f =? 1 then Some 0 else if f =? 0 then Some 1 else Some f
     | None => None
     end).

(** A sample of 200 events, at least 50 of them resolvable, with IN and OUT
    events present, at least 70% of the IN events at hour 3 and at least 70%
    of the OUT events at hour 18. *)
Definition seventy_percent_pattern (sample : list Event) : bool :=
  (Z.of_nat (length sample) =? 200)
  && (50 <=? count_events is_resolvable sample)
  && (0 <? count_events (flagged 1) sample)
  && (0 <? count_events (flagged 0) sample)
  && (7 * count_events (flagged 1) sample
      <=? 10 * count_events (λ e, flagged 1 e && hour_within 3 3 e) sample)
  && (7 * count_events (flagged 0) sample
      <=? 10 * count_events (λ e, flagged 0 e && hour_within 18 18 e) sample).

Definition synthetic_sample : list Event :=
  replicate 70 (mkEvent (at_time 2024 3 4 3 15) (Some 1))
  ++ replicate 30 (mkEvent (at_time 2024 3 4 10 0) (Some 1))
  ++ replicate 70 (mkEvent (at_time 2024 3 4 18 30) (Some 0))
  ++ replicate 30 (mkEvent (at_time 2024 3 4 10 0) (Some 0)).

(** ** Employees and inputs *)

Definition cleaned_card (row : EmployeeRow) : string := _clean_text (row_CardNo row).

Definition cleaned_name (row : EmployeeRow) : string := _clean_text (row_EmployeeName row).

(** A year string that is not numeric or lies outside 1900..2100. *)
Definition year_rejected (year_value : string) : bool :=
  match py_int year_value with
  | Some year => (year <? 1900) || (2100 <? year)
  | None => true
  end.

(** ** Sample worlds *)

Definition event_columns_of (table_name : string) : list string :=
  if bool_decide (table_name = "TEvent"%string)
  then ["CardNo"; "EventTime"; "InOut"]%string
  else if bool_decide (table_name = "TEmployee"%string)
  then ["EmpID"; "CardNo"; "Name"; "EmpEnable"; "Deleted"; "Leave"; "isVisitor"]%string
  else [].

(** A reachable store with a direct IN/OUT column and the given events,
    nothing cached, no manual override. *)
Definition world_of_events (cutoff : Z) (rows : list EventRow) : World :=
  mkWorld (mkDatabase true event_columns_of (λ _, []) (λ _, []) rows)
    (mkSettings cutoff false) 0 None None [].

Definition in_out_detector : Detector := mkDetector TEVENT_InOut_only.

(** A world whose events are those of [synthetic_sample]. *)
Definition synthetic_world : World :=
  world_of_events 12
    ((λ e, mkEventRow "7" (Some (event_time e)) (inout_flag e)) <$> synthetic_sample).

(** A world with the manual override configured. *)
Definition override_world : World :=
  mkWorld (mkDatabase true (λ _, []) (λ _, []) (λ _, []) []) (mkSettings 12 true) 0 None None [].

(** IN on 2024-01-01 10:00, OUT on 2024-01-02 10:00. *)
Definition long_shift_world : World :=
  world_of_events 6
    [mkEventRow "7" (Some (at_time 2024 1 1 10 0)) (Some 1);
     mkEventRow "7" (Some (at_time 2024 1 2 10 0)) (Some 0)].

(** IN on 2023-12-31 20:00, an unresolvable event at 23:00, OUT on
    2024-01-01 01:00. *)
Definition unknown_between_world : World :=
  world_of_events 6
    [mkEventRow "7" (Some (at_time 2023 12 31 20 0)) (Some 1);
     mkEventRow "7" (Some (at_time 2023 12 31 23 0)) None;
     mkEventRow "7" (Some (at_time 2024 1 1 1 0)) (Some 0)].

(** The overnight shift: IN at 2024-01-01 22:00, OUT at 2024-01-02 03:00. *)
Definition overnight_in : datetime * option Z := (at_time 2024 1 1 22 0, Some 1).

Definition overnight_out : datetime * option Z := (at_time 2024 1 2 3 0, Some 0).

Definition overnight_events : list Event :=
  [row_to_event overnight_in; row_to_event overnight_out].

Definition overnight_first_day : DayRecord :=
  mkDayRecord (ymd2ord 2024 1 1) (Some (at_time 2024 1 1 22 0)) (Some (at_time 2024 1 2 3 0))
    (Some 300) (Some (5, 0)) false.

Definition overnight_second_day : DayRecord :=
  mkDayRecord (ymd2ord 2024 1 2) None (Some (at_time 2024 1 2 3 0)) None None true.

Definition overnight_world : World :=
  world_of_events 6
    [mkEventRow "7" (Some (at_time 2024 1 1 22 0)) (Some 1);
     mkEventRow "7" (Some (at_time 2024 1 2 3 0)) (Some 0)].

(** Two employee rows: a padded card, and a blank name with a textual
    employee id. *)
Definition staff_world : World :=
  mkWorld
    (mkDatabase true event_columns_of
       (λ _, [mkEmployeeRow (SqlInt 1) (Some " 1001 "%string) (Some "Lina"%string) None;
              mkEmployeeRow (SqlText "x9"%string) (Some "1004"%string) (Some "  "%string) None])
       (λ _, []) [])
    (mkSettings 12 false) 0 None None [].


(** ** Day attendance by side *)

(** An event of the given side ([true]: IN, [false]: OUT) under a polarity. *)
Definition is_side_event (side : bool) (e : Event) (swap_applied : bool) : bool :=
  if side then _is_in_event e swap_applied else _is_out_event e swap_applied.

(** The events of a side whose time lies in [[lo, hi)]. *)
Definition side_events_within (side : bool) (swap_applied : bool) (lo hi : datetime)
    (evs : list Event) : list Event :=
  filter (λ e, Is_true ((lo <=? event_time e) && (event_time e <? hi)
                        && is_side_event side e swap_applied)) evs.

(** [t] is the earliest (latest) time of a list of events, [None] for the
    empty list. *)
Definition earliest_of (evs : list Event) (t : option datetime) : Prop :=
  match t with
  | Some m => (∃ e, e ∈ evs ∧ event_time e = m) ∧ ∀ e, e ∈ evs → m ≤ event_time e
  | None => evs = []
  end.

Definition latest_of (evs : list Event) (t : option datetime) : Prop :=
  match t with
  | Some m => (∃ e, e ∈ evs ∧ event_time e = m) ∧ ∀ e, e ∈ evs → event_time e ≤ m
  | None => evs = []
  end.

(** A bucket, or a result, with its IN and OUT sides exchanged. *)
Definition exchange_bucket (b : Bucket) : Bucket := mkBucket (out_minutes b) (in_minutes b).

Definition exchange_totals (t : PeriodTotals) : PeriodTotals :=
  mkPeriodTotals (totalOutMinutes t) (totalInMinutes t) (totalOutHHMM t) (totalInHHMM t)
    (exchange_bucket <$> per_day t).

Definition map_result {A B} (f : A → B) (r : Result A) : Result B :=
  match r with
  | Ok a => Ok (f a)
  | Raise e => Raise e
  end.

(** The number of days of a year. *)
Definition days_in_year (year : Z) : Z := if is_leap year then 366 else 365.

(** The three introspection queries of [_resolve_schema]. *)
Definition schema_queries : list Query :=
  [QColumns "TEmployee"; QColumns "TEvent"; QColumns "TEventType"].

(** The detector that [_detect_event_variant] derives from a schema. *)
Definition detector_of_schema (schema : Schema) : Detector :=
  let event_columns := event_columns schema in
  let event_type_columns := event_type_columns schema in
  if is_some (_pick_first event_columns ["EventType"%string])
     && is_some (_pick_first event_type_columns ["EventID"%string])
  then mkDetector EVENTTYPE_to_EventID
  else if is_some (_pick_first event_columns ["EventID"%string])
          && is_some (_pick_first event_type_columns ["EventID"%string])
  then mkDetector EVENTID_to_EventID
  else if is_some (_pick_first event_columns ["InOut"%string]) then mkDetector TEVENT_InOut_only
  else if is_some (_pick_first event_columns ["Event"%string])
  then mkDetector TEVENT_Event_text_only
  else mkDetector UNSUPPORTED.

(** The state that a fresh cache entry hands out. *)
Definition state_of_cache (detector : Detector) (cached : MappingCacheEntry) : MappingState :=
  mkMappingState (cache_mappingVariant cached) (cache_swapApplied cached) (variant detector)
    (cache_autoDetected cached) false.

(** The mapping state of a world under a detector. *)
Definition mapping_state_of (w : World) (detector : Detector) : MappingState :=
  if bool_decide (variant detector = UNSUPPORTED)
  then mkMappingState unsupported false (variant detector) false false
  else if inout_swap (settings w)
  then mkMappingState swapped true (variant detector) false true
  else if mapping_cache_hit w detector
  then state_of_cache detector (default (mkMappingCacheEntry 0 normal false UNSUPPORTED false)
                                  (_MAPPING_CACHE w))
  else state_of_sample detector (recent_sample w).

(** A call leaves the mapping cache as it was. *)
Definition keeps_mapping_cache (w w' : World) : Prop :=
  evolves w w' ∧ _MAPPING_CACHE w' = _MAPPING_CACHE w.

(** The cache entry written for a state at a time. *)
Definition cache_entry_of (now : Z) (state : MappingState) : MappingCacheEntry :=
  mkMappingCacheEntry now (mappingVariant state) (swapApplied state) (detectorVariant state)
    (autoDetected state).

Global Instance MappingVariant_eq_dec : EqDecision MappingVariant.
Proof. solve_decision. Defined.

(** The fields of a mapping state do not contradict each other: the swap is
    applied exactly in the swapped variant, the variant is unsupported exactly
    for the unsupported detector, a manual override is a swap that was not
    detected, and a detected swap is applied. *)
Definition consistent_state (st : MappingState) : bool :=
  Bool.eqb (swapApplied st) (bool_decide (mappingVariant st = swapped))
  && Bool.eqb (bool_decide (mappingVariant st = unsupported))
              (bool_decide (detectorVariant st = UNSUPPORTED))
  && (negb (manualOverride st) || (negb (autoDetected st) && swapApplied st))
  && (negb (autoDetected st) || swapApplied st).

(** The same for a cache entry, which is never written for an unsupported
    detector. *)
Definition consistent_cache (cache : option MappingCacheEntry) : bool :=
  match cache with
  | Some c =>
      Bool.eqb (cache_swapApplied c) (bool_decide (cache_mappingVariant c = swapped))
      && negb (bool_decide (cache_mappingVariant c = unsupported))
      && Bool.eqb (cache_autoDetected c) (cache_swapApplied c)
  | None => true
  end.

(** Some non-empty column is the candidate up to case. *)
Definition column_matches (existing : list string) (candidate : string) : Prop :=
  ∃ column, column ∈ existing ∧ column ≠ EmptyString
            ∧ string_lower column = string_lower candidate.

(** The events whose time lies in [[lo, hi)]. *)
Definition events_between (lo hi : datetime) (events : list Event) : list Event :=
  filter (λ e, lo ≤ event_time e ∧ event_time e < hi) events.

(** The events before a bound. *)
Definition events_before (bound : datetime) (events : list Event) : list Event :=
  filter (λ e, event_time e < bound) events.

(** The starts of [n] consecutive days, from [start] on. *)
Fixpoint day_starts (n : nat) (start : datetime) : list datetime :=
  match n with
  | O => []
  | S n' => start :: day_starts n' (start + timedelta_days 1)
  end.

(** The end of the overnight window of the day that starts at [day_start]. *)
Definition overnight_end_of (cfg : Settings) (day_start : datetime) : datetime :=
  day_start + timedelta_days 1 + timedelta_hours (shift_out_cutoff_hours cfg).

(** The record of one day, computed from the events of its overnight
    window, and the records of a list of days: those with relevant events. *)
Definition day_attendance_of (cfg : Settings) (events : list Event) (swap_applied : bool)
    (day_start : datetime) : DayAttendance :=
  _compute_day_attendance cfg day_start
    (events_between day_start (overnight_end_of cfg day_start) events) swap_applied.

Definition records_of_days (cfg : Settings) (events : list Event) (swap_applied : bool)
    (days : list datetime) : list DayRecord :=
  _serialize_day_record
    <$> filter (λ r, Is_true (has_relevant_events r))
          (day_attendance_of cfg events swap_applied <$> days).

(** A day record that a listing shows: one with a first IN or a last OUT. *)
Definition is_listed (record : DayRecord) : bool :=
  is_some (rec_first_in record) || is_some (rec_last_out record).

(** The outcome of [_build_single_day_record] for a day, in a world. *)
Definition single_day_run (w : World) (card_no : string) (swap_applied : bool)
    (detector : Detector) (day : date) : Result DayRecord :=
  (run (_build_single_day_record card_no day swap_applied (Some detector)) w).1.

(** The record of a day, from the rows of the card. *)
Definition day_record_of_rows (cfg : Settings) (rows : list (datetime * option Z))
    (swap_applied : bool) (day : date) : DayRecord :=
  let day_start := datetime_combine_min day in
  _serialize_day_record
    (_compute_day_attendance cfg day_start
       (row_to_event <$> window_rows day_start (overnight_end_of cfg day_start) rows)
       swap_applied).

(** The listing of the days [[first, last)], from the rows of the card. *)
Definition listing_of_rows (cfg : Settings) (rows : list (datetime * option Z))
    (swap_applied : bool) (first last : date) : list DayRecord :=
  let start := datetime_combine_min first in
  let end_ := datetime_combine_min last in
  daily_records_loop (days_fuel start end_) cfg
    (row_to_event <$> window_rows start (overnight_end_of cfg end_) rows)
    end_ swap_applied start 0 0 [].

(** The outcome of [_build_daily_records_for_period] for the days
    [[first, last)], in a world. *)
Definition listing_run (w : World) (card_no : string) (swap_applied : bool)
    (detector : Detector) (first last : date) : Result (list DayRecord) :=
  (run (_build_daily_records_for_period card_no (datetime_combine_min first)
          (datetime_combine_min last) swap_applied (Some detector)) w).1.

(** What a report reads in a world: the detector of the schema in use, the
    mapping state under it, the rows of the card, and the listing and the
    totals of the days [[first, last)] computed from them. *)
Definition report_detector (w : World) : Detector := detector_of_schema (schema_of w).

Definition report_mapping (w : World) : MappingState := mapping_state_of w (report_detector w).

Definition report_rows (w : World) (card_no : string) : list (datetime * option Z) :=
  visible_rows w card_no (report_detector w).

(** The identity that [_fetch_employee_identity] builds from the first row
    that the store returns for the card. *)
Definition identity_of_rows (rows : list EmployeeRow) (card_no : string) : Identity :=
  let row := head rows in
  let normalized_card_no := str_or (_clean_text (row ≫= row_CardNo)) card_no in
  let department := _clean_text (row ≫= row_Department) in
  {| id_emp_id := _normalize_emp_id (default SqlNull (row_EmpID <$> row)) normalized_card_no;
     id_card_no := normalized_card_no;
     id_employee_name := _employee_name_or_card (row ≫= row_EmployeeName) normalized_card_no;
     id_department := if bool_decide (department = EmptyString) then None else Some department |}.

Definition report_identity (w : World) (card_no : string) : Identity :=
  identity_of_rows (db_employee_by_card (database w) card_no) card_no.

Definition report_listing (w : World) (card_no : string) (first last : date)
    : list DayRecord :=
  listing_of_rows (settings w) (report_rows w card_no) (swapApplied (report_mapping w))
    first last.

Definition report_totals (w : World) (card_no : string) (first last : date) : PeriodTotals :=
  period_totals_of_rows (report_rows w card_no) (datetime_combine_min first)
    (datetime_combine_min last) (swapApplied (report_mapping w)).


(** The first day of a month and the day after its last day. *)
Definition month_first (year month : Z) : date := ymd2ord year month 1.

Definition month_last (year month : Z) : date := month_first year month + days_in_month year month.

(** The outcome of a monthly report, in a world. *)
Definition monthly_run (w : World) (card_no month_value : string) : Result MonthlyReport :=
  (run (fetch_monthly_report card_no month_value) w).1.

(** The figures that the reports add up over a listing. *)
Definition worked_days_of (records : list DayRecord) : Z :=
  count_where (λ item, is_some (rec_first_in item)) records.

Definition missing_punch_days_of (records : list DayRecord) : Z :=
  count_where rec_missing_punch records.

Definition total_minutes_of (records : list DayRecord) : Z :=
  sum_of (λ item, default 0 (rec_duration_minutes item)) records.




(** ** The rate limiter over a run of requests *)

(** The deque of a key. *)
Definition hits_of (hits : gmap string (list Z)) (key : string) : list Z :=
  default [] (hits !! key).

(** Serving the requests [(now, key)] in turn, from given hits: the hits
    left and the requests that were allowed, in order. *)
Definition serve_request (self : rate_limit.SlidingWindowLimiter)
    (state : gmap string (list Z) * list (Z * string)) (request : Z * string)
    : gmap string (list Z) * list (Z * string) :=
  let '(outcome, hits) := rate_limit.allow self state.1 request.1 request.2 in
  (hits,
   match outcome with
   | Some (true, _) => state.2 ++ [request]
   | _ => state.2
   end).

Definition serve (self : rate_limit.SlidingWindowLimiter) (requests : list (Z * string))
    : gmap string (list Z) * list (Z * string) :=
  foldl (serve_request self) (∅, []) requests.

(** The allowed requests of a key that are not older than the window at the
    clock reading [now]. *)
Definition recent_allowed (self : rate_limit.SlidingWindowLimiter) (now : Z) (key : string)
    (allowed : list (Z * string)) : list (Z * string) :=
  filter (λ request, request.2 = key
                     ∧ now - rate_limit.window_seconds self * us_per_second ≤ request.1)
    allowed.

(** The clock reading of the last request, 0 before any. *)
Definition last_reading (requests : list (Z * string)) : Z :=
  default 0 (fst <$> last requests).

(** ** File names *)

(** The characters of a text are all of a kind. *)
Definition all_chars (p : ascii → bool) (text : string) : Prop :=
  Forall (λ c, p c = true) (list_ascii_of_string text).

(** A character of a safe file name, or the dot of its extension. *)
Definition is_filename_char_or_dot (c : ascii) : bool :=
  main.is_filename_char c || bool_decide (c = "."%char).

(** ** The months of the yearly report *)






(** * Properties *)

Ltac settle_times :=
  repeat match goal with
    | |- context [at_time ?y ?m ?d ?h ?mi] =>
        let v := eval vm_compute in (at_time y m d h mi) in
        change (at_time y m d h mi) with v in *
    | H : context [at_time ?y ?m ?d ?h ?mi] |- _ =>
        let v := eval vm_compute in (at_time y m d h mi) in
        change (at_time y m d h mi) with v in *
    end.

(** ** Calendar *)

Example ordinals_of_dates :
  ymd2ord 2024 1 1 = 738886 ∧ ord2ymd 738886 = (2024, 1, 1)
  ∧ ord2ymd (ymd2ord 2024 2 29) = (2024, 2, 29)
  ∧ ord2ymd (ymd2ord 2023 12 31) = (2023, 12, 31)
  ∧ ord2ymd (ymd2ord 2000 3 1) = (2000, 3, 1) ∧ ord2ymd 1 = (1, 1, 1)
  ∧ hour_of (at_time 2024 3 4 18 30) = 18.
Proof. vm_compute. repeat split. Qed.

Example inputs_parsed :
  strptime_date "2024-02-29" = Some (ymd2ord 2024 2 29)
  ∧ strptime_date "2024-1-5" = Some (ymd2ord 2024 1 5)
  ∧ strptime_date "2024-02-30" = None
  ∧ strptime_date "2024-01-5x" = None
  ∧ strptime_date "0000-01-01" = None
  ∧ strptime_month "2024-13" = None
  ∧ py_int " +2_024 " = Some 2024
  ∧ py_int "20__24" = None
  ∧ py_int (String (ascii_of_nat 28) "2024") = None
  ∧ strip (String (ascii_of_nat 28) "2024") = "2024"%string.
Proof. vm_compute. repeat split. Qed.

(** ** Day attendance *)

Lemma foldl_max_le (xs : list Z) (x : Z) : x ≤ foldl Z.max x xs.
Proof.
  revert x. induction xs as [|y ys IH]; intros x; simpl; [lia|].
  specialize (IH (Z.max x y)). lia.
Qed.

Lemma foldl_max_ge_all (xs : list Z) (x b : Z) :
  b ≤ x → Forall (λ y, b ≤ y) xs → b ≤ foldl Z.max x xs.
Proof. intros Hx _. pose proof (foldl_max_le xs x). lia. Qed.

Lemma list_max_lower_bound (xs : list Z) (b m : Z) :
  Forall (λ y, b ≤ y) xs → list_max xs = Some m → b ≤ m.
Proof.
  destruct xs as [|x rest]; simpl; [discriminate|].
  intros Hall [= <-]. inversion Hall; subst.
  pose proof (foldl_max_le rest x). lia.
Qed.

Lemma outs_after_in_lower_bound f oe swap evs :
  Forall (λ y, f ≤ y) (outs_after_in f oe swap evs).
Proof.
  unfold outs_after_in. apply Forall_fmap, Forall_forall.
  intros e He. apply list_elem_of_filter in He as [Hp _]. simpl.
  apply Is_true_true in Hp. apply andb_true_iff in Hp as [Hp _].
  apply andb_true_iff in Hp as [Hp _]. lia.
Qed.

Lemma initial_last_out_not_before f oe swap evs l :
  initial_last_out f oe swap evs = Some l → f ≤ l.
Proof. apply list_max_lower_bound, outs_after_in_lower_bound. Qed.

Lemma paired_last_out_is_initial f oe swap evs outs :
  paired_last_out (Some f) oe swap evs outs = initial_last_out f oe swap evs.
Proof.
  unfold paired_last_out.
  destruct (initial_last_out f oe swap evs) as [l|] eqn:E; [|done].
  apply initial_last_out_not_before in E.
  destruct (Z.ltb_spec l f); [lia|done].
Qed.

Lemma whole_minutes_nonneg f l : f ≤ l → 0 ≤ whole_minutes f l.
Proof.
  intros H. unfold whole_minutes. apply Z.div_pos; [lia|].
  unfold us_per_minute, us_per_second. lia.
Qed.

Lemma day_attendance_fields cfg day_start evs swap :
  ∃ ins outs,
    primary_buckets day_start (day_start + timedelta_days 1) swap evs = (ins, outs) ∧
    let first_in := list_min ins in
    let oe := day_start + timedelta_days 1 + timedelta_hours (shift_out_cutoff_hours cfg) in
    let lo := paired_last_out first_in oe swap evs outs in
    let r := _compute_day_attendance cfg day_start evs swap in
    first_in_dt r = first_in ∧
    duration_minutes r = _duration_minutes first_in lo ∧
    last_out_dt r = discard_unpaired first_in lo (_duration_minutes first_in lo) ∧
    missing_punch r
    = xorb (bool_decide (first_in_dt r = None)) (bool_decide (last_out_dt r = None)).
Proof.
  unfold _compute_day_attendance.
  destruct (primary_buckets _ _ _ _) as [ins outs]. exists ins, outs. done.
Qed.

Lemma rescan_outs_spec f oe swap evs : ∀ next_out last_after,
  rescan_outs f oe swap evs next_out last_after
  = (match next_out with
     | Some _ => next_out
     | None => head (outs_after_in f oe swap evs)
     end,
     match last (outs_after_in f oe swap evs) with
     | Some x => Some x
     | None => last_after
     end).
Proof.
  unfold outs_after_in.
  induction evs as [|ev evs IH]; intros next_out last_after; simpl.
  - by destruct next_out.
  - rewrite filter_cons.
    destruct (Z.ltb_spec (event_time ev) f) as [Hlt|Hge]; simpl.
    { rewrite decide_False.
      2: { intros H. apply Is_true_true in H. apply andb_true_iff in H as [H _].
           apply andb_true_iff in H as [H _]. lia. }
      apply IH. }
    destruct (Z.leb_spec oe (event_time ev)) as [Hle|Hgt]; simpl.
    { rewrite decide_False.
      2: { intros H. apply Is_true_true in H. apply andb_true_iff in H as [H _].
           apply andb_true_iff in H as [_ H]. lia. }
      apply IH. }
    destruct (_is_out_event ev swap) eqn:Hout; simpl.
    + rewrite decide_True.
      2: { apply Is_true_true. rewrite andb_true_r. apply andb_true_iff. split; lia. }
      rewrite IH. rewrite fmap_cons. f_equal.
      * by destruct next_out.
      * generalize (event_time <$>
                      filter (λ event, Is_true ((f <=? event_time event)
                                                && (event_time event <? oe)
                                                && _is_out_event event swap)) evs).
        intros outs. destruct outs as [|x outs]; [done|].
        rewrite last_cons_cons. destruct (last (x :: outs)) eqn:El; [done|].
        by apply last_None in El.
    + rewrite decide_False.
      2: { intros H. apply Is_true_true in H. apply andb_true_iff in H as [_ H]. done. }
      apply IH.
Qed.

Lemma recomputed_last_out_spec f oe swap evs :
  recomputed_last_out f oe swap evs = last (outs_after_in f oe swap evs).
Proof.
  unfold recomputed_last_out. rewrite rescan_outs_spec.
  destruct (outs_after_in f oe swap evs) as [|x l] eqn:E; [done|].
  destruct (last (x :: l)) eqn:El; [done|].
  by apply last_None in El.
Qed.

(** C6. The last OUT first chosen for a day, the latest OUT in
    [[first_in, day_end + cutoff)], is never earlier than the first IN, so the
    test of the sanity branch never holds and no returned record has
    [last_out] earlier than [first_in]; the re-scan of that branch yields the
    last OUT of the same window in list order, null when there is none. *)
Theorem last_out_never_before_first_in cfg day_start evs swap :
  (match first_in_dt (_compute_day_attendance cfg day_start evs swap),
         last_out_dt (_compute_day_attendance cfg day_start evs swap) with
   | Some f, Some l => f ≤ l
   | _, _ => True
   end) ∧
  (∀ f oe outs,
     match initial_last_out f oe swap evs with
     | Some l => (l <? f) = false
     | None => True
     end ∧
     paired_last_out (Some f) oe swap evs outs = initial_last_out f oe swap evs ∧
     recomputed_last_out f oe swap evs = last (outs_after_in f oe swap evs) ∧
     match recomputed_last_out f oe swap evs with
     | Some l => (l <? f) = false
     | None => outs_after_in f oe swap evs = []
     end).
Proof.
  split.
  - destruct (day_attendance_fields cfg day_start evs swap) as (ins & outs & _ & Hf & _ & Hl & _).
    simpl in *. rewrite Hf, Hl.
    destruct (list_min ins) as [f|]; [|done].
    rewrite paired_last_out_is_initial.
    destruct (initial_last_out _ _ _ _) as [l|] eqn:E; [|done].
    apply initial_last_out_not_before in E. simpl.
    destruct (Z.ltb_spec l f); [lia|]. simpl. done.
  - intros f oe outs. split; [|split; [apply paired_last_out_is_initial|]].
    { destruct (initial_last_out f oe swap evs) as [l|] eqn:E; [|done].
      apply initial_last_out_not_before in E. lia. }
    split; [apply recomputed_last_out_spec|].
    rewrite recomputed_last_out_spec.
    destruct (last (outs_after_in f oe swap evs)) as [l|] eqn:E.
    + apply last_Some_elem_of in E.
      pose proof (outs_after_in_lower_bound f oe swap evs) as Hall.
      eapply Forall_forall in Hall; [|exact E]. simpl in Hall. lia.
    + by apply last_None in E.
Qed.

(** C7. In every day record the duration is null or non-negative; when first
    IN and last OUT are both present it is the elapsed time between them
    floor-divided into whole minutes (and it is null otherwise); and an
    elapsed time that is negative yields a null duration and a discarded
    last OUT. *)
Theorem duration_minutes_sound cfg day_start evs swap :
  let r := _compute_day_attendance cfg day_start evs swap in
  (match duration_minutes r with Some d => 0 ≤ d | None => True end) ∧
  (match first_in_dt r, last_out_dt r with
   | Some f, Some l => duration_minutes r = Some (whole_minutes f l)
   | _, _ => duration_minutes r = None
   end) ∧
  (∀ f l, l < f →
     _duration_minutes (Some f) (Some l) = None ∧
     discard_unpaired (Some f) (Some l) (_duration_minutes (Some f) (Some l)) = None).
Proof.
  intros r. subst r.
  destruct (day_attendance_fields cfg day_start evs swap) as (ins & outs & _ & Hf & Hd & Hl & _).
  simpl in *. rewrite Hf, Hd, Hl. clear Hf Hd Hl.
  repeat split.
  - destruct (list_min ins) as [f|]; [|done].
    destruct (paired_last_out _ _ _ _ _) as [l|]; [|done]. simpl.
    destruct (Z.ltb_spec l f); [done|]. by apply whole_minutes_nonneg.
  - destruct (list_min ins) as [f|]; destruct (paired_last_out _ _ _ _ _) as [l|]; simpl; try done.
    destruct (Z.ltb_spec l f); simpl; done.
  - unfold _duration_minutes. destruct (Z.ltb_spec l f); [done|lia].
  - unfold _duration_minutes, discard_unpaired. destruct (Z.ltb_spec l f); [done|lia].
Qed.

Lemma duration_minutes_sound_witness :
  5 < 10 ∧ _duration_minutes (Some 10) (Some 5) = None.
Proof.
  split; [lia|].
  apply (proj2 (proj2 (duration_minutes_sound (mkSettings 6 false) 0 [] false)) 10 5). lia.
Defined.

(** C8. In every day record, and in its serialized form, [missing_punch] is
    the exclusive or of "first IN is null" and "last OUT is null". *)
Theorem missing_punch_is_xor cfg day_start evs swap :
  let r := _compute_day_attendance cfg day_start evs swap in
  missing_punch r = xorb (bool_decide (first_in_dt r = None)) (bool_decide (last_out_dt r = None))
  ∧ rec_missing_punch (_serialize_day_record r)
    = xorb (bool_decide (rec_first_in (_serialize_day_record r) = None))
           (bool_decide (rec_last_out (_serialize_day_record r) = None)).
Proof.
  intros r. subst r.
  destruct (day_attendance_fields cfg day_start evs swap) as (ins & outs & _ & _ & _ & _ & Hm).
  simpl in Hm. split; [exact Hm|].
  unfold _serialize_day_record; simpl. rewrite Hm. unfold _format_dt.
  destruct (first_in_dt _), (last_out_dt _); done.
Qed.

(** ** Mapping state and polarity heuristic *)

(** C4, counterexample. With the override configured and the UNSUPPORTED
    detector variant the state is unsupported, not swapped. *)
Lemma manual_override_unsupported_detector :
  inout_swap (settings override_world) = true ∧
  run (_get_mapping_state (Some (mkDetector UNSUPPORTED))) override_world
  = (Ok (mkMappingState unsupported false UNSUPPORTED false false), override_world) ∧
  run (_get_mapping_state (Some (mkDetector UNSUPPORTED))) override_world
  ≠ (Ok (mkMappingState swapped true UNSUPPORTED false true), override_world).
Proof. repeat split. intros H. discriminate H. Qed.

(** C4, amended. With the manual override configured, every supported
    detector variant gets the swapped mapping state, with [swapApplied] and
    [manualOverride] true and [autoDetected] false, whatever the events and
    the cache; the world is left as it was, so nothing is sampled. *)
Theorem manual_override_forces_swapped (w : World) (detector : Detector) :
  inout_swap (settings w) = true →
  variant detector ≠ UNSUPPORTED →
  run (_get_mapping_state (Some detector)) w
  = (Ok (mkMappingState swapped true (variant detector) false true), w).
Proof.
  intros Hswap Hvar. unfold run, _get_mapping_state, bind, resolve_detector, ret, get_world.
  rewrite bool_decide_false by done. by rewrite Hswap.
Qed.

Lemma manual_override_forces_swapped_witness :
  run (_get_mapping_state (Some (mkDetector TEVENT_InOut_only))) override_world
  = (Ok (mkMappingState swapped true TEVENT_InOut_only false true), override_world).
Proof.
  apply (manual_override_forces_swapped override_world (mkDetector TEVENT_InOut_only)).
  - reflexivity.
  - simpl. discriminate.
Defined.

Lemma count_events_cons p e l :
  count_events p (e :: l) = (if p e then 1 else 0) + count_events p l.
Proof.
  unfold count_events. rewrite filter_cons.
  destruct (decide (Is_true (p e))) as [H|H].
  - apply Is_true_true in H. rewrite H. simpl. lia.
  - apply Is_true_false in H. rewrite H. simpl. lia.
Qed.

Lemma count_events_nonneg p l : 0 ≤ count_events p l.
Proof. unfold count_events. lia. Qed.

Lemma count_events_filter p q l :
  (∀ e, p e = true → q e = true) →
  count_events p (filter (λ e, Is_true (q e)) l) = count_events p l.
Proof.
  intros Hpq. induction l as [|e l IH]; [done|].
  rewrite filter_cons. rewrite count_events_cons.
  destruct (decide (Is_true (q e))) as [Hq|Hq].
  - rewrite count_events_cons. by rewrite IH.
  - rewrite IH. destruct (p e) eqn:Hp; [|done].
    exfalso. apply Hq. rewrite Hpq; done.
Qed.

Lemma foldl_count_row (l : list Event) (c : SwapCounters) :
  foldl count_row c l =
  mkSwapCounters
    (in_total c + count_events (flagged 1) l)
    (in_early c + count_events (λ e, flagged 1 e && hour_within 0 6 e) l)
    (out_total c + count_events (flagged 0) l)
    (out_afternoon_evening c + count_events (λ e, flagged 0 e && hour_within 12 23 e) l).
Proof.
  revert c. induction l as [|e l IH]; intros c.
  - simpl. unfold count_events; simpl. destruct c; simpl. f_equal; lia.
  - simpl. rewrite IH. rewrite !count_events_cons.
    unfold count_row, flagged, hour_within.
    destruct (inout_flag e) as [f|] eqn:Ef.
    + destruct (Z.eqb_spec f 1) as [->|Hne1].
      * rewrite (bool_decide_true (Some 1 = Some 1)) by done.
        rewrite (bool_decide_false (Some 1 = Some 0)) by discriminate.
        destruct ((0 <=? _) && _); simpl; f_equal; lia.
      * destruct (Z.eqb_spec f 0) as [->|Hne0].
        -- rewrite (bool_decide_true (Some 0 = Some 0)) by done.
           rewrite (bool_decide_false (Some 0 = Some 1)) by discriminate.
           destruct ((12 <=? _) && _); simpl; f_equal; lia.
        -- rewrite !bool_decide_false by congruence. simpl. f_equal; lia.
    + rewrite !bool_decide_false by discriminate. simpl. f_equal; lia.
Qed.

Lemma should_auto_swap_is_spec sample : _should_auto_swap sample = heuristic_spec sample.
Proof.
  unfold _should_auto_swap, heuristic_spec.
  fold (count_events is_resolvable sample).
  change (Z.of_nat (length (filter (λ row, Is_true (flag_is_binary (inout_flag row))) sample)))
    with (count_events is_resolvable sample).
  destruct (Z.ltb_spec (count_events is_resolvable sample) 50) as [Hlt|Hge].
  - destruct (Z.leb_spec 50 (count_events is_resolvable sample)); [lia|done].
  - destruct (Z.leb_spec 50 (count_events is_resolvable sample)); [|lia]. simpl.
    rewrite foldl_count_row. simpl.
    change (λ row, Is_true (flag_is_binary (inout_flag row)))
      with (λ e, Is_true (is_resolvable e)).
    assert (Hres : ∀ f, (f = 0 ∨ f = 1) → ∀ e, flagged f e = true → is_resolvable e = true).
    { intros f Hf e He. unfold flagged in He. apply bool_decide_eq_true in He.
      unfold is_resolvable. rewrite He. simpl. destruct Hf as [-> | ->]; done. }
    rewrite !count_events_filter; rewrite ?Z.add_0_l.
    2-5: (intros e He; try (apply andb_true_iff in He as [He _]);
          unfold flagged in He; apply bool_decide_eq_true in He;
          unfold is_resolvable; rewrite He; done).
    set (a := count_events (flagged 1) sample).
    set (b := count_events (flagged 0) sample).
    set (a' := count_events _ sample). set (b' := count_events _ sample).
    assert (0 ≤ a') by apply count_events_nonneg.
    assert (0 ≤ b') by apply count_events_nonneg.
    assert (Ha : a' ≤ a).
    { subst a a'. clear. induction sample as [|e l IH]; [unfold count_events; simpl; lia|].
      rewrite !count_events_cons. destruct (flagged 1 e); simpl; [|lia].
      destruct (hour_within 0 6 e); lia. }
    assert (Hb : b' ≤ b).
    { subst b b'. clear. induction sample as [|e l IH]; [unfold count_events; simpl; lia|].
      rewrite !count_events_cons. destruct (flagged 0 e); simpl; [|lia].
      destruct (hour_within 12 23 e); lia. }
    unfold ratio_exceeds_060.
    destruct (Z.eqb_spec a 0) as [Ha0|Ha0]; simpl.
    + destruct (Z.ltb_spec (3 * a) (5 * a')); [lia|done].
    + destruct (Z.eqb_spec b 0) as [Hb0|Hb0]; simpl; [|done].
      destruct (Z.ltb_spec (3 * b) (5 * b')); [lia|]. by rewrite andb_false_r.
Qed.

Lemma count_events_sum_le (p q r : Event → bool) l :
  (∀ e, (if p e then 1 else 0) + (if q e then 1 else 0) ≤ (if r e then 1 else 0)) →
  count_events p l + count_events q l ≤ count_events r l.
Proof.
  intros H. induction l as [|e l IH]; [unfold count_events; simpl; lia|].
  rewrite !count_events_cons. specialize (H e). lia.
Qed.

Lemma count_events_mono (p q : Event → bool) l :
  (∀ e, p e = true → q e = true) → count_events p l ≤ count_events q l.
Proof.
  intros H. induction l as [|e l IH]; [unfold count_events; simpl; lia|].
  rewrite !count_events_cons. specialize (H e).
  destruct (p e), (q e); try lia; discriminate (H eq_refl).
Qed.

Lemma count_events_fmap (p : Event → bool) (f : Event → Event) l :
  count_events p (f <$> l) = count_events (λ e, p (f e)) l.
Proof.
  induction l as [|e l IH]; [done|].
  rewrite fmap_cons, !count_events_cons. by rewrite IH.
Qed.

Lemma count_events_ext (p q : Event → bool) l :
  (∀ e, p e = q e) → count_events p l = count_events q l.
Proof.
  intros H. induction l as [|e l IH]; [done|].
  rewrite !count_events_cons. by rewrite IH, H.
Qed.

Lemma flagged_reverse_1 e : flagged 1 (reverse_flag e) = flagged 0 e.
Proof.
  unfold flagged, reverse_flag; simpl. destruct (inout_flag e) as [f|]; [|done].
  destruct (Z.eqb_spec f 1) as [->|]; [done|].
  destruct (Z.eqb_spec f 0) as [->|]; [done|].
  rewrite !bool_decide_false; congruence.
Qed.

Lemma flagged_reverse_0 e : flagged 0 (reverse_flag e) = flagged 1 e.
Proof.
  unfold flagged, reverse_flag; simpl. destruct (inout_flag e) as [f|]; [|done].
  destruct (Z.eqb_spec f 1) as [->|]; [done|].
  destruct (Z.eqb_spec f 0) as [->|]; [done|].
  rewrite !bool_decide_false; congruence.
Qed.

Lemma is_resolvable_reverse e : is_resolvable (reverse_flag e) = is_resolvable e.
Proof.
  unfold is_resolvable, reverse_flag; simpl. destruct (inout_flag e) as [f|]; [|done].
  destruct (Z.eqb_spec f 1) as [->|]; [done|].
  destruct (Z.eqb_spec f 0) as [->|]; [done|]. done.
Qed.

Lemma hour_within_split lo hi h e :
  lo ≤ h ≤ hi → hour_within h h e = true → hour_within lo hi e = true.
Proof.
  unfold hour_within. intros Hh H. apply andb_true_iff in H as [H1 H2].
  apply andb_true_iff. split; lia.
Qed.

Lemma seventy_percent_pattern_swaps sample :
  seventy_percent_pattern sample = true →
  _should_auto_swap sample = true ∧ _should_auto_swap (reverse_flag <$> sample) = false.
Proof.
  intros Hp. unfold seventy_percent_pattern in Hp.
  repeat (apply andb_true_iff in Hp as [Hp ?]).
  rewrite !should_auto_swap_is_spec. unfold heuristic_spec.
  rewrite !count_events_fmap.
  rewrite (count_events_ext _ _ _ is_resolvable_reverse).
  rewrite (count_events_ext (λ e, flagged 1 (reverse_flag e)) _ _ flagged_reverse_1).
  rewrite (count_events_ext (λ e, flagged 0 (reverse_flag e)) _ _ flagged_reverse_0).
  rewrite (count_events_ext (λ e, flagged 1 (reverse_flag e) && _)
             (λ e, flagged 0 e && hour_within 0 6 e)).
  2: { intros e. by rewrite flagged_reverse_1. }
  set (a := count_events (flagged 1) sample) in *.
  set (b := count_events (flagged 0) sample) in *.
  set (a3 := count_events (λ e, flagged 1 e && hour_within 3 3 e) sample) in *.
  set (b18 := count_events (λ e, flagged 0 e && hour_within 18 18 e) sample) in *.
  set (ae := count_events (λ e, flagged 1 e && hour_within 0 6 e) sample).
  set (bl := count_events (λ e, flagged 0 e && hour_within 12 23 e) sample).
  set (be := count_events (λ e, flagged 0 e && hour_within 0 6 e) sample).
  assert (a3 ≤ ae).
  { apply count_events_mono. intros e He. apply andb_true_iff in He as [Hfl Hhr].
    rewrite Hfl. simpl. eapply hour_within_split; [|exact Hhr]. lia. }
  assert (b18 ≤ bl).
  { apply count_events_mono. intros e He. apply andb_true_iff in He as [Hfl Hhr].
    rewrite Hfl. simpl. eapply hour_within_split; [|exact Hhr]. lia. }
  assert (be + b18 ≤ b).
  { apply count_events_sum_le. intros e. destruct (flagged 0 e); simpl; [|lia].
    unfold hour_within. destruct (Z.leb_spec 0 (hour_of (event_time e)));
    destruct (Z.leb_spec (hour_of (event_time e)) 6);
    destruct (Z.leb_spec 18 (hour_of (event_time e)));
    destruct (Z.leb_spec (hour_of (event_time e)) 18); simpl; lia. }
  unfold ratio_exceeds_060.
  destruct (Z.leb_spec 50 (count_events is_resolvable sample)); [|lia]. simpl.
  split.
  - destruct (Z.ltb_spec (3 * a) (5 * ae)); [|lia].
    destruct (Z.ltb_spec (3 * b) (5 * bl)); [done|lia].
  - destruct (Z.ltb_spec (3 * b) (5 * be)); [lia|done].
Qed.

(** ** Calls and the world *)

Lemma evolves_refl w : evolves w w.
Proof. done. Qed.

Lemma evolves_trans w1 w2 w3 : evolves w1 w2 → evolves w2 w3 → evolves w1 w3.
Proof. intros (?&?&?&?) (?&?&?&?). repeat split; congruence. Qed.

Lemma evolves_visible w w' card det :
  evolves w w' → visible_rows w' card det = visible_rows w card det.
Proof. intros (Hd&_&_&Hs). unfold visible_rows, events_visible. by rewrite Hd, Hs. Qed.

Lemma evolves_execute w q : evolves w (execute q w).2.
Proof. done. Qed.

Lemma run_get_schema w :
  db_reachable (database w) = true →
  ∃ w', run _get_schema w = (Ok (schema_of w), w') ∧ evolves w w'.
Proof.
  intros Hr. destruct w as [db cfg clk sc mc ql]. simpl in Hr.
  unfold run, _get_schema, schema_of, bind, get_world. simpl.
  destruct sc as [s|]; simpl.
  - eexists. split; [reflexivity|]. done.
  - unfold get_cursor. simpl. rewrite Hr. simpl.
    eexists. split; [reflexivity|]. done.
Qed.

Lemma run_bind {A B} (m : M A) (k : A → M B) w a w' :
  run m w = (Ok a, w') → run (bind m k) w = run (k a) w'.
Proof. unfold run, bind. by intros ->. Qed.

Lemma run_fetch_events w card s e det :
  db_reachable (database w) = true →
  ∃ w', run (_fetch_events_for_card card s e (Some det)) w
        = (Ok (row_to_event <$> window_rows s e (visible_rows w card det)), w')
        ∧ evolves w w'.
Proof.
  intros Hr. destruct (run_get_schema w Hr) as (w1 & H1 & Hev).
  unfold _fetch_events_for_card. rewrite (run_bind _ _ _ _ _ H1).
  unfold visible_rows, events_visible.
  destruct (event_card_col (schema_of w)) as [cc|]; simpl.
  2: { exists w1. done. }
  destruct (event_time_col (schema_of w)) as [tc|]; simpl.
  2: { exists w1. done. }
  unfold run, bind, ret. simpl.
  destruct (bool_decide (variant det = UNSUPPORTED)); simpl.
  { exists w1. done. }
  pose proof Hev as (Hd & Hs & Hc & Hsch).
  unfold get_cursor. rewrite Hd, Hr. simpl.
  eexists. split; [unfold select_events_for_card; rewrite Hd; reflexivity|].
  eapply evolves_trans; [exact Hev|].
  unfold evolves, schema_of; simpl. rewrite ?Hd. done.
Qed.

Lemma run_fetch_last w card s det :
  db_reachable (database w) = true →
  ∃ w', run (_fetch_last_event_before card s (Some det)) w
        = (Ok (row_to_event <$> last_row_before s (visible_rows w card det)), w')
        ∧ evolves w w'.
Proof.
  intros Hr. destruct (run_get_schema w Hr) as (w1 & H1 & Hev).
  unfold _fetch_last_event_before. rewrite (run_bind _ _ _ _ _ H1).
  unfold visible_rows, events_visible.
  destruct (event_card_col (schema_of w)) as [cc|]; simpl.
  2: { exists w1. done. }
  destruct (event_time_col (schema_of w)) as [tc|]; simpl.
  2: { exists w1. done. }
  unfold run, bind, ret. simpl.
  destruct (bool_decide (variant det = UNSUPPORTED)); simpl.
  { exists w1. done. }
  pose proof Hev as (Hd & Hs & Hc & Hsch).
  unfold get_cursor. rewrite Hd, Hr. simpl.
  eexists. split; [unfold select_last_event_before; rewrite Hd; reflexivity|].
  eapply evolves_trans; [exact Hev|].
  unfold evolves, schema_of; simpl. rewrite ?Hd. done.
Qed.

Lemma visible_rows_unsupported w card det :
  variant det = UNSUPPORTED → visible_rows w card det = [].
Proof.
  intros H. unfold visible_rows, events_visible. rewrite bool_decide_true by done.
  by rewrite andb_false_r.
Qed.


Lemma run_compute_period w card s e swap det :
  db_reachable (database w) = true →
  ∃ w', run (_compute_period_segment_totals card s e swap (Some det)) w
        = (Ok (period_totals_of_rows (visible_rows w card det) s e swap), w')
        ∧ evolves w w'.
Proof.
  intros Hr. unfold _compute_period_segment_totals, period_totals_of_rows.
  destruct (e <=? s) eqn:Hes.
  { exists w. done. }
  unfold resolve_detector. unfold bind at 1. unfold ret at 1.
  destruct (bool_decide (variant det = UNSUPPORTED)) eqn:Hv.
  { apply bool_decide_eq_true in Hv. rewrite visible_rows_unsupported by done.
    exists w. done. }
  destruct (run_fetch_events w card s e det Hr) as (w1 & H1 & Hev1).
  assert (Hr1 : db_reachable (database w1) = true).
  { destruct Hev1 as (-> & _). done. }
  destruct (run_fetch_last w1 card s det Hr1) as (w2 & H2 & Hev2).
  rewrite (evolves_visible _ _ _ _ Hev1) in H2.
  rewrite (run_bind _ _ _ _ _ H1). rewrite (run_bind _ _ _ _ _ H2).
  exists w2. split; [|by eapply evolves_trans].
  destruct (row_to_event <$> last_row_before s (visible_rows w card det)) as [a|]; simpl.
  - unfold run, ret.
    destruct (timeline_walk _ _ _ _ _ _ _) as [[? ?] ?]. done.
  - destruct (bool_decide (_ = [])); [done|].
    unfold run, ret.
    destruct (timeline_walk _ _ _ _ _ _ _) as [[? ?] ?]. done.
Qed.

(** ** The polarity heuristic in a world *)

Lemma run_fetch_sample w det :
  db_reachable (database w) = true →
  variant det ≠ UNSUPPORTED →
  ∃ w', run (_fetch_recent_mapping_sample 200 (Some det)) w = (Ok (recent_sample w), w').
Proof.
  intros Hr Hv. destruct (run_get_schema w Hr) as (w1 & H1 & Hev).
  unfold _fetch_recent_mapping_sample. rewrite (run_bind _ _ _ _ _ H1).
  unfold recent_sample.
  destruct (event_time_col (schema_of w)) as [tc|]; simpl.
  2: { exists w1. done. }
  unfold run, bind, ret. simpl. rewrite bool_decide_false by done.
  destruct Hev as (Hd & _).
  unfold get_cursor. rewrite Hd, Hr. simpl. rewrite ?Hd. eexists. reflexivity.
Qed.

Lemma run_sample_mapping_state w now det :
  db_reachable (database w) = true →
  variant det ≠ UNSUPPORTED →
  (run (sample_mapping_state now det) w).1 = Ok (state_of_sample det (recent_sample w)).
Proof.
  intros Hr Hv. destruct (run_fetch_sample w det Hr Hv) as (w1 & H1).
  unfold sample_mapping_state. rewrite (run_bind _ _ _ _ _ H1). done.
Qed.

Lemma recent_sample_length w : (length (recent_sample w) ≤ 200)%nat.
Proof.
  unfold recent_sample. destruct (is_some _); simpl; [|lia].
  rewrite length_fmap. unfold select_recent_sample. rewrite length_take. lia.
Qed.

Lemma run_get_mapping_state_miss w det :
  db_reachable (database w) = true →
  variant det ≠ UNSUPPORTED →
  inout_swap (settings w) = false →
  mapping_cache_hit w det = false →
  (run (_get_mapping_state (Some det)) w).1 = Ok (state_of_sample det (recent_sample w)).
Proof.
  intros Hr Hv Hswap Hmiss.
  unfold _get_mapping_state, resolve_detector.
  unfold run, bind at 1, ret at 1. rewrite bool_decide_false by done.
  unfold bind at 1, get_world. rewrite Hswap.
  unfold mapping_cache_hit in Hmiss.
  destruct (_MAPPING_CACHE w) as [cached|].
  - destruct (clock w - cache_ts cached <? _MAPPING_CACHE_TTL_SECONDS); simpl in Hmiss.
    + rewrite Hmiss. by apply run_sample_mapping_state.
    + by apply run_sample_mapping_state.
  - by apply run_sample_mapping_state.
Qed.

(** C5. [_should_auto_swap] is false below 50 resolvable events and
    otherwise true exactly when more than 60% of the IN events fall in hours
    0..6 and more than 60% of the OUT events fall in hours 12..23; a sample in
    the 70% pattern swaps and the same sample with the flags reversed does
    not; and without manual override, on a cache miss, the mapping state of a
    supported detector is the one this test decides on the at most 200 most
    recent events, with [autoDetected] equal to [swapApplied]. *)
Theorem polarity_heuristic_spec (sample : list Event) (w : World) (detector : Detector) :
  _should_auto_swap sample = heuristic_spec sample ∧
  (seventy_percent_pattern sample = true →
   _should_auto_swap sample = true ∧
   _should_auto_swap (reverse_flag <$> sample) = false) ∧
  (db_reachable (database w) = true →
   variant detector ≠ UNSUPPORTED →
   inout_swap (settings w) = false →
   mapping_cache_hit w detector = false →
   (run (_get_mapping_state (Some detector)) w).1
   = Ok (state_of_sample detector (recent_sample w))
   ∧ (length (recent_sample w) ≤ 200)%nat).
Proof.
  split; [apply should_auto_swap_is_spec|].
  split; [apply seventy_percent_pattern_swaps|].
  intros Hr Hv Hswap Hmiss. split.
  - by apply run_get_mapping_state_miss.
  - apply recent_sample_length.
Qed.

Lemma polarity_heuristic_spec_witness :
  (seventy_percent_pattern synthetic_sample = true ∧
   _should_auto_swap synthetic_sample = true ∧
   _should_auto_swap (reverse_flag <$> synthetic_sample) = false) ∧
  (run (_get_mapping_state (Some in_out_detector)) synthetic_world).1
  = Ok (mkMappingState swapped true TEVENT_InOut_only true false).
Proof.
  pose proof (polarity_heuristic_spec synthetic_sample synthetic_world in_out_detector)
    as (_ & Hpattern & Hstate).
  split.
  - split; [vm_compute; reflexivity|]. apply Hpattern. vm_compute; reflexivity.
  - destruct Hstate as [-> _].
    + reflexivity.
    + discriminate.
    + reflexivity.
    + reflexivity.
    + vm_compute. reflexivity.
Defined.

(** ** Employees and inputs *)

Lemma lstrip_all_space cs : Forall (λ c, is_space c = true) cs → lstrip cs = [].
Proof. induction 1 as [|c cs Hc _ IH]; simpl; [done|]. by rewrite Hc. Qed.

Lemma strip_blank text :
  Forall (λ c, is_space c = true) (list_ascii_of_string text) → strip text = EmptyString.
Proof.
  intros H. unfold strip, strip_chars. by rewrite (lstrip_all_space _ H).
Qed.

Lemma employees_of_rows_length rows : (length (employees_of_rows rows) ≤ length rows)%nat.
Proof.
  induction rows as [|row rows IH]; simpl; [done|].
  destruct (bool_decide _); simpl; lia.
Qed.

Lemma employees_of_rows_cards rows :
  card_no_of <$> employees_of_rows rows
  = filter (λ card, card ≠ EmptyString) (cleaned_card <$> rows).
Proof.
  induction rows as [|row rows IH]; [done|].
  rewrite fmap_cons, filter_cons. cbn [employees_of_rows]. fold (cleaned_card row).
  destruct (decide (cleaned_card row ≠ EmptyString)) as [Hne|Heq].
  - rewrite bool_decide_false by done. rewrite fmap_cons. cbn [card_no_of]. by rewrite IH.
  - rewrite bool_decide_true by (by destruct (decide (cleaned_card row = EmptyString))).
    done.
Qed.

Lemma employees_of_rows_entries rows :
  Forall (λ e, ∃ row, row ∈ rows ∧ card_no_of e = cleaned_card row
                      ∧ card_no_of e ≠ EmptyString
                      ∧ employee_name e ≠ EmptyString
                      ∧ employee_name e
                        = (if bool_decide (cleaned_name row = EmptyString)
                           then card_no_of e else cleaned_name row))
         (employees_of_rows rows).
Proof.
  induction rows as [|row rows IH]; simpl; [constructor|].
  assert (Hrest : Forall (λ e, ∃ row', row' ∈ row :: rows ∧ card_no_of e = cleaned_card row'
                      ∧ card_no_of e ≠ EmptyString
                      ∧ employee_name e ≠ EmptyString
                      ∧ employee_name e
                        = (if bool_decide (cleaned_name row' = EmptyString)
                           then card_no_of e else cleaned_name row'))
         (employees_of_rows rows)).
  { eapply Forall_impl; [exact IH|]. intros e (row' & Hin & H). exists row'.
    split; [by apply list_elem_of_further|done]. }
  fold (cleaned_card row).
  destruct (bool_decide (cleaned_card row = EmptyString)) eqn:Hc; [done|].
  apply bool_decide_eq_false in Hc.
  constructor; [|done]. exists row. simpl.
  unfold _employee_name_or_card, str_or. fold (cleaned_name row).
  repeat split; try done; [apply list_elem_of_here|].
  destruct (bool_decide (cleaned_name row = EmptyString)) eqn:Hn; [done|].
  by apply bool_decide_eq_false in Hn.
Qed.

Lemma run_fetch_employees w search :
  db_reachable (database w) = true →
  ∃ w', run (fetch_employees search) w
        = (if list_query_accepted w search
           then Ok (employees_of_rows (take 200 (db_employee_list (database w) search)))
           else Raise DBProgrammingError, w').
Proof.
  intros Hr. destruct (run_get_schema w Hr) as (w1 & H1 & (Hd & _)).
  unfold fetch_employees. rewrite (run_bind _ _ _ _ _ H1).
  unfold run, bind, get_cursor, execute, list_query_accepted. rewrite Hd, Hr. simpl.
  rewrite ?Hd. destruct (accepts _ _); eexists; reflexivity.
Qed.

(** C10. On a reachable store that has the columns its query names,
    [fetch_employees] returns at most 200 employees; their card numbers are
    the non-empty cleaned card numbers of the rows, in order, so a row whose
    card is NULL or blank is dropped; and the name of an entry is the cleaned
    name of its row, or the card number when that name is blank. *)
Theorem fetch_employees_bounded (w : World) (search : string) :
  db_reachable (database w) = true →
  list_query_accepted w search = true →
  ∃ employees w',
    run (fetch_employees search) w = (Ok employees, w') ∧
    (length employees ≤ 200)%nat ∧
    (let rows := take 200 (db_employee_list (database w) search) in
     card_no_of <$> employees = filter (λ card, card ≠ EmptyString) (cleaned_card <$> rows) ∧
     Forall (λ e, ∃ row, row ∈ rows ∧ card_no_of e = cleaned_card row
                         ∧ card_no_of e ≠ EmptyString
                         ∧ employee_name e ≠ EmptyString
                         ∧ employee_name e
                           = (if bool_decide (cleaned_name row = EmptyString)
                              then card_no_of e else cleaned_name row))
            employees) ∧
    _clean_text None = EmptyString ∧
    (∀ text, Forall (λ c, is_space c = true) (list_ascii_of_string text) →
             _clean_text (Some text) = EmptyString).
Proof.
  intros Hr Hacc. destruct (run_fetch_employees w search Hr) as (w' & Hrun).
  rewrite Hacc in Hrun.
  eexists _, w'. split; [exact Hrun|]. split.
  { etrans; [apply employees_of_rows_length|]. rewrite length_take. lia. }
  split; [|split; [done|apply strip_blank]].
  split; [apply employees_of_rows_cards|apply employees_of_rows_entries].
Qed.

Lemma fetch_employees_bounded_witness :
  ∃ employees w',
    run (fetch_employees ""%string) staff_world = (Ok employees, w') ∧
    (length employees ≤ 200)%nat ∧
    card_no_of <$> employees = ["1001"; "1004"]%string ∧
    employee_name <$> employees = ["Lina"; "1004"]%string.
Proof.
  destruct (fetch_employees_bounded staff_world ""%string eq_refl eq_refl)
    as (employees & w' & Hrun & Hlen & _).
  exists employees, w'. split; [exact Hrun|]. split; [exact Hlen|].
  vm_compute in Hrun. injection Hrun as <- _. split; reflexivity.
Defined.

(** C9, counterexample. The date 1850-01-01 and the month 1850-01 parse,
    although their year is outside 1900..2100: the daily and monthly reports
    do not raise the 400 error and run their queries. *)
Lemma old_date_is_not_rejected :
  let w := world_of_events 6 [] in
  strptime_date "1850-01-01" = Some (ymd2ord 1850 1 1) ∧
  (ord2ymd (ymd2ord 1850 1 1)).1.1 = 1850 ∧
  is_http400 (run (fetch_daily_report "7" "1850-01-01") w).1 = false ∧
  is_some (value_of (run (fetch_daily_report "7" "1850-01-01") w).1) = true ∧
  query_log (run (fetch_daily_report "7" "1850-01-01") w).2 ≠ [] ∧
  strptime_month "1850-01" = Some (1850, 1) ∧
  is_http400 (run (fetch_monthly_report "7" "1850-01") w).1 = false ∧
  query_log (run (fetch_monthly_report "7" "1850-01") w).2 ≠ [].
Proof. vm_compute. repeat split; discriminate. Qed.

(** C9, amended. A date or month string that does not parse, and a year
    string that is not numeric or lies outside 1900..2100, make the daily,
    monthly and yearly report raise the 400 error with the world unchanged:
    no query has run and no cache has moved. *)
Theorem malformed_input_rejected_before_any_query (w : World) (card_no : string) :
  (∀ date_value, strptime_date date_value = None →
     run (fetch_daily_report card_no date_value) w
     = (Raise (HTTP400 "date must be in YYYY-MM-DD format"), w)) ∧
  (∀ month_value, strptime_month month_value = None →
     run (fetch_monthly_report card_no month_value) w
     = (Raise (HTTP400 "month must be in YYYY-MM format"), w)) ∧
  (∀ year_value, year_rejected year_value = true →
     is_http400 (run (fetch_yearly_report card_no year_value) w).1 = true ∧
     (run (fetch_yearly_report card_no year_value) w).2 = w).
Proof.
  repeat split.
  - intros date_value H. unfold run, fetch_daily_report, bind, _parse_date. by rewrite H.
  - intros month_value H. unfold run, fetch_monthly_report, bind, _month_bounds. by rewrite H.
  - unfold year_rejected in H. unfold run, fetch_yearly_report, bind, _year_bounds.
    destruct (py_int year_value) as [y|]; [|done]. by rewrite H.
  - unfold year_rejected in H. unfold run, fetch_yearly_report, bind, _year_bounds.
    destruct (py_int year_value) as [y|]; [|done]. by rewrite H.
Qed.

Lemma malformed_input_rejected_before_any_query_witness :
  let w := world_of_events 6 [] in
  run (fetch_daily_report "7" "2024-02-30") w
  = (Raise (HTTP400 "date must be in YYYY-MM-DD format"), w) ∧
  run (fetch_monthly_report "7" "2024-13") w
  = (Raise (HTTP400 "month must be in YYYY-MM format"), w) ∧
  is_http400 (run (fetch_yearly_report "7" "1850") w).1 = true ∧
  is_http400 (run (fetch_yearly_report "7" "next") w).1 = true.
Proof.
  pose proof (malformed_input_rejected_before_any_query (world_of_events 6 []) "7")
    as (Hd & Hm & Hy).
  split; [apply Hd; vm_compute; reflexivity|].
  split; [apply Hm; vm_compute; reflexivity|].
  split; [apply Hy; vm_compute; reflexivity|apply Hy; vm_compute; reflexivity].
Defined.

(** ** Stable sorting and the event queries *)

Section sorting.

Context {A : Type} (key : A → Z).

Lemma insert_sorted_elem x l y : y ∈ insert_sorted key x l ↔ y = x ∨ y ∈ l.
Proof.
  induction l as [|z l IH]; simpl.
  - rewrite list_elem_of_singleton, elem_of_nil. tauto.
  - destruct (key x <=? key z).
    + rewrite elem_of_cons. tauto.
    + rewrite !elem_of_cons, IH. tauto.
Qed.

Lemma stable_sort_elem l y : y ∈ stable_sort key l ↔ y ∈ l.
Proof.
  induction l as [|x l IH]; simpl; [done|].
  rewrite insert_sorted_elem, IH, elem_of_cons. tauto.
Qed.

Lemma insert_sorted_ascending x l : ascending key l → ascending key (insert_sorted key x l).
Proof.
  unfold ascending. induction 1 as [|z l Hl IH Hz]; simpl.
  - repeat constructor.
  - destruct (Z.leb_spec (key x) (key z)).
    + constructor; [by constructor|].
      constructor; [done|]. eapply Forall_impl; [exact Hz|]. simpl. lia.
    + constructor; [done|]. apply Forall_forall. intros y Hy.
      apply insert_sorted_elem in Hy as [->|Hy]; [lia|].
      by eapply Forall_forall in Hz.
Qed.

Lemma stable_sort_ascending l : ascending key (stable_sort key l).
Proof.
  induction l as [|x l IH]; simpl; [constructor|]. by apply insert_sorted_ascending.
Qed.

Lemma insert_sorted_head x l :
  Forall (λ y, key x ≤ key y) l → insert_sorted key x l = x :: l.
Proof.
  destruct l as [|z l]; [done|]. intros H. inversion H; subst. simpl.
  destruct (Z.leb_spec (key x) (key z)); [done|lia].
Qed.

Lemma stable_sort_id l : ascending key l → stable_sort key l = l.
Proof.
  induction 1 as [|x l Hl IH Hx]; [done|]. simpl. rewrite IH.
  by apply insert_sorted_head.
Qed.

Lemma insert_sorted_app_l x l1 l2 :
  Forall (λ y, key x ≤ key y) l2 →
  insert_sorted key x (l1 ++ l2) = insert_sorted key x l1 ++ l2.
Proof.
  intros H2. induction l1 as [|z l1 IH]; simpl.
  - by apply insert_sorted_head.
  - destruct (key x <=? key z); [done|]. by rewrite IH.
Qed.

Lemma insert_sorted_app_r x l1 l2 :
  Forall (λ y, key y < key x) l1 →
  insert_sorted key x (l1 ++ l2) = l1 ++ insert_sorted key x l2.
Proof.
  induction 1 as [|z l1 Hz Hl IH]; simpl; [done|].
  destruct (Z.leb_spec (key x) (key z)); [lia|]. by rewrite IH.
Qed.

Lemma stable_sort_filter_split (P Q R : A → Prop)
    `{∀ x, Decision (P x)} `{∀ x, Decision (Q x)} `{∀ x, Decision (R x)} l :
  (∀ x, R x ↔ P x ∨ Q x) →
  (∀ x y, P x → Q y → key x < key y) →
  stable_sort key (filter R l)
  = stable_sort key (filter P l) ++ stable_sort key (filter Q l).
Proof.
  intros HR HPQ. induction l as [|x l IH]; [done|].
  rewrite !filter_cons.
  destruct (decide (P x)) as [HP|HP]; destruct (decide (Q x)) as [HQ|HQ];
    destruct (decide (R x)) as [Hr|Hr]; simpl;
    try (exfalso; apply Hr, HR; auto; fail);
    try (exfalso; apply HR in Hr as [|]; auto; fail).
  - specialize (HPQ x x HP HQ). lia.
  - rewrite IH. symmetry. rewrite insert_sorted_app_l; [done|].
    apply Forall_forall. intros y Hy. rewrite stable_sort_elem in Hy.
    apply list_elem_of_filter in Hy as [Hy _]. specialize (HPQ x y HP Hy). lia.
  - rewrite IH. symmetry. rewrite insert_sorted_app_r; [done|].
    apply Forall_forall. intros y Hy. rewrite stable_sort_elem in Hy.
    apply list_elem_of_filter in Hy as [Hy _]. by apply HPQ.
  - done.
Qed.

End sorting.

Lemma window_rows_split s m e rows :
  s ≤ m → m ≤ e → window_rows s e rows = window_rows s m rows ++ window_rows m e rows.
Proof.
  intros Hsm Hme. unfold window_rows.
  apply (stable_sort_filter_split fst
           (λ r, s ≤ r.1 ∧ r.1 < m) (λ r, m ≤ r.1 ∧ r.1 < e) (λ r, s ≤ r.1 ∧ r.1 < e)).
  - intros x. lia.
  - intros x y. lia.
Qed.

Lemma rows_before_split s m rows :
  s ≤ m →
  stable_sort fst (filter (λ r, r.1 < m) rows)
  = stable_sort fst (filter (λ r, r.1 < s) rows) ++ window_rows s m rows.
Proof.
  intros Hsm. unfold window_rows.
  apply (stable_sort_filter_split fst
           (λ r, r.1 < s) (λ r, s ≤ r.1 ∧ r.1 < m) (λ r, r.1 < m)).
  - intros x. lia.
  - intros x y. lia.
Qed.

Lemma last_app_option {A} (l1 l2 : list A) :
  last (l1 ++ l2) = last (option_list (last l1) ++ l2).
Proof.
  destruct l2 as [|x l2 _] using rev_ind.
  - rewrite !app_nil_r. destruct (last l1); done.
  - rewrite !app_assoc, !last_snoc. done.
Qed.

Lemma last_row_before_split s m rows :
  s ≤ m →
  last_row_before m rows = last (option_list (last_row_before s rows) ++ window_rows s m rows).
Proof.
  intros Hsm. unfold last_row_before. rewrite (rows_before_split s m) by done.
  apply last_app_option.
Qed.

(** ** Minutes of a segment *)

Lemma us_per_day_val : us_per_day = 86400000000.
Proof. reflexivity. Qed.
Lemma us_per_minute_val : us_per_minute = 60000000.
Proof. reflexivity. Qed.

Lemma date_of_bounds t : date_of t * us_per_day ≤ t < (date_of t + 1) * us_per_day.
Proof.
  unfold date_of. rewrite us_per_day_val.
  pose proof (Z.div_mod t 86400000000 ltac:(lia)).
  pose proof (Z.mod_pos_bound t 86400000000 ltac:(lia)). lia.
Qed.

Lemma date_of_unique t d : d * us_per_day ≤ t < (d + 1) * us_per_day → date_of t = d.
Proof.
  intros H. pose proof (date_of_bounds t) as Hb. rewrite us_per_day_val in *.
  nia.
Qed.

Lemma date_of_mono a b : a ≤ b → date_of a ≤ date_of b.
Proof. intros H. unfold date_of. apply Z.div_le_mono; [rewrite us_per_day_val; lia|done]. Qed.

Lemma whole_minutes_mono a b a' b' :
  a' ≤ a → b ≤ b' → whole_minutes a b ≤ whole_minutes a' b'.
Proof.
  intros. unfold whole_minutes. apply Z.div_le_mono; [rewrite us_per_minute_val; lia|lia].
Qed.

Lemma whole_minutes_nonpos a b : b ≤ a → whole_minutes a b ≤ 0.
Proof.
  intros. unfold whole_minutes. rewrite us_per_minute_val.
  assert ((b - a) / 60000000 ≤ 0 / 60000000) by (apply Z.div_le_mono; lia).
  rewrite Z.div_0_l in *; lia.
Qed.

Lemma chunk_minutes_nonneg c e d : 0 ≤ chunk_minutes c e d.
Proof. unfold chunk_minutes. lia. Qed.

Lemma chunk_minutes_mono c e c' e' d :
  c' ≤ c → e ≤ e' → chunk_minutes c e d ≤ chunk_minutes c' e' d.
Proof.
  intros. unfold chunk_minutes.
  pose proof (whole_minutes_mono (Z.max c (d * us_per_day)) (Z.min e ((d + 1) * us_per_day))
                (Z.max c' (d * us_per_day)) (Z.min e' ((d + 1) * us_per_day))). lia.
Qed.

Lemma chunk_minutes_empty c e d : e ≤ c → chunk_minutes c e d = 0.
Proof.
  intros. unfold chunk_minutes.
  pose proof (whole_minutes_nonpos (Z.max c (d * us_per_day))
                (Z.min e ((d + 1) * us_per_day))).
  lia.
Qed.

Lemma minutes_on_insert side d k b m :
  minutes_on side d (<[k := b]> m)
  = if decide (k = d) then side_minutes side b else minutes_on side d m.
Proof.
  unfold minutes_on. rewrite lookup_insert. destruct (decide (k = d)); done.
Qed.

Lemma accumulate_chunks_minutes side d fuel : ∀ m state c e,
  (c < e → date_of e - date_of c + 1 ≤ Z.of_nat fuel) →
  minutes_on side d (accumulate_chunks fuel m state c e)
  = minutes_on side d m + (if credited side state then chunk_minutes c e d else 0).
Proof.
  induction fuel as [|fuel IH]; intros m state c e Hfuel.
  - simpl. destruct (Z.lt_ge_cases c e) as [Hlt|Hge].
    + specialize (Hfuel Hlt). pose proof (date_of_mono c e). lia.
    + rewrite chunk_minutes_empty by done. destruct (credited side state); lia.
  - simpl. destruct (Z.ltb_spec c e) as [Hlt|Hge].
    2: { rewrite chunk_minutes_empty by done. destruct (credited side state); lia. }
    specialize (Hfuel Hlt).
    pose proof (date_of_bounds c) as Hc.
    unfold midnight_of, datetime_combine_min, timedelta_days.
    replace (date_of c * us_per_day + 1 * us_per_day)
      with ((date_of c + 1) * us_per_day) by lia.
    set (next_day := (date_of c + 1) * us_per_day).
    set (chunk_end := Z.min e next_day).
    rewrite IH.
    2: { intros Hlt'. assert (chunk_end = next_day) as Hce by (subst chunk_end; lia).
         rewrite Hce. rewrite (date_of_unique next_day (date_of c + 1)); [lia|].
         subst next_day. rewrite us_per_day_val. lia. }
    assert (Hrest : chunk_minutes chunk_end e d
                    = if decide (date_of c = d) then 0 else chunk_minutes c e d).
    { destruct (decide (date_of c = d)) as [<-|Hne].
      - unfold chunk_minutes. fold next_day.
        pose proof (whole_minutes_nonpos (Z.max chunk_end (date_of c * us_per_day))
                      (Z.min e next_day)).
        subst chunk_end. lia.
      - destruct (Z.lt_ge_cases d (date_of c)).
        + unfold chunk_minutes.
          assert ((d + 1) * us_per_day ≤ date_of c * us_per_day)
            by (rewrite us_per_day_val; lia).
          pose proof (whole_minutes_nonpos (Z.max chunk_end (d * us_per_day))
                        (Z.min e ((d + 1) * us_per_day))).
          pose proof (whole_minutes_nonpos (Z.max c (d * us_per_day))
                        (Z.min e ((d + 1) * us_per_day))).
          subst chunk_end next_day. lia.
        + unfold chunk_minutes.
          assert (next_day ≤ d * us_per_day) by (subst next_day; rewrite us_per_day_val; lia).
          replace (Z.max chunk_end (d * us_per_day)) with (d * us_per_day)
            by (subst chunk_end; lia).
          replace (Z.max c (d * us_per_day)) with (d * us_per_day) by lia. done. }
    rewrite Hrest.
    assert (Hhere : chunk_minutes c e (date_of c) = Z.max 0 (whole_minutes c chunk_end)).
    { unfold chunk_minutes. fold next_day. fold chunk_end. f_equal. f_equal. lia. }
    destruct (Z.ltb_spec 0 (whole_minutes c chunk_end)) as [Hpos|Hnon].
    + rewrite minutes_on_insert.
      destruct (decide (date_of c = d)) as [<-|Hne]; [|done].
      rewrite Hhere. fold (minutes_on side (date_of c) m).
      unfold minutes_on, credited.
      destruct (m !! date_of c) as [b|]; simpl;
        destruct side; simpl; destruct (Z.eqb_spec state 1); destruct (Z.eqb_spec state 0);
        simpl; lia.
    + destruct (decide (date_of c = d)) as [<-|Hne]; [|done].
      rewrite Hhere. destruct (credited side state); lia.
Qed.

Lemma accumulate_segment_minutes side d m state x y a b :
  minutes_on side d (_accumulate_segment_minutes m state x y a b)
  = minutes_on side d m
    + (if credited side state then chunk_minutes (Z.max x a) (Z.min y b) d else 0).
Proof.
  unfold _accumulate_segment_minutes.
  destruct (Z.leb_spec (Z.min y b) (Z.max x a)) as [Hle|Hgt].
  - rewrite chunk_minutes_empty by done. destruct (credited side state); lia.
  - apply accumulate_chunks_minutes. intros _. unfold chunk_fuel.
    pose proof (date_of_mono (Z.max x a) (Z.min y b)). lia.
Qed.

(** The fuel of the loop is enough: more fuel changes nothing. *)
Lemma accumulate_chunks_fuel fuel : ∀ extra m state c e,
  (c < e → date_of e - date_of c + 1 ≤ Z.of_nat fuel) →
  accumulate_chunks (fuel + extra) m state c e = accumulate_chunks fuel m state c e.
Proof.
  induction fuel as [|fuel IH]; intros extra m state c e Hfuel.
  - simpl. destruct extra as [|extra]; [done|]. simpl.
    destruct (Z.ltb_spec c e) as [Hlt|]; [|done].
    specialize (Hfuel Hlt). pose proof (date_of_mono c e ltac:(lia)). lia.
  - simpl. destruct (Z.ltb_spec c e) as [Hlt|]; [|done].
    specialize (Hfuel Hlt).
    apply IH. pose proof (date_of_bounds c) as Hc.
    unfold midnight_of, datetime_combine_min, timedelta_days.
    replace (date_of c * us_per_day + 1 * us_per_day)
      with ((date_of c + 1) * us_per_day) by lia.
    intros Hlt'.
    rewrite Z.min_r by lia.
    rewrite (date_of_unique ((date_of c + 1) * us_per_day) (date_of c + 1)); [lia|].
    rewrite us_per_day_val. lia.
Qed.

(** ** The timeline walk *)

Section walk.

Context (swap : bool).

Lemma timeline_walk_app s e l1 l2 st seg tot :
  timeline_walk swap s e (l1 ++ l2) st seg tot
  = let '(st', seg', tot') := timeline_walk swap s e l1 st seg tot in
    timeline_walk swap s e l2 st' seg' tot'.
Proof.
  revert st seg tot. induction l1 as [|ev l1 IH]; intros st seg tot; simpl.
  - done.
  - destruct (_event_state ev swap) as [ns|]; [|apply IH].
    destruct st as [cur|]; [|apply IH].
    destruct (ns =? cur); apply IH.
Qed.

(** Segments that end at or before [m] are clipped alike by the windows
    [[s, m)] and [[s, e)]. *)
Lemma accumulate_window_end tot state x y s m e :
  y ≤ m → m ≤ e →
  _accumulate_segment_minutes tot state x y s e
  = _accumulate_segment_minutes tot state x y s m.
Proof.
  intros. unfold _accumulate_segment_minutes.
  replace (Z.min y e) with y by lia. replace (Z.min y m) with y by lia. done.
Qed.

Lemma timeline_walk_window_end s m e l st seg tot :
  m ≤ e → Forall (λ ev, event_time ev ≤ m) l →
  timeline_walk swap s e l st seg tot = timeline_walk swap s m l st seg tot.
Proof.
  intros Hme Hl. revert st seg tot.
  induction Hl as [|ev l Hev Hl IH]; intros st seg tot; simpl; [done|].
  destruct (_event_state ev swap) as [ns|]; [|apply IH].
  destruct st as [cur|]; [|apply IH].
  destruct (ns =? cur); [apply IH|].
  destruct seg as [x|]; [|apply IH].
  rewrite (accumulate_window_end _ _ _ _ s m e) by done. apply IH.
Qed.

Lemma timeline_walk_seeded s e bound l st seg tot :
  Forall (λ ev, event_time ev ≤ bound) l → seeded bound st seg →
  seeded bound (timeline_walk swap s e l st seg tot).1.1
               (timeline_walk swap s e l st seg tot).1.2.
Proof.
  intros Hl. revert st seg tot.
  induction Hl as [|ev l Hev Hl IH]; intros st seg tot Hs; simpl; [done|].
  destruct (_event_state ev swap) as [ns|]; [|by apply IH].
  destruct st as [cur|].
  - destruct (ns =? cur); [by apply IH|]. apply IH. right. eauto.
  - apply IH. right. eauto.
Qed.

Lemma timeline_walk_last_state s e l a cur st seg tot :
  last l = Some a → _event_state a swap = Some cur →
  (timeline_walk swap s e l st seg tot).1.1 = Some cur.
Proof.
  intros Hlast Ha. destruct l as [|x l _] using rev_ind; [done|].
  rewrite last_snoc in Hlast. injection Hlast as ->.
  rewrite timeline_walk_app.
  destruct (timeline_walk swap s e l st seg tot) as [[st' seg'] tot']. simpl.
  rewrite Ha. destruct st' as [c|]; [|done].
  destruct (Z.eqb_spec cur c) as [->|]; done.
Qed.

Lemma timeline_walk_follows s m e (offset : bool → date → Z) l :
  s ≤ m →
  ∀ st1 seg1 tot1 st2 seg2 tot2,
    follows s m st1 seg1 st2 seg2 →
    (∀ side d, minutes_on side d tot2 + offset side d ≤ minutes_on side d tot1) →
    ∀ side d,
      minutes_on side d (timeline_walk swap m e l st2 seg2 tot2).2 + offset side d
      ≤ minutes_on side d (timeline_walk swap s e l st1 seg1 tot1).2.
Proof.
  intros Hsm. induction l as [|ev l IH]; intros st1 seg1 tot1 st2 seg2 tot2 Hf Htot; simpl.
  - done.
  - destruct (_event_state ev swap) as [ns|]; [|by apply IH].
    destruct Hf as [(-> & -> & Hseed) | (cur & x1 & x2 & -> & -> & -> & -> & Hx)].
    + destruct Hseed as [(-> & ->) | (cur & x & -> & -> & Hx)].
      * apply IH; [|done]. right. exists ns, (event_time ev), (event_time ev).
        repeat split; try done. lia.
      * destruct (Z.eqb_spec ns cur) as [->|Hne].
        -- apply IH; [|done]. right. exists cur, x, (event_time ev).
           repeat split; try done. lia.
        -- apply IH.
           ++ right. exists ns, (event_time ev), (event_time ev).
              repeat split; try done. lia.
           ++ intros side d. rewrite accumulate_segment_minutes.
              specialize (Htot side d).
              pose proof (chunk_minutes_nonneg (Z.max x s) (Z.min (event_time ev) e) d).
              destruct (credited side cur); lia.
    + destruct (Z.eqb_spec ns cur) as [->|Hne].
      * apply IH; [|done]. right. exists cur, x1, x2. done.
      * apply IH.
        -- right. exists ns, (event_time ev), (event_time ev).
           repeat split; try done. lia.
        -- intros side d. rewrite !accumulate_segment_minutes.
           specialize (Htot side d).
           pose proof (chunk_minutes_mono (Z.max x2 m) (Z.min (event_time ev) e)
                         (Z.max x1 s) (Z.min (event_time ev) e) d Hx ltac:(lia)).
           destruct (credited side cur); lia.
Qed.

Lemma minutes_on_empty side d : minutes_on side d ∅ = 0.
Proof. unfold minutes_on. rewrite lookup_empty. by destruct side. Qed.

(** The heart of the comparison: the whole window walks [before ++ after];
    the first sub-range walks [before], the second walks [after] behind the
    last event of [before] as its anchor. *)
Lemma walk_split_bound s m e (before after : list Event) side d :
  s ≤ m → m ≤ e →
  Forall (λ ev, event_time ev ≤ m) before →
  minutes_on side d (timeline_walk swap s m before None None ∅).2
  + minutes_on side d
      (timeline_walk swap m e (option_list (last before) ++ after) None None ∅).2
  ≤ minutes_on side d (timeline_walk swap s e (before ++ after) None None ∅).2.
Proof.
  intros Hsm Hme Hb.
  rewrite (timeline_walk_app s e before after).
  rewrite (timeline_walk_app m e (option_list (last before)) after).
  rewrite (timeline_walk_window_end s m e before) by done.
  pose proof (timeline_walk_seeded s m m before None None ∅ Hb (or_introl (conj eq_refl eq_refl)))
    as Hseed.
  pose proof (λ a cur, timeline_walk_last_state s m before a cur None None ∅) as Hlast.
  destruct (timeline_walk swap s m before None None ∅) as [[st1 seg1] tot1] eqn:Ew1.
  simpl in Hseed, Hlast. simpl.
  destruct (timeline_walk swap m e (option_list (last before)) None None ∅)
    as [[st2 seg2] tot2] eqn:Ew2.
  assert (Htot2 : tot2 = ∅ ∧ follows s m st1 seg1 st2 seg2).
  { destruct (last before) as [a|] eqn:Ea; simpl in Ew2.
    - destruct (_event_state a swap) as [cur|] eqn:Est.
      + injection Ew2 as <- <- <-. split; [done|].
        specialize (Hlast a cur eq_refl Est). subst st1.
        destruct Hseed as [(? & _) | (cur' & x & [= <-] & -> & Hx)]; [done|].
        right. exists cur, x, (event_time a). repeat split; try done.
        assert (event_time a ≤ m).
        { eapply Forall_forall in Hb; [exact Hb|]. apply last_Some_elem_of. done. }
        lia.
      + injection Ew2 as <- <- <-. split; [done|]. left. done.
    - injection Ew2 as <- <- <-. split; [done|]. left. done. }
  destruct Htot2 as [-> Hf].
  pose proof (timeline_walk_follows s m e (λ side d, minutes_on side d tot1) after Hsm
                st1 seg1 tot1 st2 seg2 ∅ Hf) as H.
  rewrite Z.add_comm. apply H.
  intros side' d'. rewrite minutes_on_empty. lia.
Qed.

End walk.

(** ** Sums over the days *)

Lemma sum_minutes_in m : sum_in_minutes m = sum_minutes true m.
Proof. reflexivity. Qed.
Lemma sum_minutes_out m : sum_out_minutes m = sum_minutes false m.
Proof. reflexivity. Qed.

Lemma sum_minutes_empty side : sum_minutes side ∅ = 0.
Proof. unfold sum_minutes. by rewrite map_fold_empty. Qed.

Lemma sum_minutes_insert side k b (m : gmap date Bucket) :
  m !! k = None → sum_minutes side (<[k := b]> m) = sum_minutes side m + side_minutes side b.
Proof.
  intros Hk. unfold sum_minutes. rewrite map_fold_insert_L; [done| |done].
  intros. lia.
Qed.

Lemma sum_minutes_delete side k (m : gmap date Bucket) :
  sum_minutes side m = sum_minutes side (delete k m) + minutes_on side k m.
Proof.
  unfold minutes_on. destruct (m !! k) as [b|] eqn:Hk; simpl.
  - rewrite <- (insert_delete_id m k b Hk) at 1.
    rewrite sum_minutes_insert; [done|]. apply lookup_delete_eq.
  - rewrite delete_id by done. destruct side; simpl; lia.
Qed.

Lemma minutes_on_delete side d k (m : gmap date Bucket) :
  minutes_on side d (delete k m) = if decide (k = d) then 0 else minutes_on side d m.
Proof.
  unfold minutes_on. rewrite lookup_delete. destruct (decide (k = d)); [by destruct side|done].
Qed.

Lemma nonneg_delete k m : nonneg_totals m → nonneg_totals (delete k m).
Proof.
  intros H side d. rewrite minutes_on_delete. destruct (decide (k = d)); [lia|apply H].
Qed.

Lemma sum_minutes_nonneg side m : nonneg_totals m → 0 ≤ sum_minutes side m.
Proof.
  induction m as [|k b m Hk _ IH] using map_first_key_ind.
  - intros _. by rewrite sum_minutes_empty.
  - intros Hn. rewrite sum_minutes_insert by done.
    assert (0 ≤ side_minutes side b).
    { specialize (Hn side k). rewrite minutes_on_insert in Hn.
      by destruct (decide (k = k)). }
    assert (nonneg_totals m).
    { intros side' d. specialize (Hn side' d). rewrite minutes_on_insert in Hn.
      destruct (decide (k = d)) as [<-|]; [|done].
      unfold minutes_on. rewrite Hk. by destruct side'. }
    specialize (IH ltac:(done)). lia.
Qed.

Lemma sum_minutes_mono side m1 : ∀ m2,
  nonneg_totals m2 →
  (∀ d, minutes_on side d m1 ≤ minutes_on side d m2) →
  sum_minutes side m1 ≤ sum_minutes side m2.
Proof.
  induction m1 as [|k b m1 Hk _ IH] using map_first_key_ind; intros m2 Hn Hle.
  - rewrite sum_minutes_empty. by apply sum_minutes_nonneg.
  - rewrite sum_minutes_insert by done.
    rewrite (sum_minutes_delete side k m2).
    pose proof (Hle k) as Hlek. rewrite minutes_on_insert in Hlek.
    destruct (decide (k = k)); [|done].
    assert (sum_minutes side m1 ≤ sum_minutes side (delete k m2)); [|lia].
    apply IH; [by apply nonneg_delete|].
    intros d. rewrite minutes_on_delete. specialize (Hle d).
    rewrite minutes_on_insert in Hle.
    destruct (decide (k = d)) as [<-|]; [|done].
    unfold minutes_on. rewrite Hk. destruct side; simpl; lia.
Qed.

Lemma sum_minutes_add side m3 : ∀ m1 m2,
  nonneg_totals m1 → nonneg_totals m2 →
  (∀ d, minutes_on side d m3 = minutes_on side d m1 + minutes_on side d m2) →
  sum_minutes side m3 = sum_minutes side m1 + sum_minutes side m2.
Proof.
  induction m3 as [|k b m3 Hk _ IH] using map_first_key_ind; intros m1 m2 Hn1 Hn2 Heq.
  - rewrite sum_minutes_empty.
    assert (sum_minutes side m1 ≤ sum_minutes side ∅).
    { apply sum_minutes_mono; [intros ? ?; rewrite minutes_on_empty; lia|].
      intros d. specialize (Heq d). rewrite !minutes_on_empty in *.
      specialize (Hn2 side d). lia. }
    assert (sum_minutes side m2 ≤ sum_minutes side ∅).
    { apply sum_minutes_mono; [intros ? ?; rewrite minutes_on_empty; lia|].
      intros d. specialize (Heq d). rewrite !minutes_on_empty in *.
      specialize (Hn1 side d). lia. }
    rewrite sum_minutes_empty in *.
    pose proof (sum_minutes_nonneg side m1 Hn1). pose proof (sum_minutes_nonneg side m2 Hn2). lia.
  - rewrite sum_minutes_insert by done.
    rewrite (sum_minutes_delete side k m1), (sum_minutes_delete side k m2).
    rewrite (IH (delete k m1) (delete k m2)).
    + pose proof (Heq k) as Hk'. rewrite minutes_on_insert in Hk'.
      destruct (decide (k = k)); [|done]. lia.
    + by apply nonneg_delete.
    + by apply nonneg_delete.
    + intros d. rewrite !minutes_on_delete. specialize (Heq d).
      rewrite minutes_on_insert in Heq.
      destruct (decide (k = d)) as [<-|]; [|done].
      unfold minutes_on. rewrite Hk. destruct side; simpl; lia.
Qed.

Lemma minutes_on_merge side d m1 m2 :
  minutes_on side d (merge_day_totals m1 m2) = minutes_on side d m1 + minutes_on side d m2.
Proof.
  unfold minutes_on, merge_day_totals. rewrite lookup_union_with.
  destruct (m1 !! d) as [b1|], (m2 !! d) as [b2|]; destruct side; simpl; lia.
Qed.

Lemma sum_minutes_merge side m1 m2 :
  nonneg_totals m1 → nonneg_totals m2 →
  sum_minutes side (merge_day_totals m1 m2) = sum_minutes side m1 + sum_minutes side m2.
Proof.
  intros. apply sum_minutes_add; try done. intros d. apply minutes_on_merge.
Qed.

(** ** Period totals over a partition *)

Lemma window_rows_bounds s e rows r : r ∈ window_rows s e rows → s ≤ r.1 < e.
Proof.
  unfold window_rows. rewrite stable_sort_elem. intros H.
  by apply list_elem_of_filter in H as [H _].
Qed.

Lemma last_row_before_bound s rows r : last_row_before s rows = Some r → r.1 < s.
Proof.
  unfold last_row_before. intros H. apply last_Some_elem_of in H.
  rewrite stable_sort_elem in H. by apply list_elem_of_filter in H as [H _].
Qed.

Lemma timeline_rows_ascending rows s e : ascending fst (timeline_rows rows s e).
Proof.
  unfold timeline_rows.
  pose proof (stable_sort_ascending fst (filter (λ r, s ≤ r.1 ∧ r.1 < e) rows)) as Hw.
  fold (window_rows s e rows) in Hw.
  destruct (last_row_before s rows) as [a|] eqn:Ea; simpl; [|done].
  constructor; [done|]. apply Forall_forall. intros r Hr.
  apply window_rows_bounds in Hr. apply last_row_before_bound in Ea. simpl.
  unfold datetime in *. lia.
Qed.

Lemma ascending_fmap_event (l : list (datetime * option Z)) :
  ascending fst l → ascending event_time (row_to_event <$> l).
Proof.
  unfold ascending. induction 1 as [|r l Hl IH Hr]; simpl; constructor; [done|].
  apply Forall_fmap. eapply Forall_impl; [exact Hr|]. done.
Qed.

Lemma timeline_rows_bound rows s e :
  s ≤ e → Forall (λ ev, event_time ev ≤ e) (row_to_event <$> timeline_rows rows s e).
Proof.
  intros Hse. apply Forall_fmap, Forall_forall. intros r Hr. simpl.
  unfold timeline_rows in Hr. apply elem_of_app in Hr as [Hr|Hr].
  - destruct (last_row_before s rows) as [a|] eqn:Ea; simpl in Hr.
    + apply list_elem_of_singleton in Hr as ->. apply last_row_before_bound in Ea.
      unfold datetime in *. lia.
    + by apply elem_of_nil in Hr.
  - apply window_rows_bounds in Hr. unfold datetime in *. lia.
Qed.

Lemma totals_of_empty : totals_of_day_totals ∅ = zero_totals.
Proof. reflexivity. Qed.

(** What [_compute_period_segment_totals] computes on a proper window: the
    walk over the anchor and the window's events. *)
Lemma period_totals_of_rows_walk rows s e swap :
  s < e →
  period_totals_of_rows rows s e swap
  = totals_of_day_totals
      (timeline_walk swap s e (row_to_event <$> timeline_rows rows s e) None None ∅).2.
Proof.
  intros Hse. unfold period_totals_of_rows.
  destruct (Z.leb_spec e s); [lia|].
  pose proof (ascending_fmap_event _ (timeline_rows_ascending rows s e)) as Hasc.
  assert (Htl : match row_to_event <$> last_row_before s rows with
                | Some a => a :: (row_to_event <$> window_rows s e rows)
                | None => row_to_event <$> window_rows s e rows
                end = row_to_event <$> timeline_rows rows s e).
  { unfold timeline_rows. by destruct (last_row_before s rows). }
  rewrite Htl. destruct (row_to_event <$> timeline_rows rows s e) as [|ev l] eqn:El.
  - rewrite bool_decide_true by done. done.
  - rewrite bool_decide_false by done.
    rewrite (stable_sort_id event_time) by done. done.
Qed.

Lemma per_day_of_rows rows s e swap :
  per_day (period_totals_of_rows rows s e swap)
  = if e <=? s then ∅
    else (timeline_walk swap s e (row_to_event <$> timeline_rows rows s e) None None ∅).2.
Proof.
  destruct (Z.leb_spec e s) as [Hle|Hlt].
  - unfold period_totals_of_rows. destruct (Z.leb_spec e s); [done|lia].
  - by rewrite period_totals_of_rows_walk.
Qed.

Lemma timeline_rows_split rows s m e :
  s ≤ m → m ≤ e →
  timeline_rows rows s e = timeline_rows rows s m ++ window_rows m e rows
  ∧ timeline_rows rows m e = option_list (last (timeline_rows rows s m)) ++ window_rows m e rows.
Proof.
  intros Hsm Hme. unfold timeline_rows. split.
  - rewrite (window_rows_split s m e) by done. by rewrite app_assoc.
  - by rewrite (last_row_before_split s m).
Qed.

Lemma per_day_split_bound rows s m e swap side d :
  s ≤ m → m ≤ e →
  minutes_on side d (per_day (period_totals_of_rows rows s m swap))
  + minutes_on side d (per_day (period_totals_of_rows rows m e swap))
  ≤ minutes_on side d (per_day (period_totals_of_rows rows s e swap)).
Proof.
  intros Hsm Hme. rewrite !per_day_of_rows.
  destruct (Z.leb_spec m s) as [Hms|Hms].
  { assert (m = s) as -> by lia. rewrite minutes_on_empty. lia. }
  destruct (Z.leb_spec e m) as [Hem|Hem].
  { assert (e = m) as -> by lia. destruct (Z.leb_spec m s); [lia|].
    rewrite minutes_on_empty. lia. }
  destruct (Z.leb_spec e s); [lia|].
  destruct (timeline_rows_split rows s m e Hsm Hme) as [Hwhole Hsecond].
  rewrite Hwhole, Hsecond. rewrite !fmap_app.
  replace (row_to_event <$> option_list (last (timeline_rows rows s m)))
    with (option_list (last (row_to_event <$> timeline_rows rows s m))).
  2: { rewrite fmap_last. by destruct (last (timeline_rows rows s m)). }
  apply walk_split_bound; [done|done|]. by apply timeline_rows_bound.
Qed.

Lemma timeline_walk_nonneg swap s e l : ∀ st seg tot,
  nonneg_totals tot → nonneg_totals (timeline_walk swap s e l st seg tot).2.
Proof.
  induction l as [|ev l IH]; intros st seg tot Hn; simpl; [done|].
  destruct (_event_state ev swap) as [ns|]; [|by apply IH].
  destruct st as [cur|]; [|by apply IH].
  destruct (ns =? cur); [by apply IH|].
  destruct seg as [x|]; [|by apply IH].
  apply IH. intros side d. rewrite accumulate_segment_minutes.
  specialize (Hn side d).
  pose proof (chunk_minutes_nonneg (Z.max x s) (Z.min (event_time ev) e) d).
  destruct (credited side cur); lia.
Qed.

Lemma per_day_nonneg rows s e swap :
  nonneg_totals (per_day (period_totals_of_rows rows s e swap)).
Proof.
  rewrite per_day_of_rows. destruct (e <=? s).
  - intros side d. rewrite minutes_on_empty. lia.
  - apply timeline_walk_nonneg. intros side d. rewrite minutes_on_empty. lia.
Qed.

Lemma total_minutes_of_rows side rows s e swap :
  total_minutes side (period_totals_of_rows rows s e swap)
  = sum_minutes side (per_day (period_totals_of_rows rows s e swap)).
Proof.
  unfold period_totals_of_rows. destruct (e <=? s).
  { destruct side; symmetry; apply sum_minutes_empty. }
  destruct (bool_decide _).
  { destruct side; symmetry; apply sum_minutes_empty. }
  destruct side; reflexivity.
Qed.

Lemma total_split_bound rows s m e swap side :
  s ≤ m → m ≤ e →
  total_minutes side (period_totals_of_rows rows s m swap)
  + total_minutes side (period_totals_of_rows rows m e swap)
  ≤ total_minutes side (period_totals_of_rows rows s e swap).
Proof.
  intros Hsm Hme. rewrite !total_minutes_of_rows.
  rewrite <- sum_minutes_merge by apply per_day_nonneg.
  apply sum_minutes_mono; [apply per_day_nonneg|].
  intros d. rewrite minutes_on_merge. by apply per_day_split_bound.
Qed.

Lemma in_order_le start cuts end_ : in_order start cuts end_ = true → start ≤ end_.
Proof.
  revert start. induction cuts as [|m rest IH]; intros start; simpl.
  - lia.
  - intros H. apply andb_true_iff in H as [H1 H2]. apply IH in H2. lia.
Qed.

Lemma partition_bound rows swap (obs : PeriodTotals → Z) cuts :
  (∀ s m e, s ≤ m → m ≤ e →
     obs (period_totals_of_rows rows s m swap) + obs (period_totals_of_rows rows m e swap)
     ≤ obs (period_totals_of_rows rows s e swap)) →
  ∀ start end_,
    in_order start cuts end_ = true →
    sum_list ((λ range, obs (period_totals_of_rows rows range.1 range.2 swap))
                <$> sub_ranges start cuts end_)
    ≤ obs (period_totals_of_rows rows start end_ swap).
Proof.
  intros Hbin. induction cuts as [|m rest IH]; intros start end_ Hord; simpl.
  - lia.
  - simpl in Hord. apply andb_true_iff in Hord as [H1 H2].
    specialize (IH m end_ H2). pose proof (in_order_le _ _ _ H2).
    specialize (Hbin start m end_ ltac:(lia) ltac:(lia)). unfold fmap in *. lia.
Qed.

(** C3, counterexample. IN on 2024-01-01 10:00 and OUT on 2024-01-02 10:00:
    the window of both days has 1440 IN minutes, 840 of them on the first
    day; its two days taken apart have 0 and 600. *)
Lemma segment_totals_not_additive :
  let whole := period_run long_shift_world "7" false in_out_detector
                 (at_time 2024 1 1 0 0, at_time 2024 1 3 0 0) in
  let first := period_run long_shift_world "7" false in_out_detector
                 (at_time 2024 1 1 0 0, at_time 2024 1 2 0 0) in
  let second := period_run long_shift_world "7" false in_out_detector
                  (at_time 2024 1 2 0 0, at_time 2024 1 3 0 0) in
  totalInMinutes <$> value_of whole = Some 1440 ∧
  totalInMinutes <$> value_of first = Some 0 ∧
  totalInMinutes <$> value_of second = Some 600 ∧
  (minutes_on true (ymd2ord 2024 1 1) ∘ per_day) <$> value_of whole = Some 840 ∧
  (minutes_on true (ymd2ord 2024 1 1) ∘ per_day) <$> value_of first = Some 0 ∧
  (minutes_on true (ymd2ord 2024 1 1) ∘ per_day) <$> value_of second = Some 0.
Proof. vm_compute. repeat split. Qed.

(** C3, amended. On a reachable store, for every card, event stream and
    in-order partition of a window, the totals over the whole window and over
    each sub-range are computed, and per day and side the sum over the
    sub-ranges is at most the value over the whole window; so are the sums of
    [totalInMinutes] and of [totalOutMinutes]. *)
Theorem segment_totals_partition_bound (w : World) (card_no : string) (swap_applied : bool)
    (detector : Detector) (start : datetime) (cuts : list datetime) (end_ : datetime) :
  db_reachable (database w) = true →
  in_order start cuts end_ = true →
  ∃ whole parts,
    period_run w card_no swap_applied detector (start, end_) = Ok whole ∧
    period_run w card_no swap_applied detector <$> sub_ranges start cuts end_ = Ok <$> parts ∧
    (∀ side d,
       sum_list ((λ part, minutes_on side d (per_day part)) <$> parts)
       ≤ minutes_on side d (per_day whole)) ∧
    (∀ side, sum_list (total_minutes side <$> parts) ≤ total_minutes side whole).
Proof.
  intros Hr Hord.
  set (rows := visible_rows w card_no detector).
  assert (Hrun : ∀ range, period_run w card_no swap_applied detector range
                          = Ok (period_totals_of_rows rows range.1 range.2 swap_applied)).
  { intros range. unfold period_run.
    destruct (run_compute_period w card_no range.1 range.2 swap_applied detector Hr)
      as (w' & -> & _). done. }
  exists (period_totals_of_rows rows start end_ swap_applied),
         ((λ range, period_totals_of_rows rows range.1 range.2 swap_applied)
            <$> sub_ranges start cuts end_).
  split; [apply Hrun|]. split.
  { rewrite <- list_fmap_compose. apply list_fmap_ext. intros _ range _. apply Hrun. }
  split.
  - intros side d. rewrite <- list_fmap_compose.
    apply (partition_bound rows swap_applied (λ t, minutes_on side d (per_day t)) cuts); [|done].
    intros s m e Hsm Hme. by apply per_day_split_bound.
  - intros side. rewrite <- list_fmap_compose.
    apply (partition_bound rows swap_applied (total_minutes side) cuts); [|done].
    intros s m e Hsm Hme. by apply total_split_bound.
Qed.

Lemma segment_totals_partition_bound_witness :
  ∃ whole parts,
    period_run long_shift_world "7" false in_out_detector
      (at_time 2024 1 1 0 0, at_time 2024 1 3 0 0) = Ok whole ∧
    period_run long_shift_world "7" false in_out_detector
      <$> sub_ranges (at_time 2024 1 1 0 0) [at_time 2024 1 2 0 0] (at_time 2024 1 3 0 0)
    = Ok <$> parts ∧
    (∀ side d,
       sum_list ((λ part, minutes_on side d (per_day part)) <$> parts)
       ≤ minutes_on side d (per_day whole)) ∧
    (∀ side, sum_list (total_minutes side <$> parts) ≤ total_minutes side whole).
Proof.
  apply (segment_totals_partition_bound long_shift_world "7" false in_out_detector
           (at_time 2024 1 1 0 0) [at_time 2024 1 2 0 0] (at_time 2024 1 3 0 0)).
  - reflexivity.
  - vm_compute. reflexivity.
Defined.

(** ** The anchor *)

(** C2, counterexample. With an unresolvable event between the last
    resolvable one and [start], the anchor is the unresolvable event: the
    totals are 0 IN minutes, where a walk seeded by the last resolvable event
    would count 60. *)
Lemma anchor_not_last_resolvable_event :
  let rows := timed_rows (Some "7"%string) (db_events (database unknown_between_world)) in
  let start := at_time 2024 1 1 0 0 in
  let end_ := at_time 2024 1 2 0 0 in
  let window := row_to_event <$> window_rows start end_ rows in
  last_resolvable_row_before start rows = Some (at_time 2023 12 31 20 0, Some 1) ∧
  last_row_before start rows = Some (at_time 2023 12 31 23 0, None) ∧
  totalInMinutes
    (totals_seeded_by (row_to_event <$> last_resolvable_row_before start rows)
       window start end_ false) = 60 ∧
  totalInMinutes <$> value_of (period_run unknown_between_world "7" false in_out_detector
                                 (start, end_)) = Some 0.
Proof. vm_compute. repeat split. Qed.

Lemma ascending_last_max {A} (key : A → Z) (l : list A) a :
  ascending key l → last l = Some a → Forall (λ r, key r ≤ key a) l.
Proof.
  unfold ascending. induction 1 as [|x l Hl IH Hx]; intros Hlast; [constructor|].
  destruct l as [|y l'].
  - injection Hlast as ->. constructor; [lia|constructor].
  - rewrite last_cons_cons in Hlast. specialize (IH Hlast).
    constructor; [|done].
    assert (a ∈ y :: l') by (by apply last_Some_elem_of).
    eapply Forall_forall in Hx; [|done]. done.
Qed.

Lemma last_row_before_spec boundary rows :
  match last_row_before boundary rows with
  | Some a => a ∈ rows ∧ a.1 < boundary ∧ ∀ r, r ∈ rows → r.1 < boundary → r.1 ≤ a.1
  | None => ∀ r, r ∈ rows → boundary ≤ r.1
  end.
Proof.
  unfold last_row_before.
  destruct (last _) as [a|] eqn:Ea.
  - pose proof (last_Some_elem_of _ _ Ea) as Hin.
    rewrite stable_sort_elem in Hin. apply list_elem_of_filter in Hin as [Ha Hin].
    repeat split; try done. intros r Hr Hrb.
    pose proof (ascending_last_max fst _ a (stable_sort_ascending fst _) Ea) as Hmax.
    eapply Forall_forall in Hmax; [exact Hmax|].
    rewrite stable_sort_elem. apply list_elem_of_filter. done.
  - apply last_None in Ea. intros r Hr.
    destruct (Z.lt_ge_cases r.1 boundary) as [Hlt|]; [|done].
    assert (Hin : r ∈ stable_sort fst (filter (λ r, r.1 < boundary) rows)).
    { rewrite stable_sort_elem. apply list_elem_of_filter. done. }
    rewrite Ea in Hin. by apply elem_of_nil in Hin.
Qed.

(** C2, amended. The anchor is the most recent row of the card strictly
    before [start], whatever its flag, and the totals are those of the walk
    over the window's events seeded by it: in its state when its flag is
    resolvable, with no state when it is not or when there is no such row. *)
Theorem anchor_is_last_event_of_any_flag (w : World) (card_no : string)
    (start end_ : datetime) (swap_applied : bool) (detector : Detector) :
  db_reachable (database w) = true →
  events_visible w detector = true →
  start < end_ →
  let rows := timed_rows (Some card_no) (db_events (database w)) in
  let window := row_to_event <$> window_rows start end_ rows in
  let anchor := last_row_before start rows in
  match anchor with
  | Some a => a ∈ rows ∧ a.1 < start ∧ ∀ r, r ∈ rows → r.1 < start → r.1 ≤ a.1
  | None => ∀ r, r ∈ rows → start ≤ r.1
  end ∧
  period_run w card_no swap_applied detector (start, end_)
  = Ok (totals_seeded_by (row_to_event <$> anchor) window start end_ swap_applied).
Proof.
  intros Hr Hvis Hse rows window anchor. split; [apply last_row_before_spec|].
  unfold period_run. simpl.
  destruct (run_compute_period w card_no start end_ swap_applied detector Hr) as (w' & -> & _).
  simpl. f_equal. unfold visible_rows. rewrite Hvis. fold rows.
  rewrite period_totals_of_rows_walk by done.
  unfold totals_seeded_by, timeline_rows, seed_state, seed_start. fold anchor. fold window.
  f_equal. f_equal.
  destruct anchor as [a|]; simpl; [|done].
  destruct (_event_state (row_to_event a) swap_applied); done.
Qed.

Lemma anchor_is_last_event_of_any_flag_witness :
  period_run unknown_between_world "7" false in_out_detector
    (at_time 2024 1 1 0 0, at_time 2024 1 2 0 0)
  = Ok (totals_seeded_by (Some (mkEvent (at_time 2023 12 31 23 0) None))
          [mkEvent (at_time 2024 1 1 1 0) (Some 0)]
          (at_time 2024 1 1 0 0) (at_time 2024 1 2 0 0) false).
Proof.
  exact (proj2 (anchor_is_last_event_of_any_flag unknown_between_world "7"
                  (at_time 2024 1 1 0 0) (at_time 2024 1 2 0 0) false in_out_detector
                  eq_refl eq_refl eq_refl)).
Defined.

(** ** The overnight shift *)

(** The fuel of the day loop is enough: more fuel changes nothing. *)
Lemma daily_records_loop_fuel cfg events end_ swap fuel : ∀ extra cursor si ei recs,
  end_ - cursor ≤ Z.of_nat fuel * us_per_day →
  daily_records_loop (fuel + extra) cfg events end_ swap cursor si ei recs
  = daily_records_loop fuel cfg events end_ swap cursor si ei recs.
Proof.
  induction fuel as [|fuel IH]; intros extra cursor si ei recs Hfuel.
  - simpl. destruct extra as [|extra]; [done|]. simpl.
    destruct (Z.ltb_spec cursor end_); [lia|done].
  - simpl. destruct (Z.ltb_spec cursor end_); [|done].
    apply IH. unfold timedelta_days. rewrite us_per_day_val in *. lia.
Qed.

Lemma days_fuel_enough start end_ :
  end_ - start ≤ Z.of_nat (days_fuel start end_) * us_per_day.
Proof.
  unfold days_fuel. rewrite us_per_day_val.
  destruct (Z.le_gt_cases end_ start) as [Hle|Hgt]; [lia|].
  rewrite Z2Nat.id by (apply Z.div_pos; lia).
  pose proof (Z.div_mod (end_ - start + 86400000000 - 1) 86400000000 ltac:(lia)).
  pose proof (Z.mod_pos_bound (end_ - start + 86400000000 - 1) 86400000000 ltac:(lia)).
  lia.
Qed.

(** C1, counterexample. The listing of January 2024 has a record for
    2024-01-02, built from the OUT of the pair. *)
Lemma overnight_second_day_is_listed :
  records_run overnight_world "7" in_out_detector (at_time 2024 1 1 0 0) (at_time 2024 2 1 0 0)
  = Ok [overnight_first_day; overnight_second_day] ∧
  rec_date overnight_second_day = ymd2ord 2024 1 2 ∧
  rec_first_in overnight_second_day = None ∧
  rec_last_out overnight_second_day = Some (at_time 2024 1 2 3 0) ∧
  rec_missing_punch overnight_second_day = true.
Proof. vm_compute. repeat split. Qed.

Section overnight.

Context (swp : bool) (end_ : datetime).

Hypothesis covers : at_time 2024 1 3 0 0 ≤ end_.

Lemma daily_records_loop_unfold fuel cursor si ei recs :
  daily_records_loop (S fuel) (mkSettings 6 swp) overnight_events end_ false cursor si ei recs
  = if cursor <? end_ then
      let si' := advance_index overnight_events si cursor in
      let ei' := advance_index overnight_events (if (ei <? si')%nat then si' else ei)
                   (cursor + timedelta_days 1 + timedelta_hours 6) in
      let day_record :=
        _compute_day_attendance (mkSettings 6 swp) cursor (slice overnight_events si' ei')
          false in
      daily_records_loop fuel (mkSettings 6 swp) overnight_events end_ false
        (cursor + timedelta_days 1) si' ei'
        (if has_relevant_events day_record
         then recs ++ [_serialize_day_record day_record] else recs)
    else recs.
Proof. reflexivity. Qed.

(** Past the OUT event every day slice is empty. *)
Lemma loop_after_the_shift fuel : ∀ cursor si recs,
  at_time 2024 1 2 3 0 < cursor → (si = 1 ∨ si = 2)%nat →
  daily_records_loop fuel (mkSettings 6 swp) overnight_events end_ false cursor si 2 recs
  = recs.
Proof.
  induction fuel as [|fuel IH]; intros cursor si recs Hc Hsi; [done|].
  rewrite daily_records_loop_unfold.
  destruct (cursor <? end_); [|done]. cbv zeta.
  assert (Hsi' : advance_index overnight_events si cursor = 2%nat).
  { unfold advance_index, overnight_events. destruct Hsi as [-> | ->]; simpl; [|done].
    destruct (Z.ltb_spec (at_time 2024 1 2 3 0) cursor); [done|lia]. }
  rewrite Hsi'. simpl (if (2 <? 2)%nat then _ else _).
  assert (Hei : ∀ b, advance_index overnight_events 2 b = 2%nat) by done.
  rewrite Hei. change (slice overnight_events 2 2) with (@nil Event).
  change (has_relevant_events (_compute_day_attendance (mkSettings 6 swp) cursor [] false))
    with false.
  cbv iota. apply IH; [|by right].
  unfold timedelta_days. rewrite us_per_day_val. lia.
Qed.

(** The two days of the shift, then nothing. *)
Lemma loop_from_the_first_day fuel recs :
  daily_records_loop (S (S fuel)) (mkSettings 6 swp) overnight_events end_ false
    (at_time 2024 1 1 0 0) 0 0 recs
  = recs ++ [overnight_first_day; overnight_second_day].
Proof.
  pose proof covers as Hend. change (at_time 2024 1 3 0 0) with 63839923200000000 in Hend.
  rewrite daily_records_loop_unfold.
  change (at_time 2024 1 1 0 0) with 63839750400000000.
  destruct (Z.ltb_spec 63839750400000000 end_); [|lia]. cbv zeta.
  change (advance_index overnight_events 0 63839750400000000) with 0%nat.
  simpl (if (0 <? 0)%nat then _ else _).
  change (advance_index overnight_events 0
            (63839750400000000 + timedelta_days 1 + timedelta_hours 6)) with 2%nat.
  change (slice overnight_events 0 2) with overnight_events.
  assert (Hday1 : _compute_day_attendance (mkSettings 6 swp) 63839750400000000
                    overnight_events false
                  = mkDayAttendance 738886 (Some 63839829600000000) (Some 63839847600000000)
                      (Some 300) (Some (5, 0)) false true)
    by (vm_compute; reflexivity).
  rewrite Hday1. cbv iota beta. cbn [has_relevant_events].
  rewrite daily_records_loop_unfold.
  change (63839750400000000 + timedelta_days 1) with 63839836800000000.
  destruct (Z.ltb_spec 63839836800000000 end_); [|lia]. cbv zeta.
  change (advance_index overnight_events 0 63839836800000000) with 1%nat.
  simpl (if (2 <? 1)%nat then _ else _).
  change (advance_index overnight_events 2
            (63839836800000000 + timedelta_days 1 + timedelta_hours 6)) with 2%nat.
  change (slice overnight_events 1 2) with [row_to_event overnight_out].
  assert (Hday2 : _compute_day_attendance (mkSettings 6 swp) 63839836800000000
                    [row_to_event overnight_out] false
                  = mkDayAttendance 738887 None (Some 63839847600000000) None None true true)
    by (vm_compute; reflexivity).
  rewrite Hday2. cbn [has_relevant_events].
  rewrite loop_after_the_shift; [|vm_compute; reflexivity|by left].
  rewrite <- app_assoc. reflexivity.
Qed.

(** Before the IN event every day slice is empty. *)
Lemma loop_before_the_shift (n : nat) : ∀ fuel recs,
  (n + 2 ≤ fuel)%nat →
  daily_records_loop fuel (mkSettings 6 swp) overnight_events end_ false
    (at_time 2024 1 1 0 0 - Z.of_nat n * us_per_day) 0 0 recs
  = recs ++ [overnight_first_day; overnight_second_day].
Proof.
  induction n as [|n IH]; intros fuel recs Hfuel.
  - destruct fuel as [|[|fuel]]; [lia|lia|].
    replace (at_time 2024 1 1 0 0 - Z.of_nat 0 * us_per_day) with (at_time 2024 1 1 0 0)
      by lia.
    apply loop_from_the_first_day.
  - destruct fuel as [|fuel]; [lia|].
    pose proof covers as Hend. change (at_time 2024 1 3 0 0) with 63839923200000000 in Hend.
    rewrite daily_records_loop_unfold.
    set (cursor := at_time 2024 1 1 0 0 - Z.of_nat (S n) * us_per_day).
    assert (Hcur : cursor ≤ 63839750400000000 - 86400000000).
    { subst cursor. change (at_time 2024 1 1 0 0) with 63839750400000000.
      rewrite us_per_day_val. lia. }
    destruct (Z.ltb_spec cursor end_); [|lia]. cbv zeta.
    assert (Hsi : advance_index overnight_events 0 cursor = 0%nat).
    { unfold advance_index, overnight_events. simpl.
      change (at_time 2024 1 1 22 0) with 63839829600000000.
      destruct (Z.ltb_spec 63839829600000000 cursor); [lia|done]. }
    rewrite Hsi. simpl (if (0 <? 0)%nat then _ else _).
    assert (Hei : advance_index overnight_events 0
                    (cursor + timedelta_days 1 + timedelta_hours 6) = 0%nat).
    { unfold advance_index, overnight_events. simpl.
      change (at_time 2024 1 1 22 0) with 63839829600000000.
      change (timedelta_days 1) with 86400000000.
      change (timedelta_hours 6) with 21600000000.
      destruct (Z.ltb_spec 63839829600000000 (cursor + 86400000000 + 21600000000));
        [lia|done]. }
    rewrite Hei. change (slice overnight_events 0 0) with (@nil Event).
    change (has_relevant_events (_compute_day_attendance (mkSettings 6 swp) cursor [] false))
      with false.
    cbv iota.
    replace (cursor + timedelta_days 1)
      with (at_time 2024 1 1 0 0 - Z.of_nat n * us_per_day).
    2: { subst cursor. unfold timedelta_days. lia. }
    apply IH. lia.
Qed.

End overnight.

Lemma window_rows_overnight start end_ rows :
  rows = [overnight_in; overnight_out] ∨ rows = [overnight_out; overnight_in] →
  start ≤ at_time 2024 1 1 22 0 → at_time 2024 1 2 3 0 < end_ →
  window_rows start end_ rows = [overnight_in; overnight_out].
Proof.
  intros Hrows Hs He. unfold window_rows.
  destruct Hrows as [-> | ->]; rewrite !filter_cons, filter_nil;
    unfold overnight_in, overnight_out in *; simpl fst.
  - rewrite !decide_True by (settle_times; lia). vm_compute. reflexivity.
  - rewrite !decide_True by (settle_times; lia). vm_compute. reflexivity.
Qed.

(** C1, amended. With a cutoff of 6 hours and the overnight pair as the
    card's only events, the day record of 2024-01-01 has first IN 22:00, last
    OUT 03:00 of the next day, 300 minutes and no missing punch; and the
    listing of any period that starts at a midnight on or before 2024-01-01
    and covers both days consists of that record and of a record for
    2024-01-02 that holds the OUT alone, as a missing punch. *)
Theorem overnight_shift_records (w : World) (card_no : string) (detector : Detector)
    (start_day : date) (end_ : datetime) :
  db_reachable (database w) = true →
  events_visible w detector = true →
  shift_out_cutoff_hours (settings w) = 6 →
  (timed_rows (Some card_no) (db_events (database w)) = [overnight_in; overnight_out]
   ∨ timed_rows (Some card_no) (db_events (database w)) = [overnight_out; overnight_in]) →
  start_day ≤ ymd2ord 2024 1 1 →
  at_time 2024 1 3 0 0 ≤ end_ →
  _serialize_day_record
    (_compute_day_attendance (settings w) (at_time 2024 1 1 0 0) overnight_events false)
  = overnight_first_day ∧
  records_run w card_no detector (datetime_combine_min start_day) end_
  = Ok [overnight_first_day; overnight_second_day].
Proof.
  intros Hr Hvis Hcut Hrows Hstart Hend.
  destruct (settings w) as [cut swp] eqn:Hcfg. simpl in Hcut. subst cut.
  split; [vm_compute; reflexivity|].
  unfold records_run, _build_daily_records_for_period.
  unfold run, bind at 1, get_world. rewrite Hcfg.
  cbn [shift_out_cutoff_hours].
  set (start := datetime_combine_min start_day).
  set (ext := end_ + (timedelta_days 1 + timedelta_hours 6)).
  destruct (run_fetch_events w card_no start ext detector Hr) as (w' & Hrun & _).
  unfold run in Hrun. unfold bind. rewrite Hrun. unfold ret. cbn [fst].
  f_equal. unfold visible_rows. rewrite Hvis.
  assert (Hs1 : start ≤ at_time 2024 1 1 0 0).
  { subst start. unfold datetime_combine_min. change (ymd2ord 2024 1 1) with 738886 in Hstart.
    settle_times. rewrite us_per_day_val. lia. }
  rewrite (window_rows_overnight start ext _ Hrows).
  2: { settle_times. lia. }
  2: { subst ext. change (timedelta_days 1 + timedelta_hours 6) with 108000000000.
       settle_times. lia. }
  change (row_to_event <$> [overnight_in; overnight_out]) with overnight_events.
  set (n := Z.to_nat (ymd2ord 2024 1 1 - start_day)).
  replace start with (at_time 2024 1 1 0 0 - Z.of_nat n * us_per_day).
  2: { subst start n. unfold datetime_combine_min.
       change (ymd2ord 2024 1 1) with 738886 in *. settle_times.
       rewrite us_per_day_val. lia. }
  change (@nil DayRecord) with (@nil DayRecord ++ []) at 1.
  rewrite (loop_before_the_shift swp end_ Hend n); [done|].
  unfold days_fuel. subst n.
  change (ymd2ord 2024 1 1) with 738886 in *. settle_times.
  rewrite us_per_day_val.
  assert (738886 - start_day + 2
          ≤ (end_ - (63839750400000000 - Z.of_nat (Z.to_nat (738886 - start_day)) * 86400000000)
             + 86400000000 - 1) / 86400000000); [|lia].
  apply Z.div_le_lower_bound; lia.
Qed.

Lemma overnight_shift_records_witness :
  records_run overnight_world "7" in_out_detector
    (datetime_combine_min (ymd2ord 2023 12 1)) (at_time 2024 3 1 0 0)
  = Ok [overnight_first_day; overnight_second_day].
Proof.
  apply (overnight_shift_records overnight_world "7" in_out_detector
           (ymd2ord 2023 12 1) (at_time 2024 3 1 0 0)).
  - reflexivity.
  - vm_compute; reflexivity.
  - reflexivity.
  - left. vm_compute; reflexivity.
  - vm_compute. discriminate.
  - vm_compute. discriminate.
Defined.

(** * Further properties of the engine, the limiter, the settings and the file names *)

(** ** Event classification *)

Lemma event_state_cases e swap :
  _event_state e swap = None ∨ _event_state e swap = Some 0 ∨ _event_state e swap = Some 1.
Proof.
  unfold _event_state. destruct (inout_flag e) as [f|]; [|auto].
  destruct (Z.eqb_spec f 0) as [->|]; [destruct swap; simpl; auto|].
  destruct (Z.eqb_spec f 1) as [->|]; [destruct swap; simpl; auto|].
  simpl. auto.
Qed.

Lemma is_in_event_state e swap : _is_in_event e swap = bool_decide (_event_state e swap = Some 1).
Proof.
  unfold _is_in_event, _event_state, effective_flag.
  destruct (inout_flag e) as [f|]; [|done].
  destruct (Z.eqb_spec f 0) as [->|]; [destruct swap; done|].
  destruct (Z.eqb_spec f 1) as [->|]; [destruct swap; done|].
  done.
Qed.

Lemma is_out_event_state e swap : _is_out_event e swap = bool_decide (_event_state e swap = Some 0).
Proof.
  unfold _is_out_event, _event_state, effective_flag.
  destruct (inout_flag e) as [f|]; [|done].
  destruct (Z.eqb_spec f 0) as [->|]; [destruct swap; done|].
  destruct (Z.eqb_spec f 1) as [->|]; [destruct swap; done|].
  done.
Qed.

Lemma event_state_swap e swap :
  _event_state e (negb swap) = (λ s, 1 - s) <$> _event_state e swap.
Proof.
  unfold _event_state.
  destruct (inout_flag e) as [f|]; [|done].
  destruct (Z.eqb_spec f 0) as [->|]; [destruct swap; done|].
  destruct (Z.eqb_spec f 1) as [->|]; [destruct swap; done|].
  done.
Qed.

Lemma event_state_resolvable e swap :
  is_Some (_event_state e swap) ↔ is_resolvable e = true.
Proof.
  unfold _event_state, is_resolvable, flag_is_binary.
  destruct (inout_flag e) as [f|]; [|split; [intros [? ?]; done|done]].
  destruct ((f =? 0) || (f =? 1)); simpl.
  - destruct swap; simpl; split; eauto.
  - split; [intros [? ?]; done|done].
Qed.

Lemma in_or_out_resolvable e swap :
  _is_in_event e swap || _is_out_event e swap = is_resolvable e.
Proof.
  unfold _is_in_event, _is_out_event, is_resolvable, flag_is_binary, effective_flag.
  destruct (inout_flag e) as [f|]; [|done].
  destruct (Z.eqb_spec f 0) as [->|]; [destruct swap; done|].
  destruct (Z.eqb_spec f 1) as [->|]; [destruct swap; done|].
  done.
Qed.

(** X1. An event counts as IN exactly when its state under the polarity is 1,
    as OUT exactly when its state is 0, and has no state exactly when its flag
    is neither 0 nor 1. No event is both IN and OUT, and applying the polarity
    swap exchanges the IN events with the OUT events. *)
Theorem event_classifiers_agree (e : Event) (swap : bool) :
  (_is_in_event e swap = true ↔ _event_state e swap = Some 1) ∧
  (_is_out_event e swap = true ↔ _event_state e swap = Some 0) ∧
  (_event_state e swap = None ↔ is_resolvable e = false) ∧
  (_is_in_event e swap && _is_out_event e swap = false) ∧
  (_is_in_event e swap || _is_out_event e swap = is_resolvable e) ∧
  _is_in_event e (negb swap) = _is_out_event e swap ∧
  _is_out_event e (negb swap) = _is_in_event e swap.
Proof.
  unfold _is_in_event, _is_out_event, _event_state, is_resolvable, flag_is_binary,
    effective_flag.
  destruct (inout_flag e) as [f|]; [|repeat split; done].
  destruct (Z.eqb_spec f 0) as [->|]; [destruct swap; repeat split; done|].
  destruct (Z.eqb_spec f 1) as [->|]; [destruct swap; repeat split; done|].
  repeat split; done.
Qed.

(** ** The day record in terms of the events of each side *)

Lemma foldl_min_spec (xs : list Z) (x : Z) :
  (foldl Z.min x xs = x ∨ foldl Z.min x xs ∈ xs)
  ∧ foldl Z.min x xs ≤ x ∧ Forall (λ y, foldl Z.min x xs ≤ y) xs.
Proof.
  revert x. induction xs as [|y xs IH]; intros x; simpl.
  - split; [auto|]. split; [lia|constructor].
  - destruct (IH (Z.min x y)) as (Hm & Hle & Hall). split; [|split].
    + destruct Hm as [Hm|Hm].
      * rewrite Hm. destruct (Z.min_spec x y) as [[_ ->]|[_ ->]]; [auto|].
        right. apply list_elem_of_here.
      * right. by apply list_elem_of_further.
    + lia.
    + constructor; [lia|done].
Qed.

Lemma foldl_max_spec (xs : list Z) (x : Z) :
  (foldl Z.max x xs = x ∨ foldl Z.max x xs ∈ xs)
  ∧ x ≤ foldl Z.max x xs ∧ Forall (λ y, y ≤ foldl Z.max x xs) xs.
Proof.
  revert x. induction xs as [|y xs IH]; intros x; simpl.
  - split; [auto|]. split; [lia|constructor].
  - destruct (IH (Z.max x y)) as (Hm & Hle & Hall). split; [|split].
    + destruct Hm as [Hm|Hm].
      * rewrite Hm. destruct (Z.max_spec x y) as [[_ ->]|[_ ->]]; [|auto].
        right. apply list_elem_of_here.
      * right. by apply list_elem_of_further.
    + lia.
    + constructor; [lia|done].
Qed.

Lemma list_min_earliest (evs : list Event) :
  earliest_of evs (list_min (event_time <$> evs)).
Proof.
  destruct evs as [|e evs]; [done|]. simpl.
  destruct (foldl_min_spec (event_time <$> evs) (event_time e)) as (Hm & Hle & Hall).
  split.
  - destruct Hm as [Hm|Hm].
    + exists e. split; [apply list_elem_of_here|done].
    + apply list_elem_of_fmap in Hm as (e' & He' & Hin).
      exists e'. split; [by apply list_elem_of_further|done].
  - intros e' [->|Hin]%elem_of_cons; [done|].
    rewrite Forall_forall in Hall. apply Hall. apply list_elem_of_fmap. eauto.
Qed.

Lemma list_max_latest (evs : list Event) :
  latest_of evs (list_max (event_time <$> evs)).
Proof.
  destruct evs as [|e evs]; [done|]. simpl.
  destruct (foldl_max_spec (event_time <$> evs) (event_time e)) as (Hm & Hle & Hall).
  split.
  - destruct Hm as [Hm|Hm].
    + exists e. split; [apply list_elem_of_here|done].
    + apply list_elem_of_fmap in Hm as (e' & He' & Hin).
      exists e'. split; [by apply list_elem_of_further|done].
  - intros e' [->|Hin]%elem_of_cons; [done|].
    rewrite Forall_forall in Hall. apply Hall. apply list_elem_of_fmap. eauto.
Qed.

Lemma in_out_exclusive e swap : _is_in_event e swap = true → _is_out_event e swap = false.
Proof.
  unfold _is_in_event, _is_out_event.
  destruct (inout_flag e) as [f|]; [|done].
  destruct (negb _); [done|].
  destruct (Z.eqb_spec (effective_flag f swap) 1) as [->|]; done.
Qed.

Lemma primary_buckets_spec ds swap evs :
  primary_buckets ds (ds + timedelta_days 1) swap evs
  = (event_time <$> side_events_within true swap ds (ds + timedelta_days 1) evs,
     event_time <$> side_events_within false swap ds (ds + timedelta_days 1) evs).
Proof.
  unfold side_events_within.
  induction evs as [|e evs IH]; [done|].
  simpl primary_buckets. rewrite IH. clear IH.
  rewrite !filter_cons. simpl is_side_event.
  destruct (Z.ltb_spec (event_time e) ds) as [Hlo|Hlo]; simpl.
  { destruct (decide _) as [Hd|Hd]; [|destruct (decide _) as [Hd'|Hd']; [|done]].
    - apply Is_true_true in Hd. apply andb_true_iff in Hd as [Hd _].
      apply andb_true_iff in Hd as [Hd _]. apply Z.leb_le in Hd. lia.
    - apply Is_true_true in Hd'. apply andb_true_iff in Hd' as [Hd' _].
      apply andb_true_iff in Hd' as [Hd' _]. apply Z.leb_le in Hd'. lia. }
  destruct (Z.leb_spec (ds + timedelta_days 1) (event_time e)) as [Hhi|Hhi]; simpl.
  { destruct (decide _) as [Hd|Hd]; [|destruct (decide _) as [Hd'|Hd']; [|done]].
    - apply Is_true_true in Hd. apply andb_true_iff in Hd as [Hd _].
      apply andb_true_iff in Hd as [_ Hd]. apply Z.ltb_lt in Hd. lia.
    - apply Is_true_true in Hd'. apply andb_true_iff in Hd' as [Hd' _].
      apply andb_true_iff in Hd' as [_ Hd']. apply Z.ltb_lt in Hd'. lia. }
  assert (Hw : (ds <=? event_time e) && (event_time e <? ds + timedelta_days 1) = true).
  { apply andb_true_iff. split; [apply Z.leb_le; lia|apply Z.ltb_lt; lia]. }
  rewrite Hw. simpl.
  destruct (_is_in_event e swap) eqn:Hin.
  - rewrite (in_out_exclusive _ _ Hin).
    rewrite decide_True by done. rewrite decide_False by (by intros []). done.
  - rewrite decide_False by (by intros []).
    destruct (_is_out_event e swap).
    + rewrite decide_True by done. done.
    + rewrite decide_False by (by intros []). done.
Qed.

Lemma outs_after_in_spec f oe swap evs :
  outs_after_in f oe swap evs = event_time <$> side_events_within false swap f oe evs.
Proof. done. Qed.

Lemma side_events_within_elem side swap lo hi evs e :
  e ∈ side_events_within side swap lo hi evs
  ↔ e ∈ evs ∧ lo ≤ event_time e < hi ∧ is_side_event side e swap = true.
Proof.
  unfold side_events_within. rewrite list_elem_of_filter.
  rewrite Is_true_true, !andb_true_iff, Z.leb_le, Z.ltb_lt. tauto.
Qed.

(** The fields of a day record in terms of the events of each side. *)
Lemma day_attendance_sides cfg day_start evs swap :
  let r := _compute_day_attendance cfg day_start evs swap in
  let day_end := day_start + timedelta_days 1 in
  let overnight_end := day_end + timedelta_hours (shift_out_cutoff_hours cfg) in
  first_in_dt r = list_min (event_time <$> side_events_within true swap day_start day_end evs)
  ∧ last_out_dt r
    = match first_in_dt r with
      | Some f => list_max (event_time <$> side_events_within false swap f overnight_end evs)
      | None => list_max (event_time <$> side_events_within false swap day_start day_end evs)
      end
  ∧ has_relevant_events r
    = negb (bool_decide (side_events_within true swap day_start day_end evs = []))
      || negb (bool_decide (side_events_within false swap day_start day_end evs = [])).
Proof.
  intros r day_end overnight_end. subst r day_end overnight_end.
  unfold _compute_day_attendance. rewrite primary_buckets_spec.
  cbv beta iota zeta. cbn [first_in_dt last_out_dt has_relevant_events].
  set (ins := side_events_within true swap day_start (day_start + timedelta_days 1) evs).
  set (outs := side_events_within false swap day_start (day_start + timedelta_days 1) evs).
  set (oe := day_start + timedelta_days 1 + timedelta_hours (shift_out_cutoff_hours cfg)).
  split; [done|]. split.
  - destruct (list_min (event_time <$> ins)) as [f|] eqn:Hf; [|done].
    rewrite paired_last_out_is_initial. unfold initial_last_out.
    rewrite outs_after_in_spec.
    destruct (list_max (event_time <$> side_events_within false swap f oe evs))
      as [l|] eqn:Hl; [|done].
    pose proof (list_max_latest (side_events_within false swap f oe evs)) as Hlat.
    rewrite Hl in Hlat. destruct Hlat as [(e & He & Het) _].
    apply side_events_within_elem in He as (_ & Hb & _).
    unfold _duration_minutes. destruct (Z.ltb_spec l f); [lia|]. done.
  - f_equal; f_equal; apply bool_decide_ext; split; intros H.
    + by apply fmap_nil_inv in H.
    + by rewrite H.
    + by apply fmap_nil_inv in H.
    + by rewrite H.
Qed.

Lemma day_attendance_earliest_in_latest_out_aux cfg day_start evs swap :
  let r := _compute_day_attendance cfg day_start evs swap in
  let day_end := day_start + timedelta_days 1 in
  let overnight_end := day_end + timedelta_hours (shift_out_cutoff_hours cfg) in
  earliest_of (side_events_within true swap day_start day_end evs) (first_in_dt r)
  ∧ match first_in_dt r with
    | Some f => latest_of (side_events_within false swap f overnight_end evs) (last_out_dt r)
    | None => latest_of (side_events_within false swap day_start day_end evs) (last_out_dt r)
    end.
Proof.
  intros r day_end overnight_end.
  destruct (day_attendance_sides cfg day_start evs swap) as (Hf & Hl & _).
  fold r day_end overnight_end in Hf, Hl.
  split.
  - rewrite Hf. apply list_min_earliest.
  - rewrite Hl. destruct (first_in_dt r); apply list_max_latest.
Qed.

Lemma whole_minutes_lt a b n : b - a < n * us_per_minute → whole_minutes a b < n.
Proof.
  intros H. unfold whole_minutes. rewrite us_per_minute_val in *.
  apply Z.div_lt_upper_bound; lia.
Qed.

(** X2. In the record of a day, the first IN is the earliest IN event of the
    calendar day (none if the day has no IN event). With a first IN, the last
    OUT is the latest OUT event from the first IN up to the end of the
    overnight window; without one, it is the latest OUT event of the calendar
    day. *)
Theorem day_attendance_earliest_in_latest_out cfg day_start evs swap :
  let r := _compute_day_attendance cfg day_start evs swap in
  let day_end := day_start + timedelta_days 1 in
  let overnight_end := day_end + timedelta_hours (shift_out_cutoff_hours cfg) in
  earliest_of (side_events_within true swap day_start day_end evs) (first_in_dt r)
  ∧ match first_in_dt r with
    | Some f => latest_of (side_events_within false swap f overnight_end evs) (last_out_dt r)
    | None => latest_of (side_events_within false swap day_start day_end evs) (last_out_dt r)
    end.
Proof. apply day_attendance_earliest_in_latest_out_aux. Qed.

Lemma day_attendance_bounds cfg day_start evs swap :
  let r := _compute_day_attendance cfg day_start evs swap in
  let day_end := day_start + timedelta_days 1 in
  let overnight_end := day_end + timedelta_hours (shift_out_cutoff_hours cfg) in
  match first_in_dt r with
  | Some f => day_start ≤ f < day_end
  | None => True
  end ∧
  match first_in_dt r, last_out_dt r with
  | Some f, Some l => f ≤ l < overnight_end
  | None, Some l => day_start ≤ l < day_end
  | _, None => True
  end ∧
  match duration_minutes r with
  | Some d => 0 ≤ d < (24 + shift_out_cutoff_hours cfg) * 60
  | None => True
  end.
Proof.
  intros r day_end overnight_end.
  destruct (day_attendance_earliest_in_latest_out_aux cfg day_start evs swap) as (Hf & Hl).
  fold r day_end overnight_end in Hf, Hl.
  destruct (day_attendance_fields cfg day_start evs swap)
    as (ins & outs & _ & Hfi & Hdur & Hlo & _).
  simpl in Hfi, Hdur, Hlo. fold r in Hfi, Hdur, Hlo.
  rewrite <- Hfi in *.
  destruct (first_in_dt r) as [f|] eqn:Hfr.
  - destruct Hf as [(e & He & <-) _].
    apply side_events_within_elem in He as (_ & Hb & _).
    split; [done|].
    destruct (last_out_dt r) as [l|] eqn:Hlr.
    + destruct Hl as [(e' & He' & <-) _].
      apply side_events_within_elem in He' as (_ & Hb' & _).
      split; [lia|].
      destruct (paired_last_out _ _ _ _ _) as [l|] eqn:Hp; [|done].
      simpl in Hdur, Hlo. destruct (Z.ltb_spec l (event_time e)); [done|].
      inversion Hlo; subst l. rewrite Hdur. split; [by apply whole_minutes_nonneg|].
      apply whole_minutes_lt.
      unfold overnight_end, day_end, timedelta_days, timedelta_hours in *.
      unfold us_per_day, us_per_hour, us_per_minute, us_per_second, datetime in *.
      clear -Hb Hb'. lia.
    + split; [done|]. rewrite Hdur.
      destruct (paired_last_out _ _ _ _ _) as [l|] eqn:Hp; [|done].
      simpl in *. destruct (Z.ltb_spec l (event_time e)); done.
  - split; [done|]. rewrite Hdur. simpl.
    destruct (last_out_dt r) as [l|] eqn:Hlr; [|done].
    destruct Hl as [(e' & He' & <-) _].
    apply side_events_within_elem in He' as (_ & Hb' & _). done.
Qed.

(** X3. In the record of a day, the first IN lies in the calendar day, a last
    OUT that follows a first IN lies between it and the end of the overnight
    window (day end plus cutoff hours), a last OUT without a first IN lies in
    the calendar day, and a duration is at least 0 and below (24 + cutoff) *
    60 minutes. *)
Theorem day_attendance_within_overnight_window cfg day_start evs swap :
  let r := _compute_day_attendance cfg day_start evs swap in
  let day_end := day_start + timedelta_days 1 in
  let overnight_end := day_end + timedelta_hours (shift_out_cutoff_hours cfg) in
  match first_in_dt r with
  | Some f => day_start ≤ f < day_end
  | None => True
  end ∧
  match first_in_dt r, last_out_dt r with
  | Some f, Some l => f ≤ l < overnight_end
  | None, Some l => day_start ≤ l < day_end
  | _, None => True
  end ∧
  match duration_minutes r with
  | Some d => 0 ≤ d < (24 + shift_out_cutoff_hours cfg) * 60
  | None => True
  end.
Proof. apply day_attendance_bounds. Qed.

(** X4. A day has relevant events exactly when some event of the calendar day
    has a flag of 0 or 1, which is exactly when its record has a first IN or a
    last OUT. A day without relevant events has an empty record: no first IN,
    no last OUT, no duration and no missing punch, whatever OUT events follow
    after midnight. *)
Theorem day_attendance_relevance cfg day_start evs swap :
  let r := _compute_day_attendance cfg day_start evs swap in
  let day_end := day_start + timedelta_days 1 in
  (has_relevant_events r = true
   ↔ ∃ e, e ∈ evs ∧ day_start ≤ event_time e < day_end ∧ is_resolvable e = true) ∧
  (has_relevant_events r = true ↔ first_in_dt r ≠ None ∨ last_out_dt r ≠ None) ∧
  (has_relevant_events r = false →
   first_in_dt r = None ∧ last_out_dt r = None ∧ duration_minutes r = None
   ∧ duration_hhmm r = None ∧ missing_punch r = false).
Proof.
  intros r day_end.
  destruct (day_attendance_sides cfg day_start evs swap) as (Hf & Hl & Hrel).
  fold r day_end in Hf, Hl, Hrel.
  set (ins := side_events_within true swap day_start day_end evs) in *.
  set (outs := side_events_within false swap day_start day_end evs) in *.
  assert (Hins : first_in_dt r = None ↔ ins = []).
  { rewrite Hf. destruct ins; simpl; split; done. }
  assert (Houts : first_in_dt r = None → (last_out_dt r = None ↔ outs = [])).
  { intros Hn. rewrite Hl, Hn. destruct outs; simpl; split; done. }
  assert (Hiff : has_relevant_events r = true ↔ first_in_dt r ≠ None ∨ last_out_dt r ≠ None).
  { rewrite Hrel, orb_true_iff, !negb_true_iff, !bool_decide_eq_false.
    split.
    - intros [H|H]; [left; by rewrite Hins|].
      destruct (first_in_dt r) eqn:Hfr; [left; done|]. right. by rewrite (Houts eq_refl).
    - intros [H|H]; [left; by rewrite <- Hins|].
      destruct (first_in_dt r) eqn:Hfr.
      + left. rewrite <- Hins. done.
      + right. by rewrite <- (Houts eq_refl). }
  split; [|split; [done|]].
  - rewrite Hrel, orb_true_iff, !negb_true_iff, !bool_decide_eq_false. split.
    + intros [H|H].
      * destruct ins as [|e ins'] eqn:Hi; [done|].
        assert (He : e ∈ ins) by (rewrite Hi; apply list_elem_of_here).
        apply side_events_within_elem in He as (He & Hb & Hs). simpl in Hs.
        exists e. split; [done|]. split; [done|].
        rewrite <- (in_or_out_resolvable e swap). by rewrite Hs.
      * destruct outs as [|e outs'] eqn:Hi; [done|].
        assert (He : e ∈ outs) by (rewrite Hi; apply list_elem_of_here).
        apply side_events_within_elem in He as (He & Hb & Hs). simpl in Hs.
        exists e. split; [done|]. split; [done|].
        rewrite <- (in_or_out_resolvable e swap). rewrite Hs. apply orb_true_r.
    + intros (e & He & Hb & Hres).
      pose proof (in_or_out_resolvable e swap) as Hor.
      rewrite Hres in Hor. apply orb_true_iff in Hor as [Hs|Hs].
      * left. intros Hnil.
        assert (Hin : e ∈ ins) by (apply side_events_within_elem; done).
        rewrite Hnil in Hin. by apply elem_of_nil in Hin.
      * right. intros Hnil.
        assert (Hin : e ∈ outs) by (apply side_events_within_elem; done).
        rewrite Hnil in Hin. by apply elem_of_nil in Hin.
  - intros Hfalse.
    assert (Hn : first_in_dt r = None ∧ last_out_dt r = None).
    { destruct (first_in_dt r) eqn:Hfr.
      - assert (has_relevant_events r = true) by (apply Hiff; left; done). congruence.
      - split; [done|]. destruct (last_out_dt r) eqn:Hlr; [|done].
        assert (has_relevant_events r = true) by (apply Hiff; right; done). congruence. }
    destruct Hn as [Hn1 Hn2].
    destruct (day_attendance_fields cfg day_start evs swap)
      as (ins0 & outs0 & _ & Hfi & Hdur & Hlo & Hmp).
    simpl in Hfi, Hdur, Hlo, Hmp. fold r in Hfi, Hdur, Hlo, Hmp.
    rewrite <- Hfi, Hn1 in Hdur. simpl in Hdur.
    repeat split; try done.
    + unfold r, _compute_day_attendance in *.
      destruct (primary_buckets _ _ _ _) as [a b]. simpl in *. by rewrite Hdur.
    + rewrite Hmp, Hn1, Hn2. done.
Qed.

(** ** The polarity heuristic does not depend on the order of the sample *)

Lemma count_events_perm p l l' : l ≡ₚ l' → count_events p l = count_events p l'.
Proof. intros H. unfold count_events. by rewrite H. Qed.

Lemma heuristic_spec_perm l l' : l ≡ₚ l' → heuristic_spec l = heuristic_spec l'.
Proof.
  intros H. unfold heuristic_spec.
  rewrite !(count_events_perm _ l l' H). done.
Qed.

Lemma heuristic_spec_resolvable l :
  heuristic_spec (filter (λ e, Is_true (is_resolvable e)) l) = heuristic_spec l.
Proof.
  unfold heuristic_spec.
  rewrite !count_events_filter; [done|..]; intros e; unfold flagged, is_resolvable, flag_is_binary.
  - rewrite bool_decide_eq_true. by intros ->.
  - rewrite andb_true_iff, bool_decide_eq_true. by intros [-> _].
  - rewrite bool_decide_eq_true. by intros ->.
  - rewrite andb_true_iff, bool_decide_eq_true. by intros [-> _].
  - done.
Qed.

(** X5. The decision of the polarity heuristic depends only on which events
    the sample holds, not on their order, and events whose flag is neither 0
    nor 1 do not influence it. *)
Theorem should_auto_swap_sample_order (sample sample' : list Event) :
  sample ≡ₚ sample' →
  _should_auto_swap sample = _should_auto_swap sample'
  ∧ _should_auto_swap (filter (λ e, Is_true (is_resolvable e)) sample) = _should_auto_swap sample.
Proof.
  intros H. rewrite !should_auto_swap_is_spec.
  split; [by apply heuristic_spec_perm|apply heuristic_spec_resolvable].
Qed.

Lemma should_auto_swap_sample_order_witness :
  _should_auto_swap (reverse synthetic_sample) = _should_auto_swap synthetic_sample.
Proof.
  apply (should_auto_swap_sample_order (reverse synthetic_sample) synthetic_sample).
  apply reverse_Permutation.
Defined.

(** ** The minutes of a segment, day by day *)

(** X6. Accumulating a segment adds to each day, on the side of the segment's
    state (IN for 1, OUT for 0), exactly the whole minutes of the segment,
    clipped to the window, that fall on that day; a segment of any other state
    changes no total. *)
Theorem segment_minutes_are_credited_day_by_day (day_totals : gmap date Bucket) (state : Z)
    (segment_start segment_end window_start window_end : datetime) (side : bool) (d : date) :
  minutes_on side d
    (_accumulate_segment_minutes day_totals state segment_start segment_end
       window_start window_end)
  = minutes_on side d day_totals
    + (if credited side state
       then chunk_minutes (Z.max segment_start window_start) (Z.min segment_end window_end) d
       else 0).
Proof. apply accumulate_segment_minutes. Qed.

(** ** Exchanging the polarity exchanges the sides *)

Lemma accumulate_chunks_exchange fuel : ∀ (m : gmap date Bucket) state c e,
  accumulate_chunks fuel (exchange_bucket <$> m) (1 - state) c e
  = exchange_bucket <$> accumulate_chunks fuel m state c e.
Proof.
  induction fuel as [|fuel IH]; intros m state c e; [done|].
  simpl. destruct (c <? e); [|done].
  destruct (0 <? whole_minutes c (Z.min e (midnight_of c + timedelta_days 1))); [|apply IH].
  rewrite <- IH. f_equal.
  rewrite fmap_insert. f_equal.
  rewrite lookup_fmap.
  destruct (m !! date_of c) as [b|]; simpl.
  - destruct (Z.eqb_spec state 1) as [->|H1]; [done|].
    destruct (Z.eqb_spec state 0) as [->|H0]; [done|].
    destruct (Z.eqb_spec (1 - state) 1); [lia|].
    destruct (Z.eqb_spec (1 - state) 0); [lia|]. done.
  - destruct (Z.eqb_spec state 1) as [->|H1]; [done|].
    destruct (Z.eqb_spec state 0) as [->|H0]; [done|].
    destruct (Z.eqb_spec (1 - state) 1); [lia|].
    destruct (Z.eqb_spec (1 - state) 0); [lia|]. done.
Qed.

Lemma accumulate_segment_exchange (m : gmap date Bucket) state x y s e :
  _accumulate_segment_minutes (exchange_bucket <$> m) (1 - state) x y s e
  = exchange_bucket <$> _accumulate_segment_minutes m state x y s e.
Proof.
  unfold _accumulate_segment_minutes.
  destruct (_ <=? _); [done|]. apply accumulate_chunks_exchange.
Qed.

Lemma event_state_negb e swap :
  _event_state e (negb swap) = (λ s, 1 - s) <$> _event_state e swap.
Proof.
  unfold _event_state.
  destruct (inout_flag e) as [f|]; [|done].
  destruct (Z.eqb_spec f 0) as [->|]; [destruct swap; done|].
  destruct (Z.eqb_spec f 1) as [->|]; [destruct swap; done|].
  done.
Qed.

Lemma timeline_walk_exchange swap s e l : ∀ st seg (tot : gmap date Bucket),
  timeline_walk (negb swap) s e l ((λ x, 1 - x) <$> st) seg (exchange_bucket <$> tot)
  = let '(st', seg', tot') := timeline_walk swap s e l st seg tot in
    ((λ x, 1 - x) <$> st', seg', exchange_bucket <$> tot').
Proof.
  induction l as [|ev l IH]; intros st seg tot; [done|].
  simpl. rewrite event_state_negb.
  destruct (_event_state ev swap) as [next|]; simpl; [|apply IH].
  destruct st as [cur|]; simpl.
  - replace (1 - next =? 1 - cur) with (next =? cur)
      by (destruct (Z.eqb_spec next cur), (Z.eqb_spec (1 - next) (1 - cur)); lia).
    destruct (next =? cur).
    + apply (IH (Some cur)).
    + destruct seg as [x|].
      * rewrite accumulate_segment_exchange. apply (IH (Some next)).
      * apply (IH (Some next)).
  - apply (IH (Some next)).
Qed.

Lemma sum_minutes_exchange side (m : gmap date Bucket) :
  sum_minutes side (exchange_bucket <$> m) = sum_minutes (negb side) m.
Proof.
  induction m as [|k b m Hk Hfirst IH] using map_first_key_ind.
  - rewrite fmap_empty. by rewrite !sum_minutes_empty.
  - rewrite fmap_insert.
    rewrite !sum_minutes_insert; [|done|by rewrite lookup_fmap, Hk].
    rewrite IH. by destruct side.
Qed.

Lemma totals_of_exchange (m : gmap date Bucket) :
  totals_of_day_totals (exchange_bucket <$> m) = exchange_totals (totals_of_day_totals m).
Proof.
  unfold totals_of_day_totals, exchange_totals. simpl.
  rewrite !sum_minutes_in, !sum_minutes_out, !sum_minutes_exchange. done.
Qed.

Lemma period_totals_exchange rows s e swap :
  period_totals_of_rows rows s e (negb swap)
  = exchange_totals (period_totals_of_rows rows s e swap).
Proof.
  unfold period_totals_of_rows.
  destruct (e <=? s); [done|].
  destruct (bool_decide _); [done|].
  rewrite <- totals_of_exchange. f_equal.
  pose proof (timeline_walk_exchange swap s e
    (stable_sort event_time
       match row_to_event <$> last_row_before s rows with
       | Some a => a :: (row_to_event <$> window_rows s e rows)
       | None => row_to_event <$> window_rows s e rows
       end) None None ∅) as H.
  rewrite fmap_empty in H. simpl in H. rewrite H.
  by destruct (timeline_walk swap s e _ None None ∅) as [[? ?] ?].
Qed.

(** X7. With a reachable database, computing the period totals with the
    opposite polarity gives the same result with IN and OUT exchanged: the two
    totals, their HH:MM texts and the two sides of every day; a failure stays
    the same failure. *)
Theorem polarity_swap_exchanges_totals (w : World) (card_no : string) (swap_applied : bool)
    (detector : Detector) (range : datetime * datetime) :
  db_reachable (database w) = true →
  period_run w card_no (negb swap_applied) detector range
  = map_result exchange_totals (period_run w card_no swap_applied detector range).
Proof.
  intros Hr. unfold period_run.
  destruct (run_compute_period w card_no range.1 range.2 (negb swap_applied) detector Hr)
    as (w1 & -> & _).
  destruct (run_compute_period w card_no range.1 range.2 swap_applied detector Hr)
    as (w2 & -> & _).
  simpl. by rewrite period_totals_exchange.
Qed.

Lemma polarity_swap_exchanges_totals_witness :
  period_run long_shift_world "7" true in_out_detector
    (at_time 2024 1 1 0 0, at_time 2024 1 3 0 0)
  = map_result exchange_totals
      (period_run long_shift_world "7" false in_out_detector
         (at_time 2024 1 1 0 0, at_time 2024 1 3 0 0)).
Proof.
  apply (polarity_swap_exchanges_totals long_shift_world "7" false in_out_detector
           (at_time 2024 1 1 0 0, at_time 2024 1 3 0 0)).
  reflexivity.
Defined.


(** ** No day is credited more than the window holds of it *)

Lemma chunk_minutes_super a b b' c d :
  b ≤ b' → b ≤ c → a ≤ b' →
  chunk_minutes a b d + chunk_minutes b' c d ≤ chunk_minutes a c d.
Proof.
  intros H1 H2 H3. unfold chunk_minutes, whole_minutes.
  rewrite us_per_minute_val, us_per_day_val.
  Z.div_mod_to_equations. lia.
Qed.

Lemma chunk_minutes_day c e d : chunk_minutes c e d ≤ 1440.
Proof.
  unfold chunk_minutes, whole_minutes.
  rewrite us_per_minute_val, us_per_day_val.
  Z.div_mod_to_equations. lia.
Qed.

Lemma chunk_minutes_outside c e d :
  d < date_of c ∨ date_of e < d → chunk_minutes c e d = 0.
Proof.
  intros H. unfold chunk_minutes, whole_minutes, date_of in *.
  rewrite us_per_minute_val, us_per_day_val in *.
  Z.div_mod_to_equations. lia.
Qed.

Lemma credited_sides state : (if credited true state then 1 else 0) + (if credited false state then 1 else 0) ≤ 1.
Proof.
  unfold credited. destruct (Z.eqb_spec state 1), (Z.eqb_spec state 0); lia.
Qed.

Lemma timeline_walk_day_bound swap s e l : ∀ st seg tot,
  ascending event_time l →
  match seg with
  | Some x => Forall (λ ev, x ≤ event_time ev) l
              ∧ ∀ d, minutes_on true d tot + minutes_on false d tot ≤ chunk_minutes s (Z.min x e) d
  | None => st = None ∧ ∀ d, minutes_on true d tot + minutes_on false d tot ≤ 0
  end →
  ∀ d, minutes_on true d (timeline_walk swap s e l st seg tot).2
       + minutes_on false d (timeline_walk swap s e l st seg tot).2 ≤ chunk_minutes s e d.
Proof.
  induction l as [|ev l IH]; intros st seg tot Hasc Hinv d.
  - cbn [timeline_walk snd]. destruct seg as [x|].
    + destruct Hinv as [_ Hd]. specialize (Hd d).
      pose proof (chunk_minutes_mono s (Z.min x e) s e d). unfold datetime in *. lia.
    + destruct Hinv as [_ Hd]. specialize (Hd d).
      pose proof (chunk_minutes_nonneg s e d). lia.
  - apply StronglySorted_inv in Hasc as [Hasc Hhd].
    cbn [timeline_walk]. destruct (_event_state ev swap) as [next|].
    2:{ apply IH; [done|]. destruct seg as [x|]; [|done].
        destruct Hinv as [Hall Hd]. split; [|done]. by apply Forall_inv_tail in Hall. }
    destruct st as [cur|].
    + destruct (next =? cur).
      * apply IH; [done|]. destruct seg as [x|]; [|by destruct Hinv].
        destruct Hinv as [Hall Hd]. split; [|done]. by apply Forall_inv_tail in Hall.
      * apply IH; [done|]. split; [done|].
        destruct seg as [x|]; [|by destruct Hinv].
        destruct Hinv as [Hall Hd]. apply Forall_inv in Hall.
        intros d'. rewrite !accumulate_segment_minutes.
        specialize (Hd d').
        pose proof (chunk_minutes_super s (Z.min x e) (Z.max x s) (Z.min (event_time ev) e) d').
        pose proof (chunk_minutes_nonneg (Z.max x s) (Z.min (event_time ev) e) d').
        pose proof (credited_sides cur).
        destruct (credited true cur), (credited false cur); lia.
    + apply IH; [done|]. split; [done|].
      intros d'. destruct seg as [x|].
      * destruct Hinv as [Hall Hd]. apply Forall_inv in Hall. specialize (Hd d').
        pose proof (chunk_minutes_mono s (Z.min x e) s (Z.min (event_time ev) e) d'). lia.
      * destruct Hinv as [_ Hd]. specialize (Hd d').
        pose proof (chunk_minutes_nonneg s (Z.min (event_time ev) e) d'). lia.
Qed.

Lemma per_day_bound rows s e swap d :
  minutes_on true d (per_day (period_totals_of_rows rows s e swap))
  + minutes_on false d (per_day (period_totals_of_rows rows s e swap))
  ≤ chunk_minutes s e d.
Proof.
  rewrite per_day_of_rows. destruct (e <=? s).
  - rewrite !minutes_on_empty. pose proof (chunk_minutes_nonneg s e d). lia.
  - apply timeline_walk_day_bound.
    + apply ascending_fmap_event, timeline_rows_ascending.
    + split; [done|]. intros d'. rewrite !minutes_on_empty. lia.
Qed.

(** X8. With a reachable database the period totals are computed, and for
    every day the IN and OUT minutes are non-negative and together at most the
    whole minutes of the window that fall on that day, hence at most 1440; a
    day before the window's first day or after its last day gets no minutes.
    *)
Theorem per_day_totals_within_window (w : World) (card_no : string) (swap_applied : bool)
    (detector : Detector) (start end_ : datetime) :
  db_reachable (database w) = true →
  ∃ totals,
    period_run w card_no swap_applied detector (start, end_) = Ok totals ∧
    ∀ d,
      0 ≤ minutes_on true d (per_day totals) ∧
      0 ≤ minutes_on false d (per_day totals) ∧
      minutes_on true d (per_day totals) + minutes_on false d (per_day totals)
      ≤ chunk_minutes start end_ d ∧
      chunk_minutes start end_ d ≤ 1440 ∧
      (d < date_of start ∨ date_of end_ < d → chunk_minutes start end_ d = 0).
Proof.
  intros Hr. unfold period_run.
  destruct (run_compute_period w card_no start end_ swap_applied detector Hr) as (w1 & H1 & _).
  cbn [fst snd]. rewrite H1. eexists. split; [done|]. intros d.
  pose proof (per_day_nonneg (visible_rows w card_no detector) start end_ swap_applied) as Hn.
  split; [apply (Hn true)|]. split; [apply (Hn false)|].
  split; [apply per_day_bound|].
  split; [apply chunk_minutes_day|apply chunk_minutes_outside].
Qed.

Lemma per_day_totals_within_window_witness :
  ∃ totals,
    period_run long_shift_world "7" false in_out_detector
      (at_time 2024 1 1 0 0, at_time 2024 1 3 0 0) = Ok totals ∧
    minutes_on true (ymd2ord 2024 1 1) (per_day totals)
    + minutes_on false (ymd2ord 2024 1 1) (per_day totals) ≤ 1440.
Proof.
  destruct (per_day_totals_within_window long_shift_world "7" false in_out_detector
              (at_time 2024 1 1 0 0) (at_time 2024 1 3 0 0) eq_refl) as (totals & Hrun & Hd).
  exists totals. split; [exact Hrun|].
  destruct (Hd (ymd2ord 2024 1 1)) as (_ & _ & H1 & H2 & _). lia.
Defined.


(** ** The bounds of a month and of a year *)

Lemma days_before_next_year y :
  days_before_year (y + 1) = days_before_year y + days_in_year y.
Proof.
  unfold days_before_year, days_in_year, is_leap.
  replace (y + 1 - 1) with y by lia.
  destruct (Z.eqb_spec (y mod 4) 0), (Z.eqb_spec (y mod 100) 0), (Z.eqb_spec (y mod 400) 0);
    simpl; Z.div_mod_to_equations; lia.
Qed.

Lemma month_cases m : 1 ≤ m ≤ 12 →
  m = 1 ∨ m = 2 ∨ m = 3 ∨ m = 4 ∨ m = 5 ∨ m = 6 ∨ m = 7 ∨ m = 8 ∨ m = 9 ∨ m = 10
  ∨ m = 11 ∨ m = 12.
Proof. lia. Qed.

Lemma first_of_next_month y m :
  1 ≤ m ≤ 12 →
  (if m =? 12 then ymd2ord (y + 1) 1 1 else ymd2ord y (m + 1) 1)
  = ymd2ord y m 1 + days_in_month y m.
Proof.
  intros Hm. unfold ymd2ord.
  assert (Hleap : is_leap y = true ∨ is_leap y = false) by (destruct (is_leap y); auto).
  destruct (month_cases m Hm) as [->|[->|[->|[->|[->|[->|[->|[->|[->|[->|[->| ->]]]]]]]]]]];
    repeat match goal with
      | |- context [Z.pos ?a + 1] =>
          let v := eval vm_compute in (Z.pos a + 1) in change (Z.pos a + 1) with v
      | |- context [Z.pos ?a =? 12] =>
          let v := eval vm_compute in (Z.pos a =? 12) in change (Z.pos a =? 12) with v
      end;
    cbv iota; try rewrite days_before_next_year;
    unfold days_before_month, days_in_month, days_in_year, days_before_month_table;
    destruct Hleap as [-> | ->]; vm_compute Z.to_nat; cbn; lia.
Qed.

Lemma days_in_month_bounds y m : 28 ≤ days_in_month y m ≤ 31.
Proof.
  unfold days_in_month.
  destruct ((m =? 2) && is_leap y), (m =? 2),
    ((m =? 4) || (m =? 6) || (m =? 9) || (m =? 11)); lia.
Qed.

Lemma mk_date_range y m d x :
  mk_date y m d = Some x →
  1 ≤ y ≤ 9999 ∧ 1 ≤ m ≤ 12 ∧ 1 ≤ d ≤ days_in_month y m ∧ x = ymd2ord y m d.
Proof.
  unfold mk_date. intros H.
  destruct (Z.leb_spec 1 y), (Z.leb_spec y 9999), (Z.leb_spec 1 m), (Z.leb_spec m 12),
    (Z.leb_spec 1 d), (Z.leb_spec d (days_in_month y m)); simpl in H; try done.
  inversion H. lia.
Qed.

Lemma mk_date_in_range y m d :
  1 ≤ y ≤ 9999 → 1 ≤ m ≤ 12 → 1 ≤ d ≤ days_in_month y m →
  mk_date y m d = Some (ymd2ord y m d).
Proof.
  intros. unfold mk_date.
  destruct (Z.leb_spec 1 y), (Z.leb_spec y 9999), (Z.leb_spec 1 m), (Z.leb_spec m 12),
    (Z.leb_spec 1 d), (Z.leb_spec d (days_in_month y m)); simpl; try lia. done.
Qed.

Lemma strptime_month_range mv y m :
  strptime_month mv = Some (y, m) → 1 ≤ y ≤ 9999 ∧ 1 ≤ m ≤ 12.
Proof.
  unfold strptime_month. intros H.
  destruct (match_year_month _) as [[[y' m'] rest]|]; [|done].
  destruct rest; [|done].
  destruct (mk_date y' m' 1) eqn:Hd; [|done].
  inversion H; subst. apply mk_date_range in Hd. lia.
Qed.

Lemma month_bounds_run (w : World) (month_value : string) (year month : Z) :
  strptime_month month_value = Some (year, month) →
  let start := datetime_combine_min (ymd2ord year month 1) in
  run (_month_bounds month_value) w
  = (if (year =? 9999) && (month =? 12) then Raise ValueError
     else Ok (start, start + timedelta_days (days_in_month year month), (year, month)), w)
  ∧ 28 ≤ days_in_month year month ≤ 31.
Proof.
  intros Hp start. split; [|apply days_in_month_bounds].
  pose proof (strptime_month_range _ _ _ Hp) as [Hy Hm].
  pose proof (days_in_month_bounds year month) as Hdim.
  pose proof (first_of_next_month year month Hm) as Hnext.
  unfold run, _month_bounds. rewrite Hp.
  unfold bind, first_of_month, mk_datetime.
  rewrite (mk_date_in_range year month 1) by lia. simpl.
  destruct (Z.eqb_spec month 12) as [->|Hne].
  - destruct (Z.eqb_spec year 9999) as [->|Hy9]; [done|]. simpl.
    rewrite (mk_date_in_range (year + 1) 1 1)
      by (try lia; pose proof (days_in_month_bounds (year + 1) 1); lia). simpl.
    unfold ret. do 3 f_equal. unfold start, datetime_combine_min, timedelta_days.
    rewrite Hnext. f_equal. lia.
  - rewrite andb_false_r.
    rewrite (mk_date_in_range year (month + 1) 1)
      by (try lia; pose proof (days_in_month_bounds year (month + 1)); lia).
    simpl. unfold ret. do 3 f_equal. unfold start, datetime_combine_min, timedelta_days.
    rewrite Hnext. f_equal. lia.
Qed.

(** X9. For a month string that parses, the bounds are the first midnight of
    the month and that midnight plus the number of days of the month (28 to
    31), with the parsed month as the normalized month, and no state is
    changed; the only exception is December 9999, where a ValueError is
    raised. *)
Theorem month_bounds_cover_the_month (w : World) (month_value : string) (year month : Z) :
  strptime_month month_value = Some (year, month) →
  let start := datetime_combine_min (ymd2ord year month 1) in
  run (_month_bounds month_value) w
  = (if (year =? 9999) && (month =? 12) then Raise ValueError
     else Ok (start, start + timedelta_days (days_in_month year month), (year, month)), w)
  ∧ 28 ≤ days_in_month year month ≤ 31.
Proof. apply month_bounds_run. Qed.

Lemma month_bounds_cover_the_month_witness :
  run (_month_bounds "2024-02") (world_of_events 6 [])
  = (Ok (datetime_combine_min (ymd2ord 2024 2 1),
         datetime_combine_min (ymd2ord 2024 2 1) + timedelta_days 29, (2024, 2)),
     world_of_events 6 []).
Proof.
  apply (month_bounds_cover_the_month (world_of_events 6 []) "2024-02" 2024 2).
  vm_compute. reflexivity.
Defined.




(** ** The schema cache *)

(** X11. Getting the schema returns the schema of the store and leaves it in
    the cache; the three introspection queries run only when the cache is
    empty, and a second call returns the same schema without any query or
    state change. The call fails only with a connection error, only when the
    cache is empty and the database is unreachable, and then leaves the state
    unchanged. *)
Theorem schema_is_resolved_once (w : World) :
  match run _get_schema w with
  | (Ok schema, w1) =>
      schema = schema_of w
      ∧ _SCHEMA_CACHE w1 = Some schema
      ∧ query_log w1
        = query_log w ++ (if is_some (_SCHEMA_CACHE w) then [] else schema_queries)
      ∧ run _get_schema w1 = (Ok schema, w1)
  | (Raise err, w1) =>
      err = DBOperationalError ∧ w1 = w ∧ _SCHEMA_CACHE w = None
      ∧ db_reachable (database w) = false
  end.
Proof.
  destruct w as [db cfg clk sc mc ql].
  unfold run, _get_schema, schema_of, bind, get_world. simpl.
  destruct sc as [s|]; simpl.
  - rewrite app_nil_r. done.
  - unfold get_cursor. simpl. destruct (db_reachable db) eqn:Hr; simpl; [|done].
    repeat split. by rewrite <- !app_assoc.
Qed.

(** ** Calls that keep the mapping cache *)

Lemma keeps_mapping_cache_refl w : keeps_mapping_cache w w.
Proof. done. Qed.

Lemma keeps_mapping_cache_trans w1 w2 w3 :
  keeps_mapping_cache w1 w2 → keeps_mapping_cache w2 w3 → keeps_mapping_cache w1 w3.
Proof.
  intros [H1 H1'] [H2 H2']. split; [by eapply evolves_trans|congruence].
Qed.

Lemma keeps_reachable w w' :
  evolves w w' → db_reachable (database w) = true → db_reachable (database w') = true.
Proof. by intros (-> & _). Qed.

Lemma run_get_schema_keeps w :
  db_reachable (database w) = true →
  ∃ w', run _get_schema w = (Ok (schema_of w), w') ∧ keeps_mapping_cache w w'.
Proof.
  intros Hr. destruct w as [db cfg clk sc mc ql]. simpl in Hr.
  unfold run, _get_schema, schema_of, bind, get_world. simpl.
  destruct sc as [s|]; simpl.
  - eexists. split; [reflexivity|]. done.
  - unfold get_cursor. simpl. rewrite Hr. simpl.
    eexists. split; [reflexivity|]. done.
Qed.

Lemma run_detect w :
  db_reachable (database w) = true →
  ∃ w', run _detect_event_variant w = (Ok (detector_of_schema (schema_of w)), w')
        ∧ keeps_mapping_cache w w'.
Proof.
  intros Hr. destruct (run_get_schema_keeps w Hr) as (w1 & H1 & Hk).
  unfold _detect_event_variant. rewrite (run_bind _ _ _ _ _ H1).
  exists w1. split; [|done]. unfold detector_of_schema.
  repeat (destruct (_ && _) || destruct (is_some _)); done.
Qed.

Lemma run_fetch_sample_keeps w det :
  db_reachable (database w) = true →
  variant det ≠ UNSUPPORTED →
  ∃ w', run (_fetch_recent_mapping_sample 200 (Some det)) w = (Ok (recent_sample w), w')
        ∧ keeps_mapping_cache w w'.
Proof.
  intros Hr Hv. destruct (run_get_schema_keeps w Hr) as (w1 & H1 & Hev & Hmc).
  unfold _fetch_recent_mapping_sample. rewrite (run_bind _ _ _ _ _ H1).
  unfold recent_sample.
  destruct (event_time_col (schema_of w)) as [tc|]; simpl.
  2: { exists w1. done. }
  unfold run, bind, ret. simpl. rewrite bool_decide_false by done.
  pose proof Hev as (Hd & Hs & Hc & Hsch).
  unfold get_cursor. rewrite Hd, Hr. simpl. rewrite ?Hd. eexists. split; [reflexivity|].
  split; [|done].
  eapply evolves_trans; [exact Hev|].
  unfold evolves, schema_of; simpl. rewrite ?Hd. done.
Qed.

Lemma run_sample_mapping_state_cache w now det :
  db_reachable (database w) = true →
  variant det ≠ UNSUPPORTED →
  ∃ w', run (sample_mapping_state now det) w
        = (Ok (state_of_sample det (recent_sample w)), w')
        ∧ evolves w w'
        ∧ _MAPPING_CACHE w'
          = Some (cache_entry_of now (state_of_sample det (recent_sample w))).
Proof.
  intros Hr Hv. destruct (run_fetch_sample_keeps w det Hr Hv) as (w1 & H1 & Hev & Hmc).
  unfold sample_mapping_state. rewrite (run_bind _ _ _ _ _ H1).
  unfold run, bind, set_mapping_cache, ret. simpl.
  eexists. split; [reflexivity|]. split; [|done].
  eapply evolves_trans; [exact Hev|]. done.
Qed.

Lemma run_get_mapping_state w det :
  db_reachable (database w) = true →
  ∃ w', run (_get_mapping_state (Some det)) w = (Ok (mapping_state_of w det), w')
        ∧ evolves w w'
        ∧ _MAPPING_CACHE w'
          = if bool_decide (variant det = UNSUPPORTED) || inout_swap (settings w)
               || mapping_cache_hit w det
            then _MAPPING_CACHE w
            else Some (cache_entry_of (clock w) (mapping_state_of w det)).
Proof.
  intros Hr. unfold _get_mapping_state, mapping_state_of, mapping_cache_hit, resolve_detector.
  unfold bind at 1. unfold ret at 1.
  destruct (bool_decide (variant det = UNSUPPORTED)) eqn:Hv; simpl.
  { exists w. done. }
  apply bool_decide_eq_false in Hv.
  unfold run, bind, get_world.
  destruct (inout_swap (settings w)) eqn:Hsw; simpl.
  { exists w. done. }
  destruct (run_sample_mapping_state_cache w (clock w) det Hr Hv) as (w1 & H1 & Hev & Hmc).
  unfold run in H1.
  destruct (_MAPPING_CACHE w) as [c|] eqn:Hc; simpl.
  - destruct (clock w - cache_ts c <? _MAPPING_CACHE_TTL_SECONDS); simpl.
    + destruct (bool_decide (cache_detectorVariant c = variant det)); simpl.
      * exists w. rewrite Hc. done.
      * exists w1. done.
    + exists w1. done.
  - exists w1. done.
Qed.

(** ** The mapping cache *)

(** X12. After the mapping state was computed from a sample (no manual
    override, supported detector, no fresh cache entry), any later call with
    the same cache and no override returns that same state without changing
    anything as long as less than the TTL has elapsed on the clock; once the
    TTL has elapsed, a call on a reachable database decides the state anew
    from the sample then in the store. *)
Theorem mapping_state_is_cached_for_the_ttl (w : World) (detector : Detector) :
  db_reachable (database w) = true →
  variant detector ≠ UNSUPPORTED →
  inout_swap (settings w) = false →
  mapping_cache_hit w detector = false →
  ∃ state w1,
    run (_get_mapping_state (Some detector)) w = (Ok state, w1) ∧
    evolves w w1 ∧
    ∀ w2, inout_swap (settings w2) = false → _MAPPING_CACHE w2 = _MAPPING_CACHE w1 →
      if clock w2 - clock w <? _MAPPING_CACHE_TTL_SECONDS
      then run (_get_mapping_state (Some detector)) w2 = (Ok state, w2)
      else db_reachable (database w2) = true →
           (run (_get_mapping_state (Some detector)) w2).1
           = Ok (state_of_sample detector (recent_sample w2)).
Proof.
  intros Hr Hv Hsw Hmiss.
  destruct (run_get_mapping_state w detector Hr) as (w1 & H1 & Hev & Hmc).
  rewrite bool_decide_false, Hsw, Hmiss in Hmc by done. simpl in Hmc.
  exists (mapping_state_of w detector), w1. split; [done|]. split; [done|].
  intros w2 Hsw2 Hc2.
  assert (Hst : mapping_state_of w detector = state_of_sample detector (recent_sample w)).
  { unfold mapping_state_of. by rewrite bool_decide_false, Hsw, Hmiss by done. }
  destruct (Z.ltb_spec (clock w2 - clock w) _MAPPING_CACHE_TTL_SECONDS) as [Hlt|Hge].
  - unfold run, _get_mapping_state, resolve_detector, bind, ret, get_world.
    rewrite bool_decide_false by done. rewrite Hsw2, Hc2, Hmc. simpl.
    destruct (Z.ltb_spec (clock w2 - clock w) _MAPPING_CACHE_TTL_SECONDS); [|lia].
    rewrite Hst. simpl. rewrite bool_decide_true by done. done.
  - intros Hr2. apply run_get_mapping_state_miss; try done.
    unfold mapping_cache_hit. rewrite Hc2, Hmc. simpl.
    destruct (Z.ltb_spec (clock w2 - clock w) _MAPPING_CACHE_TTL_SECONDS); [lia|done].
Qed.

Lemma mapping_state_is_cached_for_the_ttl_witness :
  ∃ state w1,
    run (_get_mapping_state (Some in_out_detector)) synthetic_world = (Ok state, w1) ∧
    run (_get_mapping_state (Some in_out_detector)) w1 = (Ok state, w1).
Proof.
  destruct (mapping_state_is_cached_for_the_ttl synthetic_world in_out_detector)
    as (state & w1 & Hrun & Hev & Hnext).
  - reflexivity.
  - discriminate.
  - reflexivity.
  - reflexivity.
  - exists state, w1. split; [exact Hrun|].
    destruct Hev as (_ & Hs & Hc & _).
    specialize (Hnext w1). rewrite Hs, Hc in Hnext.
    apply Hnext; reflexivity.
Defined.

Lemma consistent_state_of_sample det sample :
  variant det ≠ UNSUPPORTED → consistent_state (state_of_sample det sample) = true.
Proof.
  intros Hv. unfold consistent_state, state_of_sample. simpl.
  rewrite (bool_decide_false (variant det = UNSUPPORTED)) by done.
  by destruct (_should_auto_swap sample).
Qed.

Lemma consistent_cache_of_sample now det sample :
  consistent_cache (Some (cache_entry_of now (state_of_sample det sample))) = true.
Proof.
  unfold consistent_cache, cache_entry_of, state_of_sample. simpl.
  by destruct (_should_auto_swap sample).
Qed.

(** X13. With a reachable database and a consistent cache, the mapping state
    is always returned and is consistent: swapApplied holds exactly for the
    variant swapped, the variant is unsupported exactly for an unsupported
    detector, a manual override or an automatic detection implies the swap and
    they exclude each other; the state carries the detector's variant and the
    cache stays consistent. *)
Theorem mapping_state_stays_consistent (w : World) (detector : Detector) :
  db_reachable (database w) = true →
  consistent_cache (_MAPPING_CACHE w) = true →
  ∃ state w1,
    run (_get_mapping_state (Some detector)) w = (Ok state, w1) ∧
    consistent_state state = true ∧
    detectorVariant state = variant detector ∧
    consistent_cache (_MAPPING_CACHE w1) = true.
Proof.
  intros Hr Hc.
  destruct (run_get_mapping_state w detector Hr) as (w1 & H1 & Hev & Hmc).
  exists (mapping_state_of w detector), w1. split; [done|].
  unfold mapping_state_of in *.
  destruct (bool_decide (variant detector = UNSUPPORTED)) eqn:Hv; simpl in *.
  { rewrite Hmc. repeat split; try done.
    unfold consistent_state. simpl. by rewrite Hv. }
  destruct (inout_swap (settings w)); simpl in *.
  { rewrite Hmc. repeat split; try done.
    unfold consistent_state. simpl. by rewrite Hv. }
  destruct (mapping_cache_hit w detector) eqn:Hhit; simpl in *.
  - rewrite Hmc. repeat split; try done.
    unfold mapping_cache_hit in Hhit.
    destruct (_MAPPING_CACHE w) as [c|]; [|done]. simpl in *.
    unfold consistent_state, state_of_cache. simpl. rewrite Hv.
    destruct (cache_swapApplied c), (cache_autoDetected c),
      (bool_decide (cache_mappingVariant c = swapped)),
      (bool_decide (cache_mappingVariant c = unsupported)); done.
  - apply bool_decide_eq_false in Hv.
    rewrite Hmc. split; [by apply consistent_state_of_sample|].
    split; [done|]. apply consistent_cache_of_sample.
Qed.

Lemma mapping_state_stays_consistent_witness :
  ∃ state w1,
    run (_get_mapping_state (Some in_out_detector)) synthetic_world = (Ok state, w1) ∧
    consistent_state state = true ∧
    consistent_cache (_MAPPING_CACHE w1) = true.
Proof.
  destruct (mapping_state_stays_consistent synthetic_world in_out_detector)
    as (state & w1 & Hrun & Hst & _ & Hc).
  - reflexivity.
  - reflexivity.
  - exists state, w1. split; [exact Hrun|]. split; [exact Hst|exact Hc].
Defined.

(** ** Picking a column *)

Lemma string_lower_empty s : string_lower s = EmptyString ↔ s = EmptyString.
Proof. destruct s; simpl; split; done. Qed.

Lemma lowered_columns_snoc existing column :
  lowered_columns (existing ++ [column])
  = <[string_lower column := column]> (lowered_columns existing).
Proof. unfold lowered_columns. by rewrite foldl_snoc. Qed.

Lemma lowered_columns_lookup existing k :
  lowered_columns existing !! k = last (filter (λ c, string_lower c = k) existing).
Proof.
  induction existing as [|c existing IH] using rev_ind; [done|].
  rewrite lowered_columns_snoc, filter_app, filter_cons, filter_nil.
  destruct (decide (string_lower c = k)) as [<-|Hne].
  - rewrite lookup_insert_eq. by rewrite last_snoc.
  - rewrite lookup_insert_ne by done. by rewrite app_nil_r.
Qed.

Lemma lowered_found existing candidate found :
  lowered_columns existing !! string_lower candidate = Some found →
  found ∈ existing ∧ string_lower found = string_lower candidate.
Proof.
  rewrite lowered_columns_lookup. intros H.
  apply last_Some_elem_of in H. by apply list_elem_of_filter in H as [? ?].
Qed.

Lemma lowered_matches existing candidate :
  column_matches existing candidate ↔
  ∃ found, lowered_columns existing !! string_lower candidate = Some found
           ∧ found ≠ EmptyString.
Proof.
  split.
  - intros (c & Hin & Hne & Hlow).
    assert (Hf : c ∈ filter (λ c, string_lower c = string_lower candidate) existing)
      by (by apply list_elem_of_filter).
    rewrite lowered_columns_lookup.
    destruct (last _) as [found|] eqn:Hlast.
    + exists found. split; [done|].
      apply last_Some_elem_of, list_elem_of_filter in Hlast as [Hl _].
      intros ->. simpl in Hl. rewrite <- Hlow in Hl. symmetry in Hl.
      apply (proj1 (string_lower_empty c)) in Hl. congruence.
    + apply last_None in Hlast. rewrite Hlast in Hf. by apply elem_of_nil in Hf.
  - intros (found & Hl & Hne). apply lowered_found in Hl as [Hin Hlow].
    by exists found.
Qed.

Lemma pick_first_spec (existing candidates : list string) :
  match _pick_first existing candidates with
  | Some column =>
      column ∈ existing ∧ column ≠ EmptyString ∧
      ∃ earlier candidate later,
        candidates = earlier ++ candidate :: later ∧
        string_lower column = string_lower candidate ∧
        ∀ other, other ∈ earlier → ¬ column_matches existing other
  | None => ∀ candidate, candidate ∈ candidates → ¬ column_matches existing candidate
  end.
Proof.
  unfold _pick_first.
  induction candidates as [|cand rest IH]; simpl.
  - intros c Hc. by apply elem_of_nil in Hc.
  - assert (Hskip : ¬ column_matches existing cand →
      match pick_candidate (lowered_columns existing) rest with
      | Some column =>
          column ∈ existing ∧ column ≠ EmptyString ∧
          ∃ earlier candidate later,
            cand :: rest = earlier ++ candidate :: later ∧
            string_lower column = string_lower candidate ∧
            ∀ other, other ∈ earlier → ¬ column_matches existing other
      | None => ∀ candidate, candidate ∈ cand :: rest → ¬ column_matches existing candidate
      end).
    { intros Hno. destruct (pick_candidate _ rest) as [column|].
      - destruct IH as (Hin & Hne & earlier & c & later & -> & Hlow & Hnone).
        split; [done|]. split; [done|].
        exists (cand :: earlier), c, later. split; [done|]. split; [done|].
        intros other [->|Ho]%elem_of_cons; [done|by apply Hnone].
      - intros c [->|Hc]%elem_of_cons; [done|by apply IH]. }
    destruct (lowered_columns existing !! string_lower cand) as [found|] eqn:Hl.
    + destruct (bool_decide (found = EmptyString)) eqn:Hempty.
      * apply bool_decide_eq_true in Hempty. apply Hskip.
        intros (f & Hf & Hne)%lowered_matches. congruence.
      * apply bool_decide_eq_false in Hempty.
        apply lowered_found in Hl as [Hin Hlow].
        split; [done|]. split; [done|].
        exists [], cand, rest. split; [done|]. split; [done|].
        intros other Ho. by apply elem_of_nil in Ho.
    + apply Hskip. intros (f & Hf & Hne)%lowered_matches. congruence.
Qed.

(** X14. Picking a column returns a non-empty existing column that equals, up
    to case, the first candidate that matches any non-empty existing column,
    so the order of the candidates decides; it returns nothing exactly when no
    candidate matches. *)
Theorem pick_first_takes_the_first_match (existing candidates : list string) :
  match _pick_first existing candidates with
  | Some column =>
      column ∈ existing ∧ column ≠ EmptyString ∧
      ∃ earlier candidate later,
        candidates = earlier ++ candidate :: later ∧
        string_lower column = string_lower candidate ∧
        ∀ other, other ∈ earlier → ¬ column_matches existing other
  | None => ∀ candidate, candidate ∈ candidates → ¬ column_matches existing candidate
  end.
Proof. apply pick_first_spec. Qed.

(** ** The identity of an employee *)

Lemma run_fetch_identity w card :
  db_reachable (database w) = true →
  ∃ w', run (_fetch_employee_identity card) w
        = (if identity_query_accepted w card then Ok (report_identity w card)
           else Raise DBProgrammingError, w')
        ∧ evolves w w' ∧ _MAPPING_CACHE w' = _MAPPING_CACHE w.
Proof.
  intros Hr. destruct (run_get_schema_keeps w Hr) as (w1 & H1 & Hev & Hmc).
  unfold _fetch_employee_identity. rewrite (run_bind _ _ _ _ _ H1).
  pose proof Hev as (Hd & Hs & Hc & Hsch).
  unfold run, bind, ret, get_cursor, get_world, execute, identity_query_accepted.
  rewrite Hd, Hr. simpl. rewrite ?Hd.
  assert (Hev' : ∀ ql, evolves w (mkWorld (database w) (settings w1) (clock w1)
                                  (_SCHEMA_CACHE w1) (_MAPPING_CACHE w1) ql)).
  { intros ql. eapply evolves_trans; [exact Hev|].
    unfold evolves, schema_of; simpl. rewrite ?Hd. done. }
  destruct (accepts _ _); (eexists; split; [reflexivity|]; split; [apply Hev'|done]).
Qed.

Lemma evolves_identity_query_accepted w w' card :
  evolves w w' → identity_query_accepted w' card = identity_query_accepted w card.
Proof. intros (Hd & _ & _ & Hs). unfold identity_query_accepted. by rewrite Hd, Hs. Qed.

Lemma str_or_nonempty a b : b ≠ EmptyString → str_or a b ≠ EmptyString.
Proof.
  intros Hb. unfold str_or. destruct (bool_decide (a = EmptyString)) eqn:Ha; [done|].
  by apply bool_decide_eq_false in Ha.
Qed.

(** X15. On a reachable store that has the columns the identity query names,
    the identity of a card is returned. For a non-empty requested card its
    card number, name and employee id are non-empty, and the department is
    never an empty text. Without a matching employee row the identity is the
    requested card as id, card number and name, with no department; with a
    row, the card number is the row's cleaned card, or the requested card when
    that is blank. *)
Theorem employee_identity_falls_back_to_the_card (w : World) (card_no : string) :
  db_reachable (database w) = true →
  identity_query_accepted w card_no = true →
  ∃ identity w',
    run (_fetch_employee_identity card_no) w = (Ok identity, w') ∧
    (card_no = EmptyString ∨
     (id_card_no identity ≠ EmptyString ∧ id_employee_name identity ≠ EmptyString
      ∧ id_emp_id identity ≠ inr EmptyString)) ∧
    id_department identity ≠ Some EmptyString ∧
    match db_employee_by_card (database w) card_no with
    | [] => identity = mkIdentity (inr card_no) card_no card_no None
    | row :: _ =>
        id_card_no identity
        = (if bool_decide (cleaned_card row = EmptyString) then card_no else cleaned_card row)
    end.
Proof.
  intros Hr Hacc. destruct (run_fetch_identity w card_no Hr) as (w' & Hrun & _).
  rewrite Hacc in Hrun.
  eexists _, w'. split; [exact Hrun|]. unfold report_identity, identity_of_rows. cbv zeta.
  set (row := head (db_employee_by_card (database w) card_no)).
  split; [|split].
  - destruct (decide (card_no = EmptyString)) as [|Hne]; [by left|right]. simpl.
    assert (Hc : str_or (_clean_text (row ≫= row_CardNo)) card_no ≠ EmptyString)
      by (by apply str_or_nonempty).
    split; [done|]. split; [by apply str_or_nonempty|].
    unfold _normalize_emp_id. destruct (default SqlNull (row_EmpID <$> row)) as [|n|text].
    + congruence.
    + done.
    + destruct (bool_decide (strip text = EmptyString)) eqn:Hs; [congruence|].
      apply bool_decide_eq_false in Hs. destruct (py_int (strip text)); [done|congruence].
  - simpl. destruct (bool_decide _) eqn:Hd; [done|].
    apply bool_decide_eq_false in Hd. congruence.
  - subst row. destruct (db_employee_by_card (database w) card_no) as [|r rest]; simpl.
    + done.
    + done.
Qed.

Lemma employee_identity_falls_back_to_the_card_witness :
  ∃ identity w',
    run (_fetch_employee_identity "1001") staff_world = (Ok identity, w') ∧
    identity = mkIdentity (inr "1001"%string) "1001" "1001" None.
Proof.
  destruct (employee_identity_falls_back_to_the_card staff_world "1001" eq_refl eq_refl)
    as (identity & w' & Hrun & _ & _ & Hrow).
  exists identity, w'. split; [exact Hrun|exact Hrow].
Defined.

(** ** The two indices of the listing select the overnight window *)

Lemma filter_Forall_id {A} (P : A → Prop) `{∀ x, Decision (P x)} (l : list A) :
  Forall P l → filter P l = l.
Proof.
  induction 1 as [|x l Hx Hl IH]; [done|].
  rewrite filter_cons_True by done. by rewrite IH.
Qed.

Lemma filter_Forall_nil {A} (P : A → Prop) `{∀ x, Decision (P x)} (l : list A) :
  Forall (λ x, ¬ P x) l → filter P l = [].
Proof.
  induction 1 as [|x l Hx Hl IH]; [done|].
  by rewrite filter_cons_False.
Qed.

Lemma ascending_split (l : list Event) b :
  ascending event_time l →
  l = filter (λ e, event_time e < b) l ++ filter (λ e, b ≤ event_time e) l.
Proof.
  induction 1 as [|x l Hl IH Hx]; [done|].
  rewrite !filter_cons.
  destruct (decide (event_time x < b)) as [Hlt|Hge].
  - rewrite decide_False by lia. simpl. by rewrite <- IH.
  - rewrite decide_True by lia.
    rewrite (filter_Forall_nil (λ e, event_time e < b) l)
      by (eapply Forall_impl; [exact Hx|]; simpl; intros; lia).
    rewrite (filter_Forall_id (λ e, b ≤ event_time e) l)
      by (eapply Forall_impl; [exact Hx|]; simpl; intros; lia).
    done.
Qed.

Lemma ascending_filter (P : Event → Prop) `{∀ x, Decision (P x)} (l : list Event) :
  ascending event_time l → ascending event_time (filter P l).
Proof.
  induction 1 as [|x l Hl IH Hx]; [constructor|].
  rewrite filter_cons. destruct (decide (P x)); [|done].
  constructor; [done|].
  apply Forall_forall. intros y [_ Hy]%list_elem_of_filter.
  rewrite Forall_forall in Hx. by apply Hx.
Qed.

(** The number of events before a bound. *)
Lemma count_before_lt_app (l1 l2 : list Event) b :
  Forall (λ e, event_time e < b) l1 →
  count_before b (l1 ++ l2) = (length l1 + count_before b l2)%nat.
Proof.
  induction 1 as [|x l Hx Hl IH]; [done|].
  simpl. destruct (Z.ltb_spec (event_time x) b); [|lia]. by rewrite IH.
Qed.

Lemma count_before_ge (l : list Event) b :
  Forall (λ e, b ≤ event_time e) l → count_before b l = O.
Proof.
  destruct 1 as [|x l Hx Hl]; [done|].
  simpl. destruct (Z.ltb_spec (event_time x) b); [lia|done].
Qed.

Lemma Forall_filter_holds {A} (P : A → Prop) `{∀ x, Decision (P x)} (l : list A) :
  Forall P (filter P l).
Proof. apply Forall_forall. by intros x [? _]%list_elem_of_filter. Qed.

Lemma advance_index_ascending (events : list Event) idx b :
  ascending event_time events →
  (idx ≤ length (events_before b events))%nat →
  advance_index events idx b = length (events_before b events).
Proof.
  unfold events_before. intros Hs Hidx. unfold advance_index.
  rewrite (ascending_split events b Hs) at 1.
  rewrite drop_app_le by done.
  rewrite count_before_lt_app.
  2:{ apply Forall_drop, Forall_filter_holds. }
  rewrite count_before_ge by apply Forall_filter_holds.
  rewrite length_drop. lia.
Qed.

Lemma filter_lt_mono (events : list Event) b b' :
  b ≤ b' →
  (length (events_before b events)
   ≤ length (events_before b' events))%nat.
Proof.
  unfold events_before. intros Hb. induction events as [|x l IH]; [done|].
  rewrite !filter_cons.
  destruct (decide (event_time x < b)), (decide (event_time x < b')); simpl; lia.
Qed.

Lemma slice_ascending (events : list Event) lo hi :
  ascending event_time events → lo ≤ hi →
  slice events (length (events_before lo events))
               (length (events_before hi events))
  = events_between lo hi events.
Proof.
  intros Hs Hle. unfold slice, events_between, events_before.
  set (A := filter (λ e, event_time e < lo) events).
  set (B := filter (λ e, lo ≤ event_time e) events).
  assert (Hev : events = A ++ B) by apply (ascending_split events lo Hs).
  assert (HB : ascending event_time B) by (by apply ascending_filter).
  assert (Hdrop : drop (length A) events = B).
  { rewrite Hev at 1. by rewrite drop_app_length. }
  rewrite Hdrop.
  assert (Hhi : filter (λ e, event_time e < hi) events
                = A ++ filter (λ e, event_time e < hi) B).
  { rewrite Hev at 1. rewrite filter_app. f_equal.
    apply filter_Forall_id. eapply Forall_impl; [apply Forall_filter_holds|].
    simpl. intros; lia. }
  rewrite Hhi, length_app. fold (events_before hi B).
  replace (length A + length (events_before hi B) - length A)%nat
    with (length (events_before hi B)) by lia.
  unfold events_before.
  rewrite (ascending_split B hi HB) at 2.
  rewrite take_app_length.
  unfold B. rewrite list_filter_filter. apply list_filter_iff. intros e. lia.
Qed.

Lemma records_of_days_cons cfg events swap c days :
  records_of_days cfg events swap (c :: days)
  = (if has_relevant_events (day_attendance_of cfg events swap c)
     then [_serialize_day_record (day_attendance_of cfg events swap c)] else [])
    ++ records_of_days cfg events swap days.
Proof.
  unfold records_of_days. rewrite fmap_cons, filter_cons.
  destruct (has_relevant_events _); simpl; done.
Qed.

Lemma daily_records_loop_days cfg events end_ swap :
  ascending event_time events →
  0 ≤ shift_out_cutoff_hours cfg →
  ∀ fuel c si ei recs,
    (si ≤ length (events_before c events))%nat →
    (ei ≤ length (events_before (overnight_end_of cfg c) events))%nat →
    (∀ k, 0 ≤ k < Z.of_nat fuel → c + k * us_per_day < end_) →
    daily_records_loop fuel cfg events end_ swap c si ei recs
    = recs ++ records_of_days cfg events swap (day_starts fuel c).
Proof.
  intros Hs Hcut. induction fuel as [|fuel IH]; intros c si ei recs Hsi Hei Hdays.
  - simpl. by rewrite app_nil_r.
  - cbn [daily_records_loop day_starts].
    destruct (Z.ltb_spec c end_) as [_|Hge].
    2:{ specialize (Hdays 0). lia. }
    assert (Hoe : c ≤ overnight_end_of cfg c).
    { unfold overnight_end_of, timedelta_days, timedelta_hours, us_per_day, us_per_hour,
        us_per_minute, us_per_second. lia. }
    rewrite (advance_index_ascending events si c Hs Hsi).
    set (n1 := length (events_before c events)).
    set (n2 := length (events_before (overnight_end_of cfg c) events)).
    assert (Hn12 : (n1 ≤ n2)%nat) by (by apply filter_lt_mono).
    fold (overnight_end_of cfg c).
    assert (Hadv : advance_index events (if (ei <? n1)%nat then n1 else ei)
                     (overnight_end_of cfg c) = n2).
    { apply advance_index_ascending; [done|].
      destruct (Nat.ltb_spec ei n1); fold n2; lia. }
    rewrite Hadv. unfold n1, n2. rewrite (slice_ascending events _ _ Hs Hoe).
    fold n1 n2. fold (day_attendance_of cfg events swap c).
    rewrite records_of_days_cons.
    rewrite IH.
    + destruct (has_relevant_events _); [by rewrite <- app_assoc|done].
    + apply filter_lt_mono. unfold timedelta_days, us_per_day, us_per_hour,
        us_per_minute, us_per_second. lia.
    + apply filter_lt_mono. unfold overnight_end_of, timedelta_days, us_per_day, us_per_hour,
        us_per_minute, us_per_second. lia.
    + intros k Hk. specialize (Hdays (k + 1)). unfold timedelta_days.
      replace (c + 1 * us_per_day + k * us_per_day) with (c + (k + 1) * us_per_day) by lia.
      apply Hdays. lia.
Qed.

Lemma days_fuel_days start end_ k :
  0 ≤ k < Z.of_nat (days_fuel start end_) → start + k * us_per_day < end_.
Proof.
  unfold days_fuel. rewrite us_per_day_val. intros Hk.
  destruct (Z.le_gt_cases end_ start) as [Hle|Hgt].
  - assert ((end_ - start + 86400000000 - 1) / 86400000000 ≤ 0).
    { apply Z.lt_succ_r. apply Z.div_lt_upper_bound; lia. }
    lia.
  - rewrite Z2Nat.id in Hk by (apply Z.div_pos; lia).
    pose proof (Z.div_mod (end_ - start + 86400000000 - 1) 86400000000 ltac:(lia)).
    pose proof (Z.mod_pos_bound (end_ - start + 86400000000 - 1) 86400000000 ltac:(lia)).
    lia.
Qed.

(** X16. On events in ascending time order and a non-negative cutoff, the
    two-index scan of the listing loop gives, for each day from the start up
    to the end, the record computed from exactly the events of that day's
    overnight window, and keeps the records of the days with relevant events.
    *)
Theorem listing_scan_selects_each_overnight_window (cfg : Settings) (events : list Event)
    (start end_ : datetime) (swap_applied : bool) :
  ascending event_time events →
  0 ≤ shift_out_cutoff_hours cfg →
  daily_records_loop (days_fuel start end_) cfg events end_ swap_applied start 0 0 []
  = records_of_days cfg events swap_applied (day_starts (days_fuel start end_) start).
Proof.
  intros Hs Hcut.
  rewrite (daily_records_loop_days cfg events end_ swap_applied Hs Hcut);
    [done|simpl; lia|simpl; lia|].
  apply days_fuel_days.
Qed.

Lemma listing_scan_selects_each_overnight_window_witness :
  daily_records_loop (days_fuel (at_time 2024 1 1 0 0) (at_time 2024 1 3 0 0))
    (mkSettings 6 false) overnight_events (at_time 2024 1 3 0 0) false
    (at_time 2024 1 1 0 0) 0 0 []
  = records_of_days (mkSettings 6 false) overnight_events false
      (day_starts (days_fuel (at_time 2024 1 1 0 0) (at_time 2024 1 3 0 0))
         (at_time 2024 1 1 0 0))
  ∧ records_of_days (mkSettings 6 false) overnight_events false
      [at_time 2024 1 1 0 0; at_time 2024 1 2 0 0]
    = [overnight_first_day; overnight_second_day].
Proof.
  split; [|vm_compute; reflexivity].
  apply (listing_scan_selects_each_overnight_window (mkSettings 6 false) overnight_events).
  - unfold ascending, overnight_events. repeat constructor. by vm_compute.
  - simpl. lia.
Defined.

(** ** The listing and the single days *)

Lemma filter_fmap_comm {A B} (f : A → B) (P : B → Prop) (Q : A → Prop)
    `{∀ x, Decision (P x)} `{∀ x, Decision (Q x)} (l : list A) :
  (∀ x, P (f x) ↔ Q x) → filter P (f <$> l) = f <$> filter Q l.
Proof.
  intros HPQ. induction l as [|x l IH]; [done|].
  rewrite fmap_cons, !filter_cons, IH.
  destruct (decide (P (f x))) as [HP|HP], (decide (Q x)) as [HQ|HQ]; try done.
  - by apply HPQ in HP.
  - by apply HPQ in HQ.
Qed.

Section filter_sorted.

Context {A : Type} (key : A → Z) (P : A → Prop) `{∀ x, Decision (P x)}.

Lemma filter_insert_sorted x l :
  ascending key l →
  filter P (insert_sorted key x l)
  = if decide (P x) then insert_sorted key x (filter P l) else filter P l.
Proof.
  induction 1 as [|y l Hl IH Hy].
  - simpl. rewrite filter_cons, filter_nil. by destruct (decide (P x)).
  - simpl. destruct (Z.leb_spec (key x) (key y)) as [Hle|Hgt].
    + rewrite filter_cons. destruct (decide (P x)); [|done].
      rewrite insert_sorted_head; [done|].
      apply Forall_forall. intros z [_ Hz]%list_elem_of_filter.
      apply elem_of_cons in Hz as [->|Hz]; [done|].
      rewrite Forall_forall in Hy. specialize (Hy z Hz). simpl in Hy. lia.
    + rewrite !(filter_cons _ y), IH.
      destruct (decide (P y)), (decide (P x)); try done.
      simpl. destruct (Z.leb_spec (key x) (key y)); [lia|done].
Qed.

Lemma filter_stable_sort l : filter P (stable_sort key l) = stable_sort key (filter P l).
Proof.
  induction l as [|x l IH]; [done|].
  change (stable_sort key (x :: l)) with (insert_sorted key x (stable_sort key l)).
  rewrite filter_insert_sorted by apply stable_sort_ascending.
  rewrite filter_cons, IH. by destruct (decide (P x)).
Qed.

End filter_sorted.

Lemma events_between_window lo hi s e rows :
  s ≤ lo → hi ≤ e →
  events_between lo hi (row_to_event <$> window_rows s e rows)
  = row_to_event <$> window_rows lo hi rows.
Proof.
  intros Hlo Hhi. unfold events_between.
  rewrite (filter_fmap_comm row_to_event _ (λ r, lo ≤ r.1 ∧ r.1 < hi)) by done.
  f_equal. unfold window_rows.
  rewrite (filter_stable_sort fst), list_filter_filter.
  f_equal. apply list_filter_iff. intros [t f]. simpl. unfold datetime in *. lia.
Qed.

Lemma has_relevant_is_listed cfg day_start evs swap :
  has_relevant_events (_compute_day_attendance cfg day_start evs swap)
  = is_listed (_serialize_day_record (_compute_day_attendance cfg day_start evs swap)).
Proof.
  destruct (day_attendance_sides cfg day_start evs swap) as (Hf & Hl & Hrel).
  rewrite Hrel. unfold is_listed, _serialize_day_record, _format_dt. simpl.
  rewrite Hl, Hf.
  destruct (side_events_within true swap _ _ evs) as [|a ins]; simpl.
  - destruct (side_events_within false swap _ _ evs) as [|b outs]; done.
  - by rewrite orb_true_r || done.
Qed.

Lemma day_attendance_of_window cfg rows swap s e c :
  s ≤ c → overnight_end_of cfg c ≤ e →
  _serialize_day_record
    (day_attendance_of cfg (row_to_event <$> window_rows s e rows) swap c)
  = _serialize_day_record
      (_compute_day_attendance cfg c
         (row_to_event <$> window_rows c (overnight_end_of cfg c) rows) swap)
  ∧ has_relevant_events
      (day_attendance_of cfg (row_to_event <$> window_rows s e rows) swap c)
    = is_listed
        (_serialize_day_record
           (_compute_day_attendance cfg c
              (row_to_event <$> window_rows c (overnight_end_of cfg c) rows) swap)).
Proof.
  intros Hs He. unfold day_attendance_of.
  rewrite events_between_window by done.
  split; [done|apply has_relevant_is_listed].
Qed.

Lemma day_starts_aligned n : ∀ d,
  day_starts n (datetime_combine_min d) = datetime_combine_min <$> seqZ d (Z.of_nat n).
Proof.
  induction n as [|n IH]; intros d; [done|].
  rewrite seqZ_cons by lia. rewrite fmap_cons. cbn [day_starts]. f_equal.
  replace (datetime_combine_min d + timedelta_days 1) with (datetime_combine_min (Z.succ d))
    by (unfold datetime_combine_min, timedelta_days; lia).
  rewrite IH. do 2 f_equal. lia.
Qed.

Lemma days_fuel_aligned d0 d1 :
  days_fuel (datetime_combine_min d0) (datetime_combine_min d1) = Z.to_nat (d1 - d0).
Proof.
  unfold days_fuel, datetime_combine_min. rewrite us_per_day_val. f_equal.
  replace (d1 * 86400000000 - d0 * 86400000000 + 86400000000 - 1)
    with ((d1 - d0) * 86400000000 + 86399999999) by lia.
  rewrite Z.div_add_l by lia.
  rewrite (Z.div_small 86399999999) by lia. lia.
Qed.

Lemma window_rows_ascending_events s e rows :
  ascending event_time (row_to_event <$> window_rows s e rows).
Proof. apply ascending_fmap_event. unfold window_rows. apply stable_sort_ascending. Qed.

Lemma listing_of_rows_days cfg rows swap d0 d1 :
  0 ≤ shift_out_cutoff_hours cfg →
  listing_of_rows cfg rows swap d0 d1
  = filter (λ r, Is_true (is_listed r))
      (day_record_of_rows cfg rows swap <$> seqZ d0 (d1 - d0)).
Proof.
  intros Hcut. unfold listing_of_rows.
  rewrite (daily_records_loop_days cfg _ _ swap (window_rows_ascending_events _ _ _) Hcut);
    [|simpl; lia|simpl; lia|apply days_fuel_days].
  simpl. rewrite days_fuel_aligned, day_starts_aligned.
  unfold records_of_days.
  destruct (Z.le_gt_cases d1 d0) as [Hle|Hgt].
  { replace (Z.to_nat (d1 - d0)) with O by lia. simpl. by rewrite seqZ_nil by lia. }
  rewrite Z2Nat.id by lia.
  assert (Hdays : Forall (λ d, d0 ≤ d < d1) (seqZ d0 (d1 - d0))).
  { apply Forall_seqZ. intros; lia. }
  induction (seqZ d0 (d1 - d0)) as [|d ds IH]; [done|].
  apply Forall_cons in Hdays as [Hd Hds].
  rewrite !fmap_cons, !filter_cons. rewrite <- (IH Hds). clear IH.
  assert (Hc : datetime_combine_min d0 ≤ datetime_combine_min d) 
    by (unfold datetime_combine_min; rewrite us_per_day_val; lia).
  assert (He : overnight_end_of cfg (datetime_combine_min d)
               ≤ overnight_end_of cfg (datetime_combine_min d1)).
  { unfold overnight_end_of, datetime_combine_min. rewrite us_per_day_val. lia. }
  destruct (day_attendance_of_window cfg rows swap _ _ _ Hc He) as [Hrec Hrel].
  fold (day_record_of_rows cfg rows swap d) in Hrec, Hrel.
  rewrite Hrel.
  destruct (is_listed (day_record_of_rows cfg rows swap d)) eqn:Hl.
  - rewrite !decide_True by done. rewrite fmap_cons. by rewrite Hrec.
  - rewrite !decide_False by (by intros []). done.
Qed.

(** ** The reports in a world *)

Lemma run_build_daily_records w card d0 d1 swap det :
  db_reachable (database w) = true →
  ∃ w', run (_build_daily_records_for_period card (datetime_combine_min d0)
               (datetime_combine_min d1) swap (Some det)) w
        = (Ok (listing_of_rows (settings w) (visible_rows w card det) swap d0 d1), w')
        ∧ evolves w w'.
Proof.
  intros Hr. unfold _build_daily_records_for_period.
  unfold bind at 1. unfold get_world at 1.
  destruct (run_fetch_events w card (datetime_combine_min d0)
              (datetime_combine_min d1
               + (timedelta_days 1 + timedelta_hours (shift_out_cutoff_hours (settings w))))
              det Hr) as (w1 & H1 & Hev).
  unfold run in *. unfold bind. rewrite H1.
  exists w1. split; [|done]. unfold ret, listing_of_rows, overnight_end_of.
  by rewrite Z.add_assoc.
Qed.

Lemma run_build_single_day w card d swap det :
  db_reachable (database w) = true →
  ∃ w', run (_build_single_day_record card d swap (Some det)) w
        = (Ok (day_record_of_rows (settings w) (visible_rows w card det) swap d), w')
        ∧ evolves w w'.
Proof.
  intros Hr. unfold _build_single_day_record.
  unfold bind at 1. unfold get_world at 1.
  destruct (run_fetch_events w card (datetime_combine_min d)
              (datetime_combine_min d + timedelta_days 1
               + timedelta_hours (shift_out_cutoff_hours (settings w)))
              det Hr) as (w1 & H1 & Hev).
  unfold run in *. unfold bind. rewrite H1.
  exists w1. split; [|done]. done.
Qed.

Lemma single_day_runs w card swap det (days : list date) :
  db_reachable (database w) = true →
  single_day_run w card swap det <$> days
  = Ok <$> (day_record_of_rows (settings w) (visible_rows w card det) swap <$> days).
Proof.
  intros Hr. rewrite <- list_fmap_compose. apply list_fmap_ext. intros i d _.
  unfold single_day_run. simpl.
  by destruct (run_build_single_day w card d swap det Hr) as (w1 & -> & _).
Qed.

(** X17. With a reachable database and a non-negative cutoff, the listing of a
    range of days is, in order, the single-day records of the days of the
    range that have a first IN or a last OUT. *)
Theorem listing_shows_the_single_day_records (w : World) (card_no : string)
    (swap_applied : bool) (detector : Detector) (first last : date) :
  db_reachable (database w) = true →
  0 ≤ shift_out_cutoff_hours (settings w) →
  ∃ records days,
    listing_run w card_no swap_applied detector first last = Ok records ∧
    single_day_run w card_no swap_applied detector <$> seqZ first (last - first)
    = Ok <$> days ∧
    records = filter (λ r, Is_true (is_listed r)) days.
Proof.
  intros Hr Hcut.
  destruct (run_build_daily_records w card_no first last swap_applied detector Hr)
    as (w1 & H1 & _).
  eexists _, _. unfold listing_run. rewrite H1. split; [done|].
  split; [by apply single_day_runs|].
  by apply listing_of_rows_days.
Qed.

Lemma listing_shows_the_single_day_records_witness :
  ∃ records days,
    listing_run overnight_world "7" false in_out_detector (ymd2ord 2024 1 1) (ymd2ord 2024 1 4)
    = Ok records ∧
    single_day_run overnight_world "7" false in_out_detector
      <$> seqZ (ymd2ord 2024 1 1) (ymd2ord 2024 1 4 - ymd2ord 2024 1 1)
    = Ok <$> days ∧
    records = filter (λ r, Is_true (is_listed r)) days.
Proof.
  apply (listing_shows_the_single_day_records overnight_world "7" false in_out_detector
           (ymd2ord 2024 1 1) (ymd2ord 2024 1 4)).
  - reflexivity.
  - vm_compute. discriminate.
Defined.

Lemma mapping_state_of_keeps w w' det :
  keeps_mapping_cache w w' → mapping_state_of w' det = mapping_state_of w det.
Proof.
  intros [(Hd & Hs & Hc & Hsch) Hmc].
  unfold mapping_state_of, mapping_cache_hit, recent_sample.
  by rewrite Hd, Hs, Hc, Hsch, Hmc.
Qed.

Lemma run_report_prefix w card :
  db_reachable (database w) = true →
  identity_query_accepted w card = true →
  ∃ w3,
    evolves w w3 ∧
    ∀ A (k : Detector → MappingState → Identity → M A),
      run (do detector <~ _detect_event_variant;
           do mapping <~ _get_mapping_state (Some detector);
           do identity <~ _fetch_employee_identity card;
           k detector mapping identity) w
      = run (k (report_detector w) (report_mapping w) (report_identity w card)) w3.
Proof.
  intros Hr Hacc.
  destruct (run_detect w Hr) as (w1 & H1 & Hk1).
  pose proof Hk1 as [Hev1 _].
  pose proof (keeps_reachable _ _ Hev1 Hr) as Hr1.
  destruct (run_get_mapping_state w1 (detector_of_schema (schema_of w)) Hr1)
    as (w2 & H2 & Hev2 & _).
  rewrite (mapping_state_of_keeps _ _ _ Hk1) in H2.
  pose proof (keeps_reachable _ _ Hev2 Hr1) as Hr2.
  destruct (run_fetch_identity w2 card Hr2) as (w3 & H3 & Hev3 & _).
  rewrite (evolves_identity_query_accepted _ _ _ Hev2),
    (evolves_identity_query_accepted _ _ _ Hev1), Hacc in H3.
  assert (Hid : report_identity w2 card = report_identity w card).
  { unfold report_identity. destruct Hev1 as (Hd1 & _), Hev2 as (Hd2 & _). by rewrite Hd2, Hd1. }
  rewrite Hid in H3.
  exists w3. split; [eauto using evolves_trans|].
  intros A k.
  rewrite (run_bind _ _ _ _ _ H1), (run_bind _ _ _ _ _ H2), (run_bind _ _ _ _ _ H3).
  done.
Qed.

Lemma evolves_settings w w' : evolves w w' → settings w' = settings w.
Proof. by intros (_ & ? & _). Qed.

Lemma run_fetch_monthly_report w card mv d0 d1 key :
  db_reachable (database w) = true →
  identity_query_accepted w card = true →
  run (_month_bounds mv) w = (Ok (datetime_combine_min d0, datetime_combine_min d1, key), w) →
  ∃ w',
    run (fetch_monthly_report card mv) w
    = (Ok {| monthly_identity := report_identity w card;
             monthly_month := key;
             monthly_records := report_listing w card d0 d1;
             monthly_total_days :=
               count_where (λ item, is_some (rec_first_in item)) (report_listing w card d0 d1);
             monthly_missing_punch_days :=
               count_where rec_missing_punch (report_listing w card d0 d1);
             monthly_total_minutes :=
               sum_of (λ item, default 0 (rec_duration_minutes item))
                 (report_listing w card d0 d1);
             monthly_totals := report_totals w card d0 d1;
             monthly_mappingVariant := mappingVariant (report_mapping w);
             monthly_swapApplied := swapApplied (report_mapping w) |}, w').
Proof.
  intros Hr Hacc Hb. unfold fetch_monthly_report.
  rewrite (run_bind _ _ _ _ _ Hb). cbv beta iota.
  destruct (run_report_prefix w card Hr Hacc) as (w3 & Hev & Hpre).
  rewrite Hpre.
  pose proof (keeps_reachable _ _ Hev Hr) as Hr3.
  destruct (run_build_daily_records w3 card d0 d1 (swapApplied (report_mapping w))
              (report_detector w) Hr3) as (w4 & H4 & Hev4).
  rewrite (run_bind _ _ _ _ _ H4).
  pose proof (keeps_reachable _ _ Hev4 Hr3) as Hr4.
  destruct (run_compute_period w4 card (datetime_combine_min d0) (datetime_combine_min d1)
              (swapApplied (report_mapping w)) (report_detector w) Hr4) as (w5 & H5 & Hev5).
  rewrite (run_bind _ _ _ _ _ H5).
  rewrite (evolves_visible _ _ _ _ Hev4), !(evolves_visible _ _ _ _ Hev),
    (evolves_settings _ _ Hev).
  exists w5. done.
Qed.


Lemma run_fetch_daily_report w card dv d :
  db_reachable (database w) = true →
  identity_query_accepted w card = true →
  strptime_date dv = Some d →
  ∃ w',
    run (fetch_daily_report card dv) w
    = (Ok (let record :=
             day_record_of_rows (settings w) (report_rows w card)
               (swapApplied (report_mapping w)) d in
           {| daily_identity := report_identity w card;
              daily_record := record;
              daily_totals := report_totals w card d (d + 1);
              daily_total_work_minutes := rec_duration_minutes record;
              daily_mappingVariant := mappingVariant (report_mapping w);
              daily_swapApplied := swapApplied (report_mapping w) |}), w').
Proof.
  intros Hr Hacc Hp. unfold fetch_daily_report, _parse_date. rewrite Hp.
  unfold bind at 1. unfold ret at 1.
  destruct (run_report_prefix w card Hr Hacc) as (w3 & Hev & Hpre).
  rewrite Hpre.
  pose proof (keeps_reachable _ _ Hev Hr) as Hr3.
  destruct (run_build_single_day w3 card d (swapApplied (report_mapping w))
              (report_detector w) Hr3) as (w4 & H4 & Hev4).
  rewrite (run_bind _ _ _ _ _ H4).
  pose proof (keeps_reachable _ _ Hev4 Hr3) as Hr4.
  destruct (run_compute_period w4 card (datetime_combine_min d)
              (datetime_combine_min d + timedelta_days 1)
              (swapApplied (report_mapping w)) (report_detector w) Hr4) as (w5 & H5 & Hev5).
  rewrite (run_bind _ _ _ _ _ H5).
  rewrite (evolves_visible _ _ _ _ Hev4), !(evolves_visible _ _ _ _ Hev),
    (evolves_settings _ _ Hev).
  exists w5. unfold run, ret, report_totals.
  replace (datetime_combine_min (d + 1)) with (datetime_combine_min d + timedelta_days 1)
    by (unfold datetime_combine_min, timedelta_days; lia).
  done.
Qed.

(** ** Employee queries on a store without their columns *)









(** ** The daily report and the monthly report *)

Lemma filter_eq_seqZ d m n : m ≤ d < m + n → filter (λ x, x = d) (seqZ m n) = [d].
Proof.
  intros Hd.
  replace n with ((d - m) + (1 + (m + n - d - 1))) by lia.
  rewrite seqZ_app by lia. rewrite (seqZ_app _ 1) by lia.
  rewrite !filter_app.
  rewrite (filter_Forall_nil (λ x, x = d) (seqZ m (d - m)))
    by (apply Forall_seqZ; intros; lia).
  rewrite (filter_Forall_nil (λ x, x = d) (seqZ (m + (d - m) + 1) _))
    by (apply Forall_seqZ; intros; lia).
  replace (m + (d - m)) with d by lia.
  rewrite seqZ_cons by lia. rewrite seqZ_nil by lia.
  rewrite filter_cons_True by done. done.
Qed.

Lemma date_of_combine d : date_of (datetime_combine_min d) = d.
Proof.
  unfold date_of, datetime_combine_min. rewrite us_per_day_val. apply Z.div_mul. lia.
Qed.

Lemma rec_date_of_rows cfg rows swap d : rec_date (day_record_of_rows cfg rows swap d) = d.
Proof.
  unfold day_record_of_rows, _serialize_day_record, _compute_day_attendance.
  destruct (primary_buckets _ _ _ _) as [a b]. simpl. apply date_of_combine.
Qed.

Lemma listing_on_a_day cfg rows swap d0 d1 d :
  0 ≤ shift_out_cutoff_hours cfg → d0 ≤ d < d1 →
  filter (λ r, rec_date r = d) (listing_of_rows cfg rows swap d0 d1)
  = if is_listed (day_record_of_rows cfg rows swap d)
    then [day_record_of_rows cfg rows swap d] else [].
Proof.
  intros Hcut Hd. rewrite listing_of_rows_days by done.
  rewrite list_filter_filter.
  rewrite (list_filter_iff _ (λ r, Is_true (is_listed r) ∧ rec_date r = d)) by (intros; tauto).
  rewrite <- (list_filter_filter (λ r, Is_true (is_listed r)) (λ r, rec_date r = d)).
  rewrite (filter_fmap_comm _ (λ r, rec_date r = d) (λ x, x = d))
    by (intros x; by rewrite rec_date_of_rows).
  rewrite filter_eq_seqZ by lia. simpl.
  rewrite filter_cons, filter_nil.
  by destruct (is_listed _).
Qed.

(** X18. On a reachable store that has the columns the identity query names,
    with a non-negative cutoff, for a day of a month the daily report and the
    monthly report of the same card in the same state agree: the monthly
    listing holds the record of the daily report for that day, and only it,
    when the record has a first IN or a last OUT, and no record for that day
    otherwise; both reports carry the same identity, mapping variant and swap
    flag. *)
Theorem daily_report_agrees_with_monthly_report (w : World) (card_no month_value date_value : string)
    (year month : Z) (day : date) :
  db_reachable (database w) = true →
  identity_query_accepted w card_no = true →
  0 ≤ shift_out_cutoff_hours (settings w) →
  strptime_month month_value = Some (year, month) →
  (year =? 9999) && (month =? 12) = false →
  strptime_date date_value = Some day →
  ymd2ord year month 1 ≤ day < ymd2ord year month 1 + days_in_month year month →
  ∃ daily monthly,
    (run (fetch_daily_report card_no date_value) w).1 = Ok daily ∧
    (run (fetch_monthly_report card_no month_value) w).1 = Ok monthly ∧
    filter (λ r, rec_date r = day) (monthly_records monthly)
    = (if is_listed (daily_record daily) then [daily_record daily] else []) ∧
    daily_swapApplied daily = monthly_swapApplied monthly ∧
    daily_mappingVariant daily = monthly_mappingVariant monthly ∧
    daily_identity daily = monthly_identity monthly.
Proof.
  intros Hr Hacc Hcut Hm Hlast Hd Hin.
  destruct (month_bounds_run w month_value year month Hm) as [Hb _].
  rewrite Hlast in Hb.
  replace (datetime_combine_min (ymd2ord year month 1) + timedelta_days (days_in_month year month))
    with (datetime_combine_min (ymd2ord year month 1 + days_in_month year month)) in Hb
    by (unfold datetime_combine_min, timedelta_days; lia).
  destruct (run_fetch_monthly_report w card_no month_value _ _ _ Hr Hacc Hb) as (w1 & H1).
  destruct (run_fetch_daily_report w card_no date_value day Hr Hacc Hd) as (w2 & H2).
  rewrite H1, H2. eexists _, _. split; [done|]. split; [done|]. cbn.
  split; [by apply listing_on_a_day|]. done.
Qed.

Lemma daily_report_agrees_with_monthly_report_witness :
  ∃ daily monthly,
    (run (fetch_daily_report "7" "2024-01-02") overnight_world).1 = Ok daily ∧
    (run (fetch_monthly_report "7" "2024-01") overnight_world).1 = Ok monthly ∧
    filter (λ r, rec_date r = ymd2ord 2024 1 2) (monthly_records monthly)
    = (if is_listed (daily_record daily) then [daily_record daily] else []) ∧
    daily_swapApplied daily = monthly_swapApplied monthly ∧
    daily_mappingVariant daily = monthly_mappingVariant monthly ∧
    daily_identity daily = monthly_identity monthly.
Proof.
  apply (daily_report_agrees_with_monthly_report overnight_world "7" "2024-01" "2024-01-02"
           2024 1 (ymd2ord 2024 1 2)).
  - reflexivity.
  - reflexivity.
  - vm_compute. discriminate.
  - vm_compute. reflexivity.
  - reflexivity.
  - vm_compute. reflexivity.
  - vm_compute. split; [discriminate|reflexivity].
Defined.

(** ** Reports over a store without IN/OUT information *)







(** ** Sums over a listing *)

Lemma foldl_add_sum {A} (f : A → Z) (l : list A) : ∀ a,
  foldl (λ acc x, acc + f x) a l = a + sum_list (f <$> l).
Proof.
  unfold sum_list. induction l as [|x l IH]; intros a; csimpl; [lia|].
  rewrite IH. lia.
Qed.

Lemma sum_of_sum_list {A} (f : A → Z) (l : list A) : sum_of f l = sum_list (f <$> l).
Proof. unfold sum_of. by rewrite foldl_add_sum. Qed.

Lemma foldl_count_sum {A} (p : A → bool) (l : list A) : ∀ a,
  foldl (λ acc x, if p x then acc + 1 else acc) a l
  = a + sum_list ((λ x, if p x then 1 else 0) <$> l).
Proof.
  unfold sum_list. induction l as [|x l IH]; intros a; csimpl; [lia|].
  rewrite IH. destruct (p x); lia.
Qed.

Lemma count_where_sum_list {A} (p : A → bool) (l : list A) :
  count_where p l = sum_list ((λ x, if p x then 1 else 0) <$> l).
Proof. unfold count_where. by rewrite foldl_count_sum. Qed.





Lemma count_where_bounds {A} (p : A → bool) l : 0 ≤ count_where p l ≤ Z.of_nat (length l).
Proof.
  rewrite count_where_sum_list. unfold sum_list.
  induction l as [|x l IH]; csimpl; [lia|]. destruct (p x); lia.
Qed.

(** ** The records of a listing *)


Lemma day_record_facts cfg rows swap d :
  let r := day_record_of_rows cfg rows swap d in
  rec_date r = d ∧
  rec_missing_punch r = xorb (negb (is_some (rec_first_in r))) (negb (is_some (rec_last_out r))) ∧
  match rec_duration_minutes r with
  | Some minutes =>
      is_some (rec_first_in r) = true ∧ 0 ≤ minutes < (24 + shift_out_cutoff_hours cfg) * 60
  | None => True
  end.
Proof.
  intros r. split; [apply rec_date_of_rows|].
  subst r. unfold day_record_of_rows.
  set (evs := row_to_event <$> window_rows _ _ rows).
  set (a := _compute_day_attendance cfg (datetime_combine_min d) evs swap).
  destruct (day_attendance_fields cfg (datetime_combine_min d) evs swap)
    as (ins & outs & _ & Hfi & Hdur & Hlo & Hmp).
  simpl in Hfi, Hdur, Hlo, Hmp. fold a in Hfi, Hdur, Hlo, Hmp.
  pose proof (day_attendance_bounds cfg (datetime_combine_min d) evs swap) as (_ & _ & Hb).
  fold a in Hb.
  unfold _serialize_day_record, _format_dt. simpl. split.
  - rewrite Hmp. by destruct (first_in_dt a), (last_out_dt a).
  - destruct (duration_minutes a) as [minutes|] eqn:Hd; [|done].
    split; [|done]. rewrite <- Hfi in Hdur.
    destruct (first_in_dt a); [done|]. simpl in Hdur. congruence.
Qed.

Lemma seqZ_sorted m n : StronglySorted Z.lt (seqZ m n).
Proof.
  destruct (Z.le_gt_cases n 0) as [Hn|Hn]; [rewrite seqZ_nil by done; constructor|].
  rewrite <- (Z2Nat.id n) by lia. generalize (Z.to_nat n). clear. intros k. revert m.
  induction k as [|k IH]; intros m; [rewrite seqZ_nil by done; constructor|].
  rewrite seqZ_cons by lia. constructor.
  - replace (Z.pred (Z.of_nat (S k))) with (Z.of_nat k) by lia. apply IH.
  - apply Forall_seqZ. intros; lia.
Qed.

Lemma StronglySorted_filter {A} (R : relation A) (P : A → Prop) `{∀ x, Decision (P x)} l :
  StronglySorted R l → StronglySorted R (filter P l).
Proof.
  induction 1 as [|x l Hl IH Hx]; [constructor|].
  rewrite filter_cons. destruct (decide (P x)); [|done].
  constructor; [done|].
  apply Forall_forall. intros y [_ Hy]%list_elem_of_filter.
  rewrite Forall_forall in Hx. by apply Hx.
Qed.

Lemma listing_dates_sorted cfg rows swap d0 d1 :
  0 ≤ shift_out_cutoff_hours cfg →
  StronglySorted Z.lt (rec_date <$> listing_of_rows cfg rows swap d0 d1).
Proof.
  intros Hcut. rewrite listing_of_rows_days by done.
  apply (StronglySorted_fmap rec_date (λ r1 r2, rec_date r1 < rec_date r2)); [done|].
  apply StronglySorted_filter.
  apply (StronglySorted_fmap _ Z.lt); [|apply seqZ_sorted].
  intros x y Hxy. by rewrite !rec_date_of_rows.
Qed.

Lemma listing_records cfg rows swap d0 d1 :
  0 ≤ shift_out_cutoff_hours cfg →
  Forall (λ r, ∃ d, d0 ≤ d < d1 ∧ r = day_record_of_rows cfg rows swap d ∧ is_listed r = true)
    (listing_of_rows cfg rows swap d0 d1).
Proof.
  intros Hcut. rewrite listing_of_rows_days by done.
  apply Forall_forall. intros r [Hl Hr]%list_elem_of_filter.
  apply list_elem_of_fmap in Hr as (d & -> & Hd). apply elem_of_seqZ in Hd.
  exists d. split; [lia|]. split; [done|]. by apply Is_true_true.
Qed.

Lemma listing_length cfg rows swap d0 d1 :
  0 ≤ shift_out_cutoff_hours cfg →
  Z.of_nat (length (listing_of_rows cfg rows swap d0 d1)) ≤ Z.max 0 (d1 - d0).
Proof.
  intros Hcut. rewrite listing_of_rows_days by done.
  pose proof (length_filter (λ r, Is_true (is_listed r))
                (day_record_of_rows cfg rows swap <$> seqZ d0 (d1 - d0))) as Hlen.
  rewrite length_fmap, length_seqZ in Hlen. lia.
Qed.

Lemma sum_list_le {A} (f g : A → Z) (l : list A) :
  Forall (λ x, f x ≤ g x) l → sum_list (f <$> l) ≤ sum_list (g <$> l).
Proof. unfold sum_list. induction 1; csimpl; lia. Qed.

Lemma sum_list_nonneg {A} (f : A → Z) (l : list A) :
  Forall (λ x, 0 ≤ f x) l → 0 ≤ sum_list (f <$> l).
Proof. unfold sum_list. induction 1; csimpl; lia. Qed.

Lemma sum_list_length {A} (l : list A) : sum_list ((λ _, 1) <$> l) = Z.of_nat (length l).
Proof. unfold sum_list. induction l; csimpl; lia. Qed.

Lemma sum_list_add {A} (f g : A → Z) (l : list A) :
  sum_list ((λ x, f x + g x) <$> l) = sum_list (f <$> l) + sum_list (g <$> l).
Proof. unfold sum_list. induction l; csimpl; lia. Qed.

Lemma sum_list_scale {A} (f : A → Z) (c : Z) (l : list A) :
  sum_list ((λ x, f x * c) <$> l) = sum_list (f <$> l) * c.
Proof. unfold sum_list. induction l; csimpl; lia. Qed.

Lemma listing_figures cfg rows swap d0 d1 :
  0 ≤ shift_out_cutoff_hours cfg →
  let records := listing_of_rows cfg rows swap d0 d1 in
  worked_days_of records ≤ Z.of_nat (length records)
  ∧ Z.of_nat (length records) ≤ worked_days_of records + missing_punch_days_of records
  ∧ 0 ≤ total_minutes_of records
  ∧ total_minutes_of records
    ≤ worked_days_of records * ((24 + shift_out_cutoff_hours cfg) * 60).
Proof.
  intros Hcut records.
  pose proof (listing_records cfg rows swap d0 d1 Hcut) as Hrec. fold records in Hrec.
  unfold worked_days_of, missing_punch_days_of, total_minutes_of.
  rewrite !count_where_sum_list, sum_of_sum_list.
  split; [|split; [|split]].
  - rewrite <- sum_list_length. apply sum_list_le.
    apply Forall_forall. intros r _. destruct (is_some _); lia.
  - rewrite <- sum_list_length, <- sum_list_add. apply sum_list_le.
    eapply Forall_impl; [exact Hrec|]. intros r (d & _ & -> & Hl). cbv beta.
    destruct (day_record_facts cfg rows swap d) as (_ & -> & _).
    unfold is_listed in Hl.
    destruct (is_some (rec_first_in _)), (is_some (rec_last_out _)); simpl in *; try lia.
  - apply sum_list_nonneg.
    eapply Forall_impl; [exact Hrec|]. intros r (d & _ & -> & Hl). cbv beta.
    destruct (day_record_facts cfg rows swap d) as (_ & _ & Hd).
    destruct (rec_duration_minutes _); simpl; lia.
  - rewrite <- sum_list_scale. apply sum_list_le.
    eapply Forall_impl; [exact Hrec|]. intros r (d & _ & -> & Hl). cbv beta.
    destruct (day_record_facts cfg rows swap d) as (_ & _ & Hd).
    destruct (rec_duration_minutes _) as [minutes|].
    + destruct Hd as [-> Hd]. simpl. lia.
    + destruct (is_some _); simpl; lia.
Qed.

Lemma month_bounds_days w mv y m :
  strptime_month mv = Some (y, m) →
  (y =? 9999) && (m =? 12) = false →
  run (_month_bounds mv) w
  = (Ok (datetime_combine_min (month_first y m), datetime_combine_min (month_last y m), (y, m)),
     w).
Proof.
  intros Hm Hlast. destruct (month_bounds_run w mv y m Hm) as [Hb _]. rewrite Hlast in Hb.
  rewrite Hb. unfold month_last, month_first, datetime_combine_min, timedelta_days.
  by rewrite Z.mul_add_distr_r.
Qed.

(** X20. On a reachable store that has the columns the identity query names,
    with a non-negative cutoff, the records of a monthly report are days of
    that month in strictly ascending date order, each with a first IN or a
    last OUT, so at most one per day of the month; the worked days are at most
    the number of records, every record is a worked day or a missing punch,
    and the total minutes lie between 0 and worked days times (24 + cutoff) *
    60. *)
Theorem monthly_figures_fit_the_listing (w : World) (card_no month_value : string)
    (year month : Z) :
  db_reachable (database w) = true →
  identity_query_accepted w card_no = true →
  0 ≤ shift_out_cutoff_hours (settings w) →
  strptime_month month_value = Some (year, month) →
  (year =? 9999) && (month =? 12) = false →
  ∃ monthly,
    monthly_run w card_no month_value = Ok monthly ∧
    Forall (λ r, month_first year month ≤ rec_date r < month_last year month
                 ∧ is_listed r = true) (monthly_records monthly) ∧
    StronglySorted Z.lt (rec_date <$> monthly_records monthly) ∧
    Z.of_nat (length (monthly_records monthly)) ≤ days_in_month year month ∧
    monthly_total_days monthly ≤ Z.of_nat (length (monthly_records monthly)) ∧
    Z.of_nat (length (monthly_records monthly))
    ≤ monthly_total_days monthly + monthly_missing_punch_days monthly ∧
    0 ≤ monthly_total_minutes monthly ∧
    monthly_total_minutes monthly
    ≤ monthly_total_days monthly * ((24 + shift_out_cutoff_hours (settings w)) * 60).
Proof.
  intros Hr Hacc Hcut Hm Hlast.
  pose proof (month_bounds_days w month_value year month Hm Hlast) as Hb.
  destruct (run_fetch_monthly_report w card_no month_value _ _ _ Hr Hacc Hb) as (w1 & H1).
  unfold monthly_run. rewrite H1. eexists. split; [done|]. cbn.
  unfold report_listing.
  set (rows := report_rows w card_no). set (swap := swapApplied (report_mapping w)).
  split; [|split; [|split]].
  - eapply Forall_impl; [apply (listing_records _ rows swap _ _ Hcut)|].
    intros r (d & Hd & -> & Hl). by rewrite rec_date_of_rows.
  - by apply listing_dates_sorted.
  - pose proof (listing_length (settings w) rows swap (month_first year month)
                  (month_last year month) Hcut) as Hlen.
    pose proof (days_in_month_bounds year month). unfold month_last in *. lia.
  - apply (listing_figures (settings w) rows swap _ _ Hcut).
Qed.

Lemma monthly_figures_fit_the_listing_witness :
  ∃ monthly,
    monthly_run overnight_world "7" "2024-01" = Ok monthly ∧
    monthly_total_days monthly ≤ Z.of_nat (length (monthly_records monthly)) ∧
    Z.of_nat (length (monthly_records monthly))
    ≤ monthly_total_days monthly + monthly_missing_punch_days monthly.
Proof.
  destruct (monthly_figures_fit_the_listing overnight_world "7" "2024-01" 2024 1)
    as (monthly & Hrun & _ & _ & _ & H1 & H2 & _).
  - reflexivity.
  - reflexivity.
  - vm_compute. discriminate.
  - vm_compute. reflexivity.
  - reflexivity.
  - exists monthly. split; [exact Hrun|]. split; [exact H1|exact H2].
Defined.

(** ** The month map of the yearly report *)

Section sorting_permutes.

Context {A : Type} (key : A → Z).



End sorting_permutes.








(** ** The months of a year *)










(** ** The sliding window of the rate limiter *)

Lemma popleft_before_filter cutoff bound entries :
  bound ≤ cutoff →
  filter (λ t, cutoff ≤ t) (rate_limit.popleft_before bound entries)
  = filter (λ t, cutoff ≤ t) entries.
Proof.
  intros Hb. induction entries as [|t entries IH]; [done|].
  simpl. destruct (Z.ltb_spec t bound); [|done].
  rewrite IH. by rewrite filter_cons_False by lia.
Qed.

Lemma popleft_before_length cutoff entries :
  (length (rate_limit.popleft_before cutoff entries) ≤ length entries)%nat.
Proof.
  induction entries as [|t entries IH]; [done|].
  simpl. destruct (t <? cutoff); simpl; lia.
Qed.

Lemma popleft_before_head cutoff oldest rest :
  oldest < cutoff →
  (length (rate_limit.popleft_before cutoff (oldest :: rest)) ≤ length rest)%nat.
Proof.
  intros H. simpl. destruct (Z.ltb_spec oldest cutoff); [|lia].
  apply popleft_before_length.
Qed.

Lemma filter_filter_le (l : list Z) a b :
  a ≤ b → filter (λ t, b ≤ t) (filter (λ t, a ≤ t) l) = filter (λ t, b ≤ t) l.
Proof.
  intros Hab. rewrite list_filter_filter. apply list_filter_iff. intros t. lia.
Qed.

Lemma hits_of_insert (hits : gmap string (list Z)) k entries key :
  hits_of (<[k := entries]> hits) key = if decide (k = key) then entries else hits_of hits key.
Proof.
  unfold hits_of. destruct (decide (k = key)) as [->|Hne].
  - by rewrite lookup_insert_eq.
  - by rewrite lookup_insert_ne.
Qed.

Lemma serve_snoc self requests request :
  serve self (requests ++ [request]) = serve_request self (serve self requests) request.
Proof. unfold serve. by rewrite foldl_snoc. Qed.

Lemma serve_invariant self requests :
  0 ≤ rate_limit.max_requests self →
  ascending fst requests →
  ∀ key,
    Z.of_nat (length (hits_of (serve self requests).1 key)) ≤ rate_limit.max_requests self
    ∧ ∀ cutoff now,
        Forall (λ request, request.1 ≤ now) requests →
        now - rate_limit.window_seconds self * us_per_second ≤ cutoff →
        filter (λ t, cutoff ≤ t) (fst <$> filter (λ r, r.2 = key) (serve self requests).2)
        = filter (λ t, cutoff ≤ t) (hits_of (serve self requests).1 key).
Proof.
  intros Hmax. induction requests as [|[t k0] requests IH] using rev_ind; intros Hasc key.
  - unfold serve, hits_of. simpl. rewrite lookup_empty. simpl. split; [lia|done].
  - apply StronglySorted_app in Hasc as (Hle & Hasc & _).
    specialize (IH Hasc). rewrite serve_snoc.
    destruct (serve self requests) as [hits allowed]. simpl in IH.
    assert (Hbefore : Forall (λ request, request.1 ≤ t) requests).
    { apply Forall_forall. intros r Hr. apply (Hle r (t, k0)); [done|]. apply list_elem_of_here. }
    unfold serve_request, rate_limit.allow. cbn [fst snd].
    set (bound := t - rate_limit.window_seconds self * us_per_second).
    set (entries := rate_limit.popleft_before bound (default [] (hits !! k0))).
    fold (hits_of hits k0) in entries.
    destruct (IH k0) as [Hlen0 Hwin0].
    assert (Hpruned : ∀ cutoff, bound ≤ cutoff →
              filter (λ t', cutoff ≤ t') (fst <$> filter (λ r, r.2 = k0) allowed)
              = filter (λ t', cutoff ≤ t') entries).
    { intros cutoff Hc. unfold entries. rewrite popleft_before_filter by done.
      by apply (Hwin0 cutoff t). }
    assert (Hlen : (length entries ≤ length (hits_of hits k0))%nat)
      by apply popleft_before_length.
    assert (Hother : key ≠ k0 → ∀ entries' allowed',
      filter (λ r : Z * string, r.2 = key) allowed'
      = filter (λ r : Z * string, r.2 = key) allowed →
      Z.of_nat (length (hits_of (<[k0 := entries']> hits) key)) ≤ rate_limit.max_requests self
      ∧ ∀ cutoff now,
          Forall (λ request : Z * string, request.1 ≤ now) (requests ++ [(t, k0)]) →
          now - rate_limit.window_seconds self * us_per_second ≤ cutoff →
          filter (λ t', cutoff ≤ t') (fst <$> filter (λ r : Z * string, r.2 = key) allowed')
          = filter (λ t', cutoff ≤ t') (hits_of (<[k0 := entries']> hits) key)).
    { intros Hne entries' allowed' Hsame. rewrite hits_of_insert.
      rewrite decide_False by done. rewrite Hsame.
      destruct (IH key) as [Hl Hw]. split; [done|].
      intros cutoff now Hall Hc. apply Forall_app in Hall as [Hall _]. by apply (Hw cutoff now). }
    destruct (decide (key = k0)) as [->|Hne].
    + destruct (Z.leb_spec (rate_limit.max_requests self) (Z.of_nat (length entries)))
        as [Hfull|Hroom].
      * assert (Hdenied :
          Z.of_nat (length (hits_of (<[k0 := entries]> hits) k0))
          ≤ rate_limit.max_requests self
          ∧ ∀ cutoff now,
              Forall (λ request : Z * string, request.1 ≤ now) (requests ++ [(t, k0)]) →
              now - rate_limit.window_seconds self * us_per_second ≤ cutoff →
              filter (λ t', cutoff ≤ t') (fst <$> filter (λ r : Z * string, r.2 = k0) allowed)
              = filter (λ t', cutoff ≤ t') (hits_of (<[k0 := entries]> hits) k0)).
        { rewrite hits_of_insert, decide_True by done. split; [lia|].
          intros cutoff now Hall Hc. apply Forall_app in Hall as [_ Hall].
          apply Forall_inv in Hall. simpl in Hall. apply Hpruned. unfold bound. lia. }
        destruct entries as [|oldest rest]; simpl; exact Hdenied.
      * simpl. rewrite hits_of_insert, decide_True by done.
        rewrite length_app. simpl. split; [lia|].
        intros cutoff now Hall Hc. apply Forall_app in Hall as [_ Hall].
        apply Forall_inv in Hall. simpl in Hall.
        rewrite filter_app, fmap_app, !filter_app.
        rewrite Hpruned by (unfold bound; lia).
        rewrite (filter_cons_True (λ r : Z * string, r.2 = k0)) by done. done.
    + destruct (Z.leb_spec (rate_limit.max_requests self) (Z.of_nat (length entries))).
      * destruct entries as [|oldest rest]; simpl; by apply Hother.
      * simpl. apply Hother; [done|].
        rewrite filter_app. rewrite (filter_cons_False _ (t, k0)) by (simpl; congruence).
        by rewrite app_nil_r.
Qed.

Lemma recent_allowed_length self now key allowed :
  length (recent_allowed self now key allowed)
  = length (filter (λ t, now - rate_limit.window_seconds self * us_per_second ≤ t)
              (fst <$> filter (λ r, r.2 = key) allowed)).
Proof.
  unfold recent_allowed.
  rewrite (filter_fmap_comm fst _
             (λ r : Z * string, now - rate_limit.window_seconds self * us_per_second ≤ r.1))
    by done.
  rewrite length_fmap, list_filter_filter. f_equal.
  apply list_filter_iff. intros r. tauto.
Qed.

(** X22. Serving requests in non-decreasing clock order from an empty limiter,
    the allowed requests of any key that are not older than the window at the
    last request number at most max_requests, and no key ever holds more than
    max_requests timestamps. *)
Theorem limiter_allows_at_most_max_per_window (self : rate_limit.SlidingWindowLimiter)
    (requests : list (Z * string)) (key : string) :
  0 ≤ rate_limit.max_requests self →
  ascending fst requests →
  Z.of_nat (length (recent_allowed self (last_reading requests) key (serve self requests).2))
  ≤ rate_limit.max_requests self
  ∧ Z.of_nat (length (hits_of (serve self requests).1 key)) ≤ rate_limit.max_requests self.
Proof.
  intros Hmax Hasc.
  destruct (serve_invariant self requests Hmax Hasc key) as [Hlen Hwin].
  split; [|done].
  rewrite recent_allowed_length.
  rewrite (Hwin _ (last_reading requests)); [| |lia].
  - pose proof (length_filter
                  (λ t, last_reading requests
                        - rate_limit.window_seconds self * us_per_second ≤ t)
                  (hits_of (serve self requests).1 key)). lia.
  - clear -Hasc. unfold last_reading.
    induction requests as [|r requests _] using rev_ind; [constructor|].
    rewrite last_snoc. simpl. apply Forall_app. split.
    + apply StronglySorted_app in Hasc as (Hle & _ & _).
      apply Forall_forall. intros r' Hr'. apply (Hle r' r); [done|apply list_elem_of_here].
    + by constructor.
Qed.

Lemma limiter_allows_at_most_max_per_window_witness :
  let self := rate_limit.mkSlidingWindowLimiter 60 2 in
  let requests := [(0, "10.0.0.1"); (10000000, "10.0.0.1"); (20000000, "10.0.0.1");
                   (61000000, "10.0.0.1")]%string in
  Z.of_nat (length (recent_allowed self (last_reading requests) "10.0.0.1"
                      (serve self requests).2)) ≤ 2
  ∧ (serve self requests).2
    = [(0, "10.0.0.1"); (10000000, "10.0.0.1"); (61000000, "10.0.0.1")]%string.
Proof.
  intros self requests. split.
  - apply (limiter_allows_at_most_max_per_window self requests "10.0.0.1").
    + simpl. lia.
    + repeat constructor; simpl; lia.
  - vm_compute. reflexivity.
Defined.

Lemma quot_succ_bound x u : 0 < u → x < (Z.quot x u + 1) * u.
Proof.
  intros Hu. pose proof (Z.quot_rem' x u) as Hq.
  destruct (Z.le_gt_cases 0 x) as [Hx|Hx].
  - pose proof (Z.rem_bound_pos x u Hx Hu). lia.
  - assert (Hneg : x ≤ 0) by lia.
    pose proof (Z.rem_bound_pos_neg x u Hu Hneg). lia.
Qed.

(** X23. When a limiter that holds at most max_requests timestamps for a key
    refuses a request, the retry-after it gives is at least one second, and a
    request of the same key made retry-after seconds later, or any time after
    that, is allowed and recorded. *)
Theorem retry_after_is_honoured (self : rate_limit.SlidingWindowLimiter)
    (hits hits' : gmap string (list Z)) (now later retry_after : Z) (key : string) :
  Z.of_nat (length (hits_of hits key)) ≤ rate_limit.max_requests self →
  rate_limit.allow self hits now key = (Some (false, retry_after), hits') →
  now + retry_after * us_per_second ≤ later →
  1 ≤ retry_after
  ∧ ∃ hits'', rate_limit.allow self hits' later key = (Some (true, 0), hits'')
              ∧ last (hits_of hits'' key) = Some later.
Proof.
  intros Hinv Hdenied Hlater. unfold rate_limit.allow in Hdenied.
  fold (hits_of hits key) in Hdenied.
  set (entries := rate_limit.popleft_before _ (hits_of hits key)) in Hdenied.
  pose proof (popleft_before_length
                (now - rate_limit.window_seconds self * us_per_second) (hits_of hits key))
    as Hlen. fold entries in Hlen.
  destruct (Z.leb_spec (rate_limit.max_requests self) (Z.of_nat (length entries)))
    as [Hfull|Hroom]; [|by inversion Hdenied].
  destruct entries as [|oldest rest] eqn:Hentries; [by inversion Hdenied|].
  inversion Hdenied as [[Hretry Hhits]]. clear Hdenied.
  split; [apply Z.le_max_r|].
  assert (Hus : 0 < us_per_second) by (unfold us_per_second; lia).
  pose proof (quot_succ_bound
                (rate_limit.window_seconds self * us_per_second - (now - oldest))
                us_per_second Hus) as Hq.
  assert (Hexpired : oldest < later - rate_limit.window_seconds self * us_per_second).
  { rewrite <- Hretry in Hlater.
    pose proof (Z.le_max_l
                  (Z.quot (rate_limit.window_seconds self * us_per_second - (now - oldest))
                     us_per_second + 1) 1) as Hm.
    revert Hq Hlater Hm.
    generalize (Z.quot (rate_limit.window_seconds self * us_per_second - (now - oldest))
                  us_per_second).
    intros q. generalize (Z.max (q + 1) 1). intros r. unfold us_per_second. nia. }
  unfold rate_limit.allow. fold (hits_of (<[key := oldest :: rest]> hits) key).
  rewrite hits_of_insert, decide_True by done.
  pose proof (popleft_before_head _ oldest rest Hexpired) as Hshort.
  simpl in Hlen, Hfull.
  destruct (Z.leb_spec (rate_limit.max_requests self)
              (Z.of_nat (length (rate_limit.popleft_before
                                   (later - rate_limit.window_seconds self * us_per_second)
                                   (oldest :: rest))))); [lia|].
  eexists. split; [done|].
  rewrite hits_of_insert, decide_True by done. apply last_snoc.
Qed.

Lemma retry_after_is_honoured_witness :
  let self := rate_limit.mkSlidingWindowLimiter 60 2 in
  let hits : gmap string (list Z) := {[ "10.0.0.1"%string := [0; 10000000] ]} in
  rate_limit.allow self hits 20000000 "10.0.0.1"
  = (Some (false, 41), hits)
  ∧ ∃ hits'', rate_limit.allow self hits 61000000 "10.0.0.1" = (Some (true, 0), hits'')
              ∧ last (hits_of hits'' "10.0.0.1") = Some 61000000.
Proof.
  intros self hits.
  assert (Hdenied : rate_limit.allow self hits 20000000 "10.0.0.1" = (Some (false, 41), hits))
    by (vm_compute; reflexivity).
  split; [exact Hdenied|].
  apply (retry_after_is_honoured self hits hits 20000000 61000000 41 "10.0.0.1").
  - vm_compute. discriminate.
  - exact Hdenied.
  - vm_compute. discriminate.
Defined.

(** ** Settings from the environment *)

(** X24. Whatever the environment holds, the cutoff read from
    SHIFT_OUT_CUTOFF_HOURS lies between 0 and 23, so under these settings a
    last OUT lies less than 47 hours after the start of its day and a duration
    is below 47 * 60 minutes. *)
Theorem environment_bounds_the_overnight_window (getenv : string → option string)
    (day_start : datetime) (evs : list Event) (swap : bool) :
  let cfg := config.get_settings getenv in
  let r := _compute_day_attendance cfg day_start evs swap in
  0 ≤ shift_out_cutoff_hours cfg ≤ 23 ∧
  match last_out_dt r with
  | Some l => day_start ≤ l < day_start + timedelta_hours 47
  | None => True
  end ∧
  match duration_minutes r with
  | Some d => 0 ≤ d < 47 * 60
  | None => True
  end.
Proof.
  intros cfg r.
  assert (Hcut : 0 ≤ shift_out_cutoff_hours cfg ≤ 23) by (simpl; lia).
  split; [done|].
  destruct (day_attendance_bounds cfg day_start evs swap) as (Hf & Hl & Hd). fold r in Hf, Hl, Hd.
  split.
  - destruct (first_in_dt r) as [f|], (last_out_dt r) as [l|]; try done.
    + unfold timedelta_days, timedelta_hours, us_per_day, us_per_hour, us_per_minute,
        us_per_second, datetime in *. lia.
    + unfold timedelta_days, timedelta_hours, us_per_day, us_per_hour, us_per_minute,
        us_per_second, datetime in *. lia.
  - destruct (duration_minutes r) as [d|]; [|done]. lia.
Qed.

(** ** File names *)

Lemma all_chars_forallb p s : forallb p (list_ascii_of_string s) = true → all_chars p s.
Proof.
  unfold all_chars. intros Hall. rewrite forallb_forall in Hall.
  apply Forall_forall. intros c Hc. by apply Hall, list_elem_of_In.
Qed.

Lemma all_chars_app p s1 s2 : all_chars p s1 → all_chars p s2 → all_chars p (s1 ++ s2).
Proof.
  unfold all_chars. intros H1 H2.
  induction s1 as [|c s1 IH]; [done|].
  simpl in *. apply Forall_cons in H1 as [Hc H1]. constructor; [done|by apply IH].
Qed.

Lemma collapse_dashes_chars p cs :
  Forall (λ c, p c = true) cs → Forall (λ c, p c = true) (main.collapse_dashes cs).
Proof.
  induction 1 as [|c cs Hc Hcs IH]; [constructor|].
  simpl. destruct cs as [|d cs']; [by constructor|].
  destruct (_ && _); [done|by constructor].
Qed.

Lemma lstrip_dashes_chars p cs :
  Forall (λ c, p c = true) cs → Forall (λ c, p c = true) (main.lstrip_dashes cs).
Proof.
  induction 1 as [|c cs Hc Hcs IH]; [constructor|].
  simpl. destruct (_ || _); [done|by constructor].
Qed.

Lemma strip_dashes_chars p cs :
  Forall (λ c, p c = true) cs → Forall (λ c, p c = true) (main.strip_dashes cs).
Proof.
  intros H. unfold main.strip_dashes.
  apply Forall_reverse, lstrip_dashes_chars, Forall_reverse, lstrip_dashes_chars, H.
Qed.

Lemma length_string_of_list (l : list ascii) :
  String.length (string_of_list_ascii l) = length l.
Proof. induction l as [|c l IH]; [done|]. simpl. by rewrite IH. Qed.

Lemma length_append (s1 s2 : string) :
  String.length (s1 ++ s2) = (String.length s1 + String.length s2)%nat.
Proof. induction s1 as [|c s1 IH]; [done|]. simpl. by rewrite IH. Qed.

Lemma sanitize_filename_part_safe value :
  all_chars main.is_filename_char (main._sanitize_filename_part value)
  ∧ (1 ≤ String.length (main._sanitize_filename_part value) ≤ 40)%nat.
Proof.
  destruct value as [v|].
  2:{ split; [|simpl; lia]. by apply all_chars_forallb. }
  unfold all_chars.
  unfold main._sanitize_filename_part.
  set (text := main.strip_dashes _).
  assert (Hsafe : Forall (λ c, main.is_filename_char c = true) text).
  { apply strip_dashes_chars, collapse_dashes_chars.
    apply Forall_forall. intros c [Hc _]%list_elem_of_filter. by apply Is_true_true. }
  clearbody text.
  rewrite list_ascii_of_string_of_list_ascii, length_string_of_list.
  destruct (bool_decide (text = [])) eqn:Hempty.
  - split; [by apply (all_chars_forallb _ "Unknown")|vm_compute; lia].
  - apply bool_decide_eq_false in Hempty. split; [by apply Forall_take|].
    rewrite length_take. destruct text as [|c text]; [done|]. cbn [length]. lia.
Qed.

(** X25. A sanitized file name part consists of letters, digits, dashes and
    underscores only and has 1 to 40 characters, for any input including none.
    With a prefix of such characters the PDF file name has only these
    characters and dots, and is at most 127 characters longer than the prefix.
    *)
Theorem pdf_filename_is_safe (prefix employee_name card_no period : string) :
  all_chars main.is_filename_char prefix →
  all_chars is_filename_char_or_dot
    (main._build_pdf_filename prefix employee_name card_no period)
  ∧ (String.length (main._build_pdf_filename prefix employee_name card_no period)
     ≤ String.length prefix + 127)%nat
  ∧ ∀ value, all_chars main.is_filename_char (main._sanitize_filename_part value)
             ∧ (1 ≤ String.length (main._sanitize_filename_part value) ≤ 40)%nat.
Proof.
  intros Hprefix.
  assert (Hweak : ∀ s, all_chars main.is_filename_char s → all_chars is_filename_char_or_dot s).
  { intros s Hs. unfold all_chars in *. eapply Forall_impl; [exact Hs|].
    intros c Hc. unfold is_filename_char_or_dot. by rewrite Hc. }
  assert (Hsep : all_chars is_filename_char_or_dot "_") by by apply all_chars_forallb.
  assert (Hext : all_chars is_filename_char_or_dot ".pdf") by by apply all_chars_forallb.
  split; [|split; [|apply sanitize_filename_part_safe]].
  - unfold main._build_pdf_filename.
    repeat apply all_chars_app; try done; apply Hweak; try done;
      apply sanitize_filename_part_safe.
  - unfold main._build_pdf_filename.
    destruct (sanitize_filename_part_safe (Some employee_name)) as [_ H1].
    destruct (sanitize_filename_part_safe (Some card_no)) as [_ H2].
    destruct (sanitize_filename_part_safe (Some period)) as [_ H3].
    rewrite !length_append.
    change (String.length "_") with 1%nat. change (String.length ".pdf") with 4%nat. lia.
Qed.

Lemma pdf_filename_is_safe_witness :
  main._build_pdf_filename "OC_Att_D" "  Lina  O'Neil / HR  " "10 01" "2024-01-02"
  = "OC_Att_D_Lina-ONeil-HR_10-01_2024-01-02.pdf"%string
  ∧ all_chars is_filename_char_or_dot
      (main._build_pdf_filename "OC_Att_D" "  Lina  O'Neil / HR  " "10 01" "2024-01-02").
Proof.
  split; [vm_compute; reflexivity|].
  apply (pdf_filename_is_safe "OC_Att_D" "  Lina  O'Neil / HR  " "10 01" "2024-01-02").
  apply all_chars_forallb. vm_compute. reflexivity.
Defined.

(** ** The months of the yearly report *)












Section months_of_a_year.

Context (cfg : Settings) (rows : list (datetime * option Z)) (swap : bool) (year : Z).

Hypothesis cutoff : 0 ≤ shift_out_cutoff_hours cfg.

Hypothesis accepted : 1900 ≤ year ≤ 2100.






End months_of_a_year.



